(** * FormFlex: the form-builder store and the preview validation predicate

    A shallow embedding of [app/store/formBuilderStore.ts] (the zustand
    store holding the form document with its undo/redo history) and of
    [validateField] from [app/components/FormPreview.tsx]; further down,
    of what the routes and components build on them: the builder page
    ([app/routes/_index.tsx]), the form filler
    ([app/routes/fill-form.$formId.tsx]), [app/utils/formUtils.ts] and
    the store calls of the other components.

    Conventions of the embedding.
    - JavaScript strings are [string]; [s.length] is [String.length s].
    - JavaScript numbers that occur in the store ([order], indices,
      [minLength], [maxLength]) are integers and are modelled by [Z].
    - [string | null] and optional properties are [option]; [None] stands
      for [null] / [undefined] / an absent property.
    - [uuidv4()] is an external source of identifiers: each call site
      receives the generated identifier as an argument.
    - zustand's [set(partial)] merges [partial] into the current state;
      each action is written as the state it leaves behind. *)

From Stdlib Require Import ZArith Lia List Bool Ascii String Permutation.
From stdpp Require Import base option list strings pretty gmap.
Import ListNotations.
Local Open Scope Z_scope.
#[local] Set Warnings "-clear-no-such-hyp".

(** ** Data model *)

Inductive FieldType := text | textarea | dropdown | checkbox | date | fileUpload.

Inductive Theme := light | dark.

Record Validation := mkValidation {
  minLength : option Z;
  maxLength : option Z;
  pattern : option string
}.

Record DropdownOption := mkOption {
  opt_label : string;
  opt_value : string
}.

(** A field object.  JavaScript objects are flat property bags, so the
    variant-only properties ([options], [accept], [multiple]) are optional
    properties of every field: [updateField] can put them on any field. *)
Record FormField := mkField {
  f_id : string;
  f_type : FieldType;
  f_label : string;
  f_placeholder : option string;
  f_required : bool;
  f_helpText : option string;
  f_order : Z;
  f_validation : Validation;
  f_options : option (list DropdownOption);
  f_accept : option string;
  f_multiple : option bool
}.

(** An element of the [fields] array.  [reorderFields] builds its result
    with [{ ...field, order: index }]; when [field] is [undefined] (a
    start index outside the array) that object has [order] as its only
    property, which is the second constructor. *)
Inductive AnyFormField :=
| Field (f : FormField)
| OrderOnly (order : Z).

(** [Partial<AnyFormField>]: every property may be present or absent. *)
Record FieldUpdates := mkUpdates {
  u_id : option string;
  u_type : option FieldType;
  u_label : option string;
  u_placeholder : option string;
  u_required : option bool;
  u_helpText : option string;
  u_order : option Z;
  u_validation : option Validation;
  u_options : option (list DropdownOption);
  u_accept : option string;
  u_multiple : option bool
}.

Record FormStep := mkStep {
  s_id : string;
  s_name : string;
  fieldIds : list string
}.

Record HistoryState := mkHistory {
  h_fields : list AnyFormField;
  h_steps : list FormStep;
  h_activeStepId : option string;
  h_formName : string;
  h_theme : Theme
}.

Record FormBuilderState := mkState {
  fields : list AnyFormField;
  steps : list FormStep;
  activeStepId : option string;
  selectedFieldId : option string;
  formName : string;
  theme : Theme;
  past : list HistoryState;
  future : list HistoryState
}.

Definition initialFormBuilderState : FormBuilderState :=
  {| fields := []; steps := []; activeStepId := None; selectedFieldId := None;
     formName := "My New Form"; theme := light; past := []; future := [] |}.

(** ** Property access and JavaScript helpers *)

(** [field.id]: [None] is [undefined]. *)
Definition any_id (a : AnyFormField) : option string :=
  match a with Field f => Some (f_id f) | OrderOnly _ => None end.

(** [field.order] *)
Definition any_order (a : AnyFormField) : Z :=
  match a with Field f => f_order f | OrderOnly o => o end.

(** [x === id] for [x : string | undefined | null] and a string [id]. *)
Definition opt_is (x : option string) (i : string) : bool :=
  match x with Some y => String.eqb y i | None => false end.

(** [a === b] for two values of type [string | null]. *)
Definition opt_eqb (a b : option string) : bool :=
  match a, b with
  | Some x, Some y => String.eqb x y
  | None, None => true
  | _, _ => false
  end.

(** Truthiness of a [string | null | undefined]: [null], [undefined] and
    the empty string are falsy. *)
Definition truthy (x : option string) : bool :=
  match x with Some s => negb (String.eqb s "") | None => false end.

(** [x || ''] *)
Definition or_empty (x : option string) : string :=
  match x with Some s => if String.eqb s "" then "" else s | None => "" end.

(** [arr.includes(x)] on an array of strings. *)
Definition includes (arr : list string) (x : string) : bool :=
  existsb (String.eqb x) arr.

(** [arr.slice(-9)]: the last nine elements, all of them when there are
    fewer. *)
Definition slice_last9 {A} (arr : list A) : list A :=
  skipn (length arr - 9)%nat arr.

(** The start position [splice] computes from its first argument:
    negative values count from the end, everything is clamped to
    [0 .. length]. *)
Definition splice_start (len : nat) (start : Z) : nat :=
  if start <? 0 then Z.to_nat (Z.max (Z.of_nat len + start) 0)
  else Z.to_nat (Z.min start (Z.of_nat len)).

(** [const [removed] = arr.splice(start, 1)]: the array after the call and
    the removed element ([None] is [undefined], when nothing was
    removed). *)
Definition splice_remove1 {A} (arr : list A) (start : Z) : list A * option A :=
  let k := splice_start (length arr) start in
  (firstn k arr ++ skipn (S k) arr, nth_error arr k).

(** [arr.splice(start, 0, x)] *)
Definition splice_insert {A} (arr : list A) (start : Z) (x : A) : list A :=
  let k := splice_start (length arr) start in
  firstn k arr ++ x :: skipn k arr.

(** [[...arr].sort((a, b) => a.order - b.order)]: [Array.prototype.sort]
    is stable, so the result is the stable sort by [order]; it is
    computed here by insertion from the right. *)
Fixpoint insert_by_order (x : AnyFormField) (l : list AnyFormField) : list AnyFormField :=
  match l with
  | [] => [x]
  | y :: l' =>
      if any_order x <=? any_order y then x :: l
      else y :: insert_by_order x l'
  end.

Fixpoint sort_by_order (l : list AnyFormField) : list AnyFormField :=
  match l with
  | [] => []
  | x :: l' => insert_by_order x (sort_by_order l')
  end.

(** [arr.map((field, index) => f field index)] *)
Fixpoint mapi_from {A B} (i : nat) (f : A -> Z -> B) (l : list A) : list B :=
  match l with
  | [] => []
  | x :: l' => f x (Z.of_nat i) :: mapi_from (S i) f l'
  end.

Definition mapi {A B} (f : A -> Z -> B) (l : list A) : list B := mapi_from 0 f l.

(** [const x = arr.find(p); if (x) { mutate x }] on an array whose
    elements are distinct objects: the first element satisfying [p] is
    replaced by its mutated version. *)
Fixpoint update_first {A} (p : A -> bool) (f : A -> A) (l : list A) : list A :=
  match l with
  | [] => []
  | x :: l' => if p x then f x :: l' else x :: update_first p f l'
  end.

(** [type.charAt(0).toUpperCase() + type.slice(1)] *)
Definition type_name (t : FieldType) : string :=
  match t with
  | text => "text" | textarea => "textarea" | dropdown => "dropdown"
  | checkbox => "checkbox" | date => "date" | fileUpload => "fileUpload"
  end.

Definition to_upper (c : ascii) : ascii :=
  let n := nat_of_ascii c in
  if ((97 <=? n) && (n <=? 122))%nat then ascii_of_nat (n - 32) else c.

Definition capitalize (s : string) : string :=
  match s with
  | EmptyString => EmptyString
  | String c s' => String (to_upper c) s'
  end.

(** The decimals with fewer and fewer trailing zeros next to [m], until
    one of them is [inside] the interval of the reals that round to the
    number [m]: the closer one, and on a tie the one with the even last
    digit. *)
Fixpoint shortest_from (fuel : nat) (scale : Z) (inside : Z -> bool) (m : Z) : Z :=
  match fuel with
  | O => m
  | S fuel' =>
      let lo := (m / scale) * scale in
      let hi := lo + scale in
      let lo_ok := inside lo && (0 <? lo) in
      let hi_ok := inside hi in
      if lo_ok && hi_ok then
        if m - lo <? hi - m then lo
        else if hi - m <? m - lo then hi
        else if Z.even (lo / scale) then lo else hi
      else if lo_ok then lo
      else if hi_ok then hi
      else shortest_from fuel' (scale / 10) inside m
  end.

(** The shortest decimal that denotes the number [m], an integer beyond
    2^53: its neighbours are [ulp] away (the one below a power of two
    half as far), and the reals halfway to them round to [m] when its
    mantissa [m / ulp] is even. *)
Definition shortest (m : Z) : Z :=
  let e := Z.log2 m in
  let ulp := 2 ^ (e - 52) in
  let low4 := 4 * m - (if m =? 2 ^ e then ulp else 2 * ulp) in
  let high4 := 4 * m + 2 * ulp in
  let inside c :=
    if Z.even (m / ulp) then (low4 <=? 4 * c) && (4 * c <=? high4)
    else (low4 <? 4 * c) && (4 * c <? high4) in
  let p := String.length (pretty m) in
  shortest_from p (10 ^ (Z.of_nat p - 1)) inside m.

Fixpoint strip_zeros (s : string) : string :=
  match s with
  | EmptyString => EmptyString
  | String c s' =>
      match strip_zeros s' with
      | EmptyString => if Ascii.eqb c "0"%char then EmptyString else String c EmptyString
      | t => String c t
      end
  end.

(** The text of a number inside a template literal ([Number::toString]).
    An integer up to 2^53 is printed with all its digits.  Beyond, the
    numbers are the multiples of the power of two that separates a
    number from the next one; the digits printed are those of the
    shortest decimal that still denotes the number, followed by zeros up
    to 21 digits and in exponent form from there on. *)
Definition num_string (z : Z) : string :=
  if Z.abs z <=? 2 ^ 53 then pretty z
  else
    let digits := pretty (shortest (Z.abs z)) in
    let n := String.length digits in
    let sign := if z <? 0 then "-" else "" in
    if (n <=? 21)%nat then sign +:+ digits
    else
      match strip_zeros digits with
      | String d EmptyString => sign +:+ String d ("e+" +:+ pretty (Z.of_nat n - 1))
      | String d rest => sign +:+ String d ("." +:+ rest +:+ "e+" +:+ pretty (Z.of_nat n - 1))
      | EmptyString => sign +:+ digits
      end.

(** ** The store actions *)

(** The five document properties a history entry records.
    [structuredClone] copies a value to an independent, equal value; on
    immutable values it is the identity (object identity is treated in
    the module [Refs] below). *)
Definition snapshot (s : FormBuilderState) : HistoryState :=
  {| h_fields := fields s; h_steps := steps s; h_activeStepId := activeStepId s;
     h_formName := formName s; h_theme := theme s |}.

Definition _addToHistory (s : FormBuilderState) : FormBuilderState :=
  {| fields := fields s; steps := steps s; activeStepId := activeStepId s;
     selectedFieldId := selectedFieldId s; formName := formName s; theme := theme s;
     past := slice_last9 (past s) ++ [snapshot s];
     future := [] |}.

(** The field object [addField] builds: [baseField] with the properties
    of the chosen variant. *)
Definition newField (uuid : string) (type : FieldType) (order : Z) : FormField :=
  {| f_id := uuid;
     f_type := type;
     f_label := "New " +:+ capitalize (type_name type) +:+ " Field";
     f_placeholder := None;
     f_required := false;
     f_helpText := None;
     f_order := order;
     f_validation := {| minLength := None; maxLength := None; pattern := None |};
     f_options := match type with
                  | dropdown => Some [ {| opt_label := "Option 1"; opt_value := "option1" |} ]
                  | _ => None
                  end;
     f_accept := match type with fileUpload => Some "" | _ => None end;
     f_multiple := match type with fileUpload => Some false | _ => None end |}.

(** [targetStep.fieldIds.push(id)] *)
Definition push_fieldId (i : string) (st : FormStep) : FormStep :=
  {| s_id := s_id st; s_name := s_name st; fieldIds := fieldIds st ++ [i] |}.

(** [addField(type)]; [uuid1] is the identifier generated for the field,
    [uuid2] the one generated for the default step (used only when there
    is no step yet). *)
Definition addField (uuid1 uuid2 : string) (type : FieldType)
    (s0 : FormBuilderState) : FormBuilderState :=
  let s := _addToHistory s0 in
  let nf := newField uuid1 type (Z.of_nat (length (fields s))) in
  let updatedFields := fields s ++ [Field nf] in
  match steps s with
  | [] =>
      let newStep := {| s_id := uuid2; s_name := "Step 1"; fieldIds := [f_id nf] |} in
      {| fields := updatedFields; steps := [newStep]; activeStepId := Some (s_id newStep);
         selectedFieldId := selectedFieldId s; formName := formName s; theme := theme s;
         past := past s; future := future s |}
  | first :: _ =>
      let currentSteps := steps s in
      let is_active := fun st => opt_is (activeStepId s) (s_id st) in
      let currentSteps' :=
        if existsb is_active currentSteps
        then update_first is_active (push_fieldId (f_id nf)) currentSteps
        else update_first (fun _ => true) (push_fieldId (f_id nf)) currentSteps in
      {| fields := updatedFields; steps := currentSteps'; activeStepId := activeStepId s;
         selectedFieldId := selectedFieldId s; formName := formName s; theme := theme s;
         past := past s; future := future s |}
  end.

(** [{ ...field, ...updates }] *)
Definition or_else {A} (u : option A) (d : A) : A :=
  match u with Some x => x | None => d end.

Definition or_else_opt {A} (u : option A) (d : option A) : option A :=
  match u with Some x => Some x | None => d end.

Definition merge (f : FormField) (u : FieldUpdates) : FormField :=
  {| f_id := or_else (u_id u) (f_id f);
     f_type := or_else (u_type u) (f_type f);
     f_label := or_else (u_label u) (f_label f);
     f_placeholder := or_else_opt (u_placeholder u) (f_placeholder f);
     f_required := or_else (u_required u) (f_required f);
     f_helpText := or_else_opt (u_helpText u) (f_helpText f);
     f_order := or_else (u_order u) (f_order f);
     f_validation := or_else (u_validation u) (f_validation f);
     f_options := or_else_opt (u_options u) (f_options f);
     f_accept := or_else_opt (u_accept u) (f_accept f);
     f_multiple := or_else_opt (u_multiple u) (f_multiple f) |}.

Definition update_one (i : string) (u : FieldUpdates) (a : AnyFormField) : AnyFormField :=
  match a with
  | Field f => if String.eqb (f_id f) i then Field (merge f u) else a
  | OrderOnly _ => a
  end.

Definition updateField (i : string) (updates : FieldUpdates)
    (s0 : FormBuilderState) : FormBuilderState :=
  let s := _addToHistory s0 in
  {| fields := map (update_one i updates) (fields s);
     steps := steps s; activeStepId := activeStepId s;
     selectedFieldId := selectedFieldId s; formName := formName s; theme := theme s;
     past := past s; future := future s |}.

(** [{ ...step, fieldIds: step.fieldIds.filter(fieldId => fieldId !== id) }] *)
Definition without_field (i : string) (st : FormStep) : FormStep :=
  {| s_id := s_id st; s_name := s_name st;
     fieldIds := List.filter (fun fieldId => negb (String.eqb fieldId i)) (fieldIds st) |}.

(** The active step after [removeField]: the first remaining step when
    the active one is unset or gone, [null] when no step remains. *)
Definition next_active (activeStepId : option string) (updatedSteps : list FormStep)
  : option string :=
  match updatedSteps with
  | first :: _ =>
      if negb (truthy activeStepId)
         || negb (existsb (fun st => opt_eqb (Some (s_id st)) activeStepId) updatedSteps)
      then Some (s_id first)
      else activeStepId
  | [] => None
  end.

Definition removeField (i : string) (s0 : FormBuilderState) : FormBuilderState :=
  let s := _addToHistory s0 in
  let updatedFields := List.filter (fun field => negb (opt_is (any_id field) i)) (fields s) in
  let updatedSteps :=
    List.filter (fun st => (0 <? length (fieldIds st))%nat)
      (map (without_field i) (steps s)) in
  let newActiveStepId := next_active (activeStepId s) updatedSteps in
  {| fields := updatedFields; steps := updatedSteps;
     activeStepId := newActiveStepId;
     selectedFieldId := if opt_is (selectedFieldId s) i then None else selectedFieldId s;
     formName := formName s; theme := theme s;
     past := past s; future := future s |}.

(** [{ ...field, order: index }], also for [field === undefined]. *)
Definition with_order (field : option AnyFormField) (index : Z) : AnyFormField :=
  match field with
  | Some (Field f) =>
      Field {| f_id := f_id f; f_type := f_type f; f_label := f_label f;
               f_placeholder := f_placeholder f; f_required := f_required f;
               f_helpText := f_helpText f; f_order := index;
               f_validation := f_validation f; f_options := f_options f;
               f_accept := f_accept f; f_multiple := f_multiple f |}
  | Some (OrderOnly _) => OrderOnly index
  | None => OrderOnly index
  end.

Definition reorderFields (startIndex endIndex : Z)
    (s0 : FormBuilderState) : FormBuilderState :=
  let s := _addToHistory s0 in
  let sortedFields := sort_by_order (fields s) in
  let '(rest, removed) := splice_remove1 sortedFields startIndex in
  let sortedFields' := splice_insert (map Some rest) endIndex removed in
  let reorderedFields := mapi with_order sortedFields' in
  {| fields := reorderedFields;
     steps := steps s; activeStepId := activeStepId s;
     selectedFieldId := selectedFieldId s; formName := formName s; theme := theme s;
     past := past s; future := future s |}.

Definition setSelectedField (i : option string) (s : FormBuilderState) : FormBuilderState :=
  {| fields := fields s; steps := steps s; activeStepId := activeStepId s;
     selectedFieldId := i; formName := formName s; theme := theme s;
     past := past s; future := future s |}.

Definition setFormName (name : string) (s0 : FormBuilderState) : FormBuilderState :=
  let s := _addToHistory s0 in
  {| fields := fields s; steps := steps s; activeStepId := activeStepId s;
     selectedFieldId := selectedFieldId s; formName := name; theme := theme s;
     past := past s; future := future s |}.

Definition toggleTheme (s : FormBuilderState) : FormBuilderState :=
  {| fields := fields s; steps := steps s; activeStepId := activeStepId s;
     selectedFieldId := selectedFieldId s; formName := formName s;
     theme := match theme s with light => dark | dark => light end;
     past := past s; future := future s |}.

(** *** Multi-step actions *)

Definition addStep (uuid : string) (s0 : FormBuilderState) : FormBuilderState :=
  let s := _addToHistory s0 in
  let newStep :=
    {| s_id := uuid;
       s_name := "Step " +:+ num_string (Z.of_nat (length (steps s)) + 1);
       fieldIds := [] |} in
  {| fields := fields s; steps := steps s ++ [newStep];
     activeStepId := Some (s_id newStep);
     selectedFieldId := selectedFieldId s; formName := formName s; theme := theme s;
     past := past s; future := future s |}.

(** [cond step ? { ...step, name } : step] *)
Definition renamed (cond : FormStep -> bool) (name : string) (st : FormStep) : FormStep :=
  if cond st then {| s_id := s_id st; s_name := name; fieldIds := fieldIds st |} else st.

Definition updateStepName (stepId newName : string)
    (s0 : FormBuilderState) : FormBuilderState :=
  let s := _addToHistory s0 in
  {| fields := fields s;
     steps := map (renamed (fun st => String.eqb (s_id st) stepId) newName) (steps s);
     activeStepId := activeStepId s;
     selectedFieldId := selectedFieldId s; formName := formName s; theme := theme s;
     past := past s; future := future s |}.

(** [targetStep.fieldIds = [...targetStep.fieldIds, ...fieldsToReassign]] *)
Definition append_fieldIds (more : list string) (st : FormStep) : FormStep :=
  {| s_id := s_id st; s_name := s_name st; fieldIds := fieldIds st ++ more |}.

Definition removeStep (stepId : string) (s0 : FormBuilderState) : FormBuilderState :=
  let s := _addToHistory s0 in
  match find (fun st => String.eqb (s_id st) stepId) (steps s) with
  | None => s
  | Some removedStep =>
      let updatedSteps := List.filter (fun st => negb (String.eqb (s_id st) stepId)) (steps s) in
      let fieldsToReassign := fieldIds removedStep in
      let '(newActiveStepId, updatedSteps') :=
        match updatedSteps with
        | first :: _ =>
            let newActiveStepId := s_id first in
            (Some newActiveStepId,
             if (0 <? length fieldsToReassign)%nat
             then update_first (fun st => String.eqb (s_id st) newActiveStepId)
                               (append_fieldIds fieldsToReassign) updatedSteps
             else updatedSteps)
        | [] => (None, updatedSteps)
        end in
      {| fields := fields s; steps := updatedSteps';
         activeStepId := newActiveStepId;
         selectedFieldId :=
           if includes fieldsToReassign (or_empty (selectedFieldId s))
           then None else selectedFieldId s;
         formName := formName s; theme := theme s;
         past := past s; future := future s |}
  end.

(** The body of the [map] callback of [moveFieldToStep]. *)
Definition move_in_step (fieldId targetStepId : string) (st : FormStep) : FormStep :=
  let newFieldIds := List.filter (fun i => negb (String.eqb i fieldId)) (fieldIds st) in
  let newFieldIds' :=
    if String.eqb (s_id st) targetStepId
    then if negb (includes newFieldIds fieldId) then newFieldIds ++ [fieldId] else newFieldIds
    else newFieldIds in
  {| s_id := s_id st; s_name := s_name st; fieldIds := newFieldIds' |}.

Definition moveFieldToStep (fieldId targetStepId : string)
    (s0 : FormBuilderState) : FormBuilderState :=
  let s := _addToHistory s0 in
  {| fields := fields s;
     steps := map (move_in_step fieldId targetStepId) (steps s);
     activeStepId := activeStepId s;
     selectedFieldId := selectedFieldId s; formName := formName s; theme := theme s;
     past := past s; future := future s |}.

Definition setActiveStep (stepId : string) (s : FormBuilderState) : FormBuilderState :=
  {| fields := fields s; steps := steps s; activeStepId := Some stepId;
     selectedFieldId := selectedFieldId s; formName := formName s; theme := theme s;
     past := past s; future := future s |}.

(** *** Undo, redo, clear *)

(** [past.slice(0, past.length - 1)] *)
Definition drop_last {A} (arr : list A) : list A := firstn (length arr - 1)%nat arr.

Definition undo (s : FormBuilderState) : FormBuilderState :=
  match last (past s) with
  | None => s                                  (* [past.length === 0] *)
  | Some previousState =>
      let newPast := drop_last (past s) in
      let currentState := snapshot s in
      {| fields := h_fields previousState; steps := h_steps previousState;
         activeStepId := h_activeStepId previousState;
         selectedFieldId := None;
         formName := h_formName previousState; theme := h_theme previousState;
         past := newPast; future := currentState :: future s |}
  end.

Definition redo (s : FormBuilderState) : FormBuilderState :=
  match future s with
  | [] => s
  | nextState :: newFuture =>
      let currentState := snapshot s in
      {| fields := h_fields nextState; steps := h_steps nextState;
         activeStepId := h_activeStepId nextState;
         selectedFieldId := None;
         formName := h_formName nextState; theme := h_theme nextState;
         past := past s ++ [currentState]; future := newFuture |}
  end.

Definition clearForm (s0 : FormBuilderState) : FormBuilderState :=
  let s := _addToHistory s0 in
  {| fields := []; steps := []; activeStepId := None; selectedFieldId := None;
     formName := formName initialFormBuilderState; theme := theme s;
     past := past s; future := [] |}.

(** ** Sequences of actions *)

(** One call of a store action, with its arguments (and, for the actions
    that call [uuidv4], the identifiers that call produced). *)
Inductive Action :=
| AddField (uuid1 uuid2 : string) (type : FieldType)
| UpdateField (i : string) (updates : FieldUpdates)
| RemoveField (i : string)
| ReorderFields (startIndex endIndex : Z)
| SetSelectedField (i : option string)
| SetFormName (name : string)
| ToggleTheme
| AddStep (uuid : string)
| UpdateStepName (stepId newName : string)
| RemoveStep (stepId : string)
| MoveFieldToStep (fieldId targetStepId : string)
| SetActiveStep (stepId : string)
| Undo
| Redo
| ClearForm.

Definition run (a : Action) (s : FormBuilderState) : FormBuilderState :=
  match a with
  | AddField uuid1 uuid2 type => addField uuid1 uuid2 type s
  | UpdateField i updates => updateField i updates s
  | RemoveField i => removeField i s
  | ReorderFields startIndex endIndex => reorderFields startIndex endIndex s
  | SetSelectedField i => setSelectedField i s
  | SetFormName name => setFormName name s
  | ToggleTheme => toggleTheme s
  | AddStep uuid => addStep uuid s
  | UpdateStepName stepId newName => updateStepName stepId newName s
  | RemoveStep stepId => removeStep stepId s
  | MoveFieldToStep fieldId targetStepId => moveFieldToStep fieldId targetStepId s
  | SetActiveStep stepId => setActiveStep stepId s
  | Undo => undo s
  | Redo => redo s
  | ClearForm => clearForm s
  end.

(** The actions that record a history entry before they change the
    document. *)
Definition mutating (a : Action) : bool :=
  match a with
  | AddField _ _ _ | UpdateField _ _ | RemoveField _ | ReorderFields _ _
  | SetFormName _ | AddStep _ | UpdateStepName _ _ | RemoveStep _
  | MoveFieldToStep _ _ | ClearForm => true
  | SetSelectedField _ | ToggleTheme | SetActiveStep _ | Undo | Redo => false
  end.

(** Running a list of actions from left to right. *)
Definition run_all (l : list Action) (s : FormBuilderState) : FormBuilderState :=
  fold_left (fun st a => run a st) l s.

Definition empty_updates : FieldUpdates :=
  mkUpdates None None None None None None None None None None None.

(** ** The preview's validation predicate *)

Section Validate.

(** [new RegExp(pattern)] either throws a [SyntaxError] ([None]) or
    yields a regular expression, of which only [regex.test] is used.
    The regular-expression engine belongs to the JavaScript runtime and
    is a parameter here. *)
Variable RegExp : string -> option (string -> bool).

(** Truthiness of an optional number: [undefined] and [0] are falsy. *)
Definition truthy_num (n : option Z) : bool :=
  match n with Some z => negb (z =? 0) | None => false end.

Definition num_or_zero (n : option Z) : Z :=
  match n with Some z => z | None => 0 end.

Definition str_len (s : string) : Z := Z.of_nat (String.length s).

Definition required_error (label : string) : string :=
  label +:+ " is required.".

Definition too_short_error (label : string) (n : Z) : string :=
  label +:+ " must be at least " +:+ num_string n +:+ " characters.".

Definition too_long_error (label : string) (n : Z) : string :=
  label +:+ " must be at most " +:+ num_string n +:+ " characters.".

Definition format_error (label : string) : string :=
  label +:+ " format is invalid.".

Definition pattern_error (label : string) : string :=
  "Invalid validation pattern for " +:+ label +:+ ".".

Definition is_text (t : FieldType) : bool :=
  match t with text => true | _ => false end.

Definition is_textarea (t : FieldType) : bool :=
  match t with textarea => true | _ => false end.

Definition is_checkbox (t : FieldType) : bool :=
  match t with checkbox => true | _ => false end.

Definition is_fileUpload (t : FieldType) : bool :=
  match t with fileUpload => true | _ => false end.

(** The value of [currentError] at the end of [validateField]: the
    assignments of the source in their order, each one overwriting the
    previous value.  [selectedFile] is the component state of the same
    name ([None] is [null]). *)
Definition currentError (field : FormField) (selectedFile : option string)
    (currentValue : string) : option string :=
  let e0 : option string := None in
  let e1 :=
    if f_required field then
      if is_fileUpload (f_type field) then
        match selectedFile with None => Some (required_error (f_label field)) | Some _ => e0 end
      else if String.eqb currentValue "" then Some (required_error (f_label field))
      else e0
    else e0 in
  if is_text (f_type field) || is_textarea (f_type field) then
    let v := f_validation field in
    let e2 :=
      if truthy_num (minLength v) && (str_len currentValue <? num_or_zero (minLength v))
      then Some (too_short_error (f_label field) (num_or_zero (minLength v))) else e1 in
    let e3 :=
      if truthy_num (maxLength v) && (num_or_zero (maxLength v) <? str_len currentValue)
      then Some (too_long_error (f_label field) (num_or_zero (maxLength v))) else e2 in
    if is_text (f_type field) && truthy (pattern v) then
      match RegExp (or_empty (pattern v)) with
      | Some regex_test =>
          if negb (String.eqb currentValue "") && negb (regex_test currentValue)
          then Some (format_error (f_label field)) else e3
      | None => Some (pattern_error (f_label field))
      end
    else e3
  else if is_checkbox (f_type field) then
    if f_required field && negb (String.eqb currentValue "true")
    then Some (required_error (f_label field)) else e1
  else e1.

(** [validateField] stores [currentError] with [setError] and returns
    [!currentError]: the pair is the stored error and the returned
    boolean. *)
Definition validateField (field : FormField) (selectedFile : option string)
    (currentValue : string) : option string * bool :=
  let e := currentError field selectedFile currentValue in
  (e, negb (truthy e)).

End Validate.

(** A small stand-in for the runtime's regular expressions, used to run
    [validateField] on examples: a pattern with an unbalanced opening
    parenthesis is rejected, the empty pattern matches everything, any
    other pattern matches the strings that contain it. *)
Fixpoint paren_depth (s : string) (d : nat) : option nat :=
  match s with
  | EmptyString => Some d
  | String "(" s' => paren_depth s' (S d)
  | String ")" s' => match d with O => None | S d' => paren_depth s' d' end
  | String _ s' => paren_depth s' d
  end.

Fixpoint is_prefix (p s : string) : bool :=
  match p, s with
  | EmptyString, _ => true
  | String a p', String b s' => Ascii.eqb a b && is_prefix p' s'
  | String _ _, EmptyString => false
  end.

Fixpoint contains (p s : string) : bool :=
  is_prefix p s || match s with EmptyString => false | String _ s' => contains p s' end.

Definition literalRegExp (p : string) : option (string -> bool) :=
  match paren_depth p 0 with
  | Some O => Some (contains p)
  | _ => None
  end.

(** ** Identifiers in use *)

(** The ids of the field objects in a [fields] array, in array order (an
    object without an [id] property contributes nothing). *)
Fixpoint field_ids (l : list AnyFormField) : list string :=
  match l with
  | [] => []
  | Field f :: l' => f_id f :: field_ids l'
  | OrderOnly _ :: l' => field_ids l'
  end.

(** All entries of all [fieldIds] lists, step after step. *)
Definition step_field_ids (l : list FormStep) : list string :=
  concat (map fieldIds l).

(** [ids.filter(i => i !== fieldId)] *)
Definition keep_other (fieldId : string) (l : list string) : list string :=
  List.filter (fun i => negb (String.eqb i fieldId)) l.

(** The ids found in an array that may hold [undefined]. *)
Definition slot_ids (l : list (option AnyFormField)) : list string :=
  field_ids (concat (map (fun o => match o with Some a => [a] | None => [] end) l)).

(** Number of occurrences of an id in a list of ids. *)
Definition occ (x : string) (l : list string) : nat :=
  count_occ String.string_dec l x.

(** ** Referential integrity *)

(** Every id in a step's [fieldIds] is the id of a field of the document,
    and no id is in the lists of two different steps (steps are told
    apart by their position in [steps]). *)
Definition referential_integrity (s : FormBuilderState) : Prop :=
  (forall st i, In st (steps s) -> In i (fieldIds st) ->
     exists f, In (Field f) (fields s) /\ f_id f = i)
  /\ (forall n m st1 st2 i,
        nth_error (steps s) n = Some st1 -> nth_error (steps s) m = Some st2 ->
        In i (fieldIds st1) -> In i (fieldIds st2) -> n = m).

(** Calls that respect what the store expects of its callers: [uuidv4]
    returns an identifier not in use, a partial update does not carry an
    [id], and a field that is moved exists. *)
Definition admissible (a : Action) (s : FormBuilderState) : Prop :=
  match a with
  | AddField uuid1 uuid2 _ => ~ In uuid1 (field_ids (fields s))
  | AddStep uuid => ~ In uuid (map s_id (steps s))
  | UpdateField _ u => u_id u = None
  | MoveFieldToStep fieldId _ => In fieldId (field_ids (fields s))
  | _ => True
  end.

Inductive reachable : FormBuilderState -> Prop :=
| reachable_init : reachable initialFormBuilderState
| reachable_run (a : Action) (s : FormBuilderState) :
    reachable s -> admissible a s -> reachable (run a s).

(** The invariant behind referential integrity, on a pair of [fields]
    and [steps]: an id occurs at most once in all [fieldIds] lists taken
    together, only if it is the id of a field, and step ids are pairwise
    different. *)
Definition doc_ok (fs : list AnyFormField) (ss : list FormStep) : Prop :=
  (forall x, (occ x (step_field_ids ss) <= 1)%nat)
  /\ (forall x, In x (step_field_ids ss) -> In x (field_ids fs))
  /\ List.NoDup (map s_id ss).

Definition entry_ok (e : HistoryState) : Prop := doc_ok (h_fields e) (h_steps e).

Definition state_ok (s : FormBuilderState) : Prop :=
  doc_ok (fields s) (steps s) /\ Forall entry_ok (past s) /\ Forall entry_ok (future s).

(** Whether a call modelled by an [option] threw. *)
Definition throws {A} (o : option A) : bool :=
  match o with None => true | Some _ => false end.

(** ** The store with object identity

    In the model above a document is a value, and [structuredClone] is
    the identity.  The module [Refs] repeats the store with the
    JavaScript objects of the document placed in a heap, so that two
    references to one object are told apart from two equal objects: the
    [fields] and [steps] arrays, every field object, every step object
    and every [fieldIds] array is a heap cell.  Each action allocates,
    shares and overwrites cells where the source creates, keeps and
    assigns to objects.  ([validation] and [options] inside a field are
    part of the field's value: no code of the repository writes into
    them, they are always replaced as a whole.)

    A read of a missing cell or of a cell of the wrong kind has no result
    ([None]); the actions are partial for that reason, and are shown
    below to succeed on every store that can be reached. *)

Module Refs.

Definition loc := positive.

Inductive cell :=
| CField (f : AnyFormField)                     (* a field object *)
| CStep (i name : string) (ids : loc)           (* a step object: id, name, fieldIds *)
| CIds (ids : list string)                      (* a [fieldIds] array *)
| CArr (elems : list loc).                      (* a [fields] or [steps] array *)

Abbreviation heap := (gmap loc cell).

(** A new object: a cell at an unused location. *)
Definition alloc (c : cell) (h : heap) : loc * heap :=
  let l := fresh (dom h) in (l, <[l := c]> h).

(** A history entry: references to its [fields] and [steps] arrays. *)
Record HistoryRef := mkHistoryRef {
  rh_fields : loc;
  rh_steps : loc;
  rh_activeStepId : option string;
  rh_formName : string;
  rh_theme : Theme
}.

Record Store := mkStore {
  heap_of : heap;
  r_fields : loc;
  r_steps : loc;
  r_activeStepId : option string;
  r_selectedFieldId : option string;
  r_formName : string;
  r_theme : Theme;
  r_past : list HistoryRef;
  r_future : list HistoryRef
}.

(** *** Reading objects *)

Definition read_arr (h : heap) (l : loc) : option (list loc) :=
  match h !! l with Some (CArr ls) => Some ls | _ => None end.

Definition read_ids (h : heap) (l : loc) : option (list string) :=
  match h !! l with Some (CIds ids) => Some ids | _ => None end.

Definition read_field (h : heap) (l : loc) : option (loc * AnyFormField) :=
  match h !! l with Some (CField f) => Some (l, f) | _ => None end.

(** A step object as found in the heap: where it is, where its
    [fieldIds] array is, and its value. *)
Record StepNode := mkNode {
  sn_loc : loc;
  sn_ids : loc;
  sn_val : FormStep
}.

Definition read_step (h : heap) (l : loc) : option StepNode :=
  match h !! l with
  | Some (CStep i name r) =>
      match read_ids h r with
      | Some ids => Some {| sn_loc := l; sn_ids := r;
                           sn_val := {| s_id := i; s_name := name; fieldIds := ids |} |}
      | None => None
      end
  | _ => None
  end.

Definition read_fields (h : heap) (l : loc) : option (list (loc * AnyFormField)) :=
  match read_arr h l with
  | Some ls => mapM (read_field h) ls
  | None => None
  end.

Definition read_steps (h : heap) (l : loc) : option (list StepNode) :=
  match read_arr h l with
  | Some ls => mapM (read_step h) ls
  | None => None
  end.

(** *** Creating objects *)

(** A new step object with a new [fieldIds] array. *)
Definition alloc_step (st : FormStep) (h : heap) : StepNode * heap :=
  let '(r, h1) := alloc (CIds (fieldIds st)) h in
  let '(l, h2) := alloc (CStep (s_id st) (s_name st) r) h1 in
  ({| sn_loc := l; sn_ids := r; sn_val := st |}, h2).

Fixpoint alloc_steps (sts : list FormStep) (h : heap) : list StepNode * heap :=
  match sts with
  | [] => ([], h)
  | st :: rest =>
      let '(n, h1) := alloc_step st h in
      let '(ns, h2) := alloc_steps rest h1 in
      (n :: ns, h2)
  end.

Fixpoint alloc_fields (fs : list AnyFormField) (h : heap) : list loc * heap :=
  match fs with
  | [] => ([], h)
  | f :: rest =>
      let '(l, h1) := alloc (CField f) h in
      let '(ls, h2) := alloc_fields rest h1 in
      (l :: ls, h2)
  end.

(** [structuredClone(fields)] and [structuredClone(steps)]: a new array
    of new objects with the values of the old ones. *)
Definition clone_fields (h : heap) (l : loc) : option (loc * heap) :=
  match read_fields h l with
  | Some nodes =>
      let '(ls, h1) := alloc_fields (map snd nodes) h in
      Some (alloc (CArr ls) h1)
  | None => None
  end.

Definition clone_steps (h : heap) (l : loc) : option (loc * heap) :=
  match read_steps h l with
  | Some nodes =>
      let '(ns, h1) := alloc_steps (map sn_val nodes) h in
      Some (alloc (CArr (map sn_loc ns)) h1)
  | None => None
  end.

(** [steps.map(step => cond step ? { ...step, name } : step)]: a new
    object for the steps that satisfy [cond] (it shares the [fieldIds]
    array of the old one), the same object for the others. *)
Fixpoint rename_steps (cond : FormStep -> bool) (name : string)
    (nodes : list StepNode) (h : heap) : list loc * heap :=
  match nodes with
  | [] => ([], h)
  | n :: rest =>
      if cond (sn_val n) then
        let '(l, h1) := alloc (CStep (s_id (sn_val n)) name (sn_ids n)) h in
        let '(ls, h2) := rename_steps cond name rest h1 in
        (l :: ls, h2)
      else
        let '(ls, h2) := rename_steps cond name rest h in
        (sn_loc n :: ls, h2)
  end.

(** [fields.map(field => cond field ? f field : field)] where [f]
    builds a new object. *)
Fixpoint replace_fields (cond : AnyFormField -> bool) (f : AnyFormField -> AnyFormField)
    (nodes : list (loc * AnyFormField)) (h : heap) : list loc * heap :=
  match nodes with
  | [] => ([], h)
  | (l, a) :: rest =>
      if cond a then
        let '(l', h1) := alloc (CField (f a)) h in
        let '(ls, h2) := replace_fields cond f rest h1 in
        (l' :: ls, h2)
      else
        let '(ls, h2) := replace_fields cond f rest h in
        (l :: ls, h2)
  end.

(** *** The actions *)

Definition with_doc (s : Store) (h : heap) (fl sl : loc) (active selected : option string)
  : Store :=
  {| heap_of := h; r_fields := fl; r_steps := sl;
     r_activeStepId := active; r_selectedFieldId := selected;
     r_formName := r_formName s; r_theme := r_theme s;
     r_past := r_past s; r_future := r_future s |}.

(** The entry both [_addToHistory] and [undo]/[redo] build from the
    current state, with clones of the two arrays. *)
Definition snapshot (s : Store) : option (HistoryRef * heap) :=
  match clone_fields (heap_of s) (r_fields s) with
  | Some (fl, h1) =>
      match clone_steps h1 (r_steps s) with
      | Some (sl, h2) =>
          Some ({| rh_fields := fl; rh_steps := sl;
                   rh_activeStepId := r_activeStepId s;
                   rh_formName := r_formName s; rh_theme := r_theme s |}, h2)
      | None => None
      end
  | None => None
  end.

Definition _addToHistory (s : Store) : option Store :=
  match snapshot s with
  | Some (newHistoryState, h) =>
      Some {| heap_of := h; r_fields := r_fields s; r_steps := r_steps s;
              r_activeStepId := r_activeStepId s;
              r_selectedFieldId := r_selectedFieldId s;
              r_formName := r_formName s; r_theme := r_theme s;
              r_past := slice_last9 (r_past s) ++ [newHistoryState];
              r_future := [] |}
  | None => None
  end.

(** [targetStep.fieldIds.push(i)]: the array is changed in place. *)
Definition push_id (r : loc) (i : string) (h : heap) : option heap :=
  match read_ids h r with
  | Some ids => Some (<[r := CIds (ids ++ [i])]> h)
  | None => None
  end.

Definition addField (uuid1 uuid2 : string) (type : FieldType) (s0 : Store) : option Store :=
  s ← _addToHistory s0;
  fnodes ← read_fields (heap_of s) (r_fields s);
  snodes ← read_steps (heap_of s) (r_steps s);
  let nf := newField uuid1 type (Z.of_nat (length fnodes)) in
  let '(nl, h1) := alloc (CField (Field nf)) (heap_of s) in
  let '(fl, h2) := alloc (CArr (map fst fnodes ++ [nl])) h1 in
  match snodes with
  | [] =>
      let '(n, h3) := alloc_step {| s_id := uuid2; s_name := "Step 1";
                                    fieldIds := [f_id nf] |} h2 in
      let '(sl, h4) := alloc (CArr [sn_loc n]) h3 in
      Some (with_doc s h4 fl sl (Some uuid2) (r_selectedFieldId s))
  | _ :: _ =>
      (* [currentSteps = structuredClone(state.steps)] *)
      let '(cnodes, h3) := alloc_steps (map sn_val snodes) h2 in
      let '(sl, h4) := alloc (CArr (map sn_loc cnodes)) h3 in
      let is_active := fun n => opt_is (r_activeStepId s) (s_id (sn_val n)) in
      let targetStep :=
        match find is_active cnodes with
        | Some t => Some t
        | None => head cnodes
        end in
      h5 ← match targetStep with
           | Some t => push_id (sn_ids t) (f_id nf) h4
           | None => Some h4
           end;
      Some (with_doc s h5 fl sl (r_activeStepId s) (r_selectedFieldId s))
  end.

Definition updateField (i : string) (updates : FieldUpdates) (s0 : Store) : option Store :=
  s ← _addToHistory s0;
  fnodes ← read_fields (heap_of s) (r_fields s);
  let '(ls, h1) :=
    replace_fields (fun a => opt_is (any_id a) i) (update_one i updates)
      fnodes (heap_of s) in
  let '(fl, h2) := alloc (CArr ls) h1 in
  Some (with_doc s h2 fl (r_steps s) (r_activeStepId s) (r_selectedFieldId s)).

Definition removeField (i : string) (s0 : Store) : option Store :=
  s ← _addToHistory s0;
  fnodes ← read_fields (heap_of s) (r_fields s);
  snodes ← read_steps (heap_of s) (r_steps s);
  (* [state.fields.filter(...)]: a new array of the same objects *)
  let updatedFields := List.filter (fun n => negb (opt_is (any_id (snd n)) i)) fnodes in
  let '(fl, h1) := alloc (CArr (map fst updatedFields)) (heap_of s) in
  (* [state.steps.map(step => ({ ...step, fieldIds: ... }))]: new objects *)
  let '(mapped, h2) := alloc_steps (map (without_field i) (map sn_val snodes)) h1 in
  let updatedSteps :=
    List.filter (fun n => (0 <? length (fieldIds (sn_val n)))%nat) mapped in
  let '(sl, h3) := alloc (CArr (map sn_loc updatedSteps)) h2 in
  let newActiveStepId := next_active (r_activeStepId s) (map sn_val updatedSteps) in
  Some (with_doc s h3 fl sl newActiveStepId
          (if opt_is (r_selectedFieldId s) i then None else r_selectedFieldId s)).

(** [reorderFields]: the sorted copy of the array is local to the
    action; what it leaves in the store is a new array of new objects
    [{ ...field, order: index }]. *)
Definition reorderFields (startIndex endIndex : Z) (s0 : Store) : option Store :=
  s ← _addToHistory s0;
  fnodes ← read_fields (heap_of s) (r_fields s);
  let sortedFields := sort_by_order (map snd fnodes) in
  let '(rest, removed) := splice_remove1 sortedFields startIndex in
  let sortedFields' := splice_insert (map Some rest) endIndex removed in
  let '(ls, h1) := alloc_fields (mapi with_order sortedFields') (heap_of s) in
  let '(fl, h2) := alloc (CArr ls) h1 in
  Some (with_doc s h2 fl (r_steps s) (r_activeStepId s) (r_selectedFieldId s)).

Definition setSelectedField (i : option string) (s : Store) : option Store :=
  Some (with_doc s (heap_of s) (r_fields s) (r_steps s) (r_activeStepId s) i).

Definition with_formName (name : string) (s : Store) : Store :=
  {| heap_of := heap_of s; r_fields := r_fields s; r_steps := r_steps s;
     r_activeStepId := r_activeStepId s; r_selectedFieldId := r_selectedFieldId s;
     r_formName := name; r_theme := r_theme s;
     r_past := r_past s; r_future := r_future s |}.

Definition setFormName (name : string) (s0 : Store) : option Store :=
  s ← _addToHistory s0;
  Some (with_formName name s).

Definition toggleTheme (s : Store) : option Store :=
  Some {| heap_of := heap_of s; r_fields := r_fields s; r_steps := r_steps s;
          r_activeStepId := r_activeStepId s; r_selectedFieldId := r_selectedFieldId s;
          r_formName := r_formName s;
          r_theme := match r_theme s with light => dark | dark => light end;
          r_past := r_past s; r_future := r_future s |}.

Definition addStep (uuid : string) (s0 : Store) : option Store :=
  s ← _addToHistory s0;
  snodes ← read_steps (heap_of s) (r_steps s);
  let newStep :=
    {| s_id := uuid;
       s_name := "Step " +:+ num_string (Z.of_nat (length snodes) + 1);
       fieldIds := [] |} in
  let '(n, h1) := alloc_step newStep (heap_of s) in
  let '(sl, h2) := alloc (CArr (map sn_loc snodes ++ [sn_loc n])) h1 in
  Some (with_doc s h2 (r_fields s) sl (Some uuid) (r_selectedFieldId s)).

Definition updateStepName (stepId newName : string) (s0 : Store) : option Store :=
  s ← _addToHistory s0;
  snodes ← read_steps (heap_of s) (r_steps s);
  let '(ls, h1) :=
    rename_steps (fun st => String.eqb (s_id st) stepId) newName snodes (heap_of s) in
  let '(sl, h2) := alloc (CArr ls) h1 in
  Some (with_doc s h2 (r_fields s) sl (r_activeStepId s) (r_selectedFieldId s)).

(** [targetStep.fieldIds = [...targetStep.fieldIds, ...more]]: a new
    array is stored into the step object, which is changed in place. *)
Definition assign_fieldIds (t : StepNode) (more : list string) (h : heap) : heap :=
  let '(r, h1) := alloc (CIds (fieldIds (sn_val t) ++ more)) h in
  <[sn_loc t := CStep (s_id (sn_val t)) (s_name (sn_val t)) r]> h1.

Definition removeStep (stepId : string) (s0 : Store) : option Store :=
  s ← _addToHistory s0;
  snodes ← read_steps (heap_of s) (r_steps s);
  match find (fun n => String.eqb (s_id (sn_val n)) stepId) snodes with
  | None => Some s
  | Some removedStep =>
      (* [state.steps.filter(...)]: a new array of the same step objects *)
      let updatedSteps :=
        List.filter (fun n => negb (String.eqb (s_id (sn_val n)) stepId)) snodes in
      let '(sl, h1) := alloc (CArr (map sn_loc updatedSteps)) (heap_of s) in
      let fieldsToReassign := fieldIds (sn_val removedStep) in
      let '(newActiveStepId, h2) :=
        match updatedSteps with
        | first :: _ =>
            let newActiveStepId := s_id (sn_val first) in
            (Some newActiveStepId,
             if (0 <? length fieldsToReassign)%nat then
               match find (fun n => String.eqb (s_id (sn_val n)) newActiveStepId)
                       updatedSteps with
               | Some targetStep => assign_fieldIds targetStep fieldsToReassign h1
               | None => h1
               end
             else h1)
        | [] => (None, h1)
        end in
      Some (with_doc s h2 (r_fields s) sl newActiveStepId
              (if includes fieldsToReassign (or_empty (r_selectedFieldId s))
               then None else r_selectedFieldId s))
  end.

Definition moveFieldToStep (fieldId targetStepId : string) (s0 : Store) : option Store :=
  s ← _addToHistory s0;
  snodes ← read_steps (heap_of s) (r_steps s);
  let '(ns, h1) :=
    alloc_steps (map (move_in_step fieldId targetStepId) (map sn_val snodes)) (heap_of s) in
  let '(sl, h2) := alloc (CArr (map sn_loc ns)) h1 in
  Some (with_doc s h2 (r_fields s) sl (r_activeStepId s) (r_selectedFieldId s)).

Definition setActiveStep (stepId : string) (s : Store) : option Store :=
  Some (with_doc s (heap_of s) (r_fields s) (r_steps s) (Some stepId) (r_selectedFieldId s)).

(** [set({ ...previousState, past, future, selectedFieldId: null })]:
    the arrays of the entry become the arrays of the document. *)
Definition restore (e : HistoryRef) (h : heap) (newPast newFuture : list HistoryRef) : Store :=
  {| heap_of := h; r_fields := rh_fields e; r_steps := rh_steps e;
     r_activeStepId := rh_activeStepId e; r_selectedFieldId := None;
     r_formName := rh_formName e; r_theme := rh_theme e;
     r_past := newPast; r_future := newFuture |}.

Definition undo (s : Store) : option Store :=
  match last (r_past s) with
  | None => Some s
  | Some previousState =>
      '(currentState, h) ← snapshot s;
      Some (restore previousState h (drop_last (r_past s)) (currentState :: r_future s))
  end.

Definition redo (s : Store) : option Store :=
  match r_future s with
  | [] => Some s
  | nextState :: newFuture =>
      '(currentState, h) ← snapshot s;
      Some (restore nextState h (r_past s ++ [currentState]) newFuture)
  end.

Definition clearForm (s0 : Store) : option Store :=
  s ← _addToHistory s0;
  let '(fl, h1) := alloc (CArr []) (heap_of s) in
  let '(sl, h2) := alloc (CArr []) h1 in
  Some {| heap_of := h2; r_fields := fl; r_steps := sl;
          r_activeStepId := None; r_selectedFieldId := None;
          r_formName := formName initialFormBuilderState; r_theme := r_theme s;
          r_past := r_past s; r_future := [] |}.

(** The initial store: two empty arrays. *)
Definition initialStore : Store :=
  let '(fl, h1) := alloc (CArr []) ∅ in
  let '(sl, h2) := alloc (CArr []) h1 in
  {| heap_of := h2; r_fields := fl; r_steps := sl;
     r_activeStepId := None; r_selectedFieldId := None;
     r_formName := "My New Form"; r_theme := light;
     r_past := []; r_future := [] |}.

Definition run (a : Action) (s : Store) : option Store :=
  match a with
  | AddField uuid1 uuid2 type => addField uuid1 uuid2 type s
  | UpdateField i updates => updateField i updates s
  | RemoveField i => removeField i s
  | ReorderFields startIndex endIndex => reorderFields startIndex endIndex s
  | SetSelectedField i => setSelectedField i s
  | SetFormName name => setFormName name s
  | ToggleTheme => toggleTheme s
  | AddStep uuid => addStep uuid s
  | UpdateStepName stepId newName => updateStepName stepId newName s
  | RemoveStep stepId => removeStep stepId s
  | MoveFieldToStep fieldId targetStepId => moveFieldToStep fieldId targetStepId s
  | SetActiveStep stepId => setActiveStep stepId s
  | Undo => undo s
  | Redo => redo s
  | ClearForm => clearForm s
  end.

(** Running a list of actions from left to right. *)
Definition run_all (l : list Action) (s : Store) : option Store :=
  fold_left (fun st a => st ≫= run a) l (Some s).

(** The stores that sequences of actions reach. *)
Inductive reachable : Store -> Prop :=
| reachable_init : reachable initialStore
| reachable_run (a : Action) (s s' : Store) :
    reachable s -> run a s = Some s' -> reachable s'.

(** *** What a store holds *)

(** The document value found under two array references. *)
Definition doc_at (h : heap) (fl sl : loc)
  : option (list AnyFormField * list FormStep) :=
  match read_fields h fl, read_steps h sl with
  | Some fnodes, Some snodes => Some (map snd fnodes, map sn_val snodes)
  | _, _ => None
  end.

(** The value a history entry records. *)
Definition entry_at (h : heap) (e : HistoryRef) : option HistoryState :=
  match doc_at h (rh_fields e) (rh_steps e) with
  | Some (fs, ss) =>
      Some {| h_fields := fs; h_steps := ss; h_activeStepId := rh_activeStepId e;
              h_formName := rh_formName e; h_theme := rh_theme e |}
  | None => None
  end.

(** The state of the value model that a store represents. *)
Definition abs (s : Store) : option FormBuilderState :=
  match doc_at (heap_of s) (r_fields s) (r_steps s),
        mapM (entry_at (heap_of s)) (r_past s),
        mapM (entry_at (heap_of s)) (r_future s) with
  | Some (fs, ss), Some p, Some f =>
      Some {| fields := fs; steps := ss; activeStepId := r_activeStepId s;
              selectedFieldId := r_selectedFieldId s; formName := r_formName s;
              theme := r_theme s; past := p; future := f |}
  | _, _, _ => None
  end.

(** The cells that make up the document under two array references:
    the arrays, the objects in them and the [fieldIds] arrays. *)
Definition node_locs (n : StepNode) : list loc := [sn_loc n; sn_ids n].

Definition footprint (h : heap) (fl sl : loc) : gset loc :=
  {[fl]} ∪ {[sl]}
  ∪ list_to_set (map fst (default [] (read_fields h fl)))
  ∪ list_to_set (flat_map node_locs (default [] (read_steps h sl))).

Definition entry_footprint (h : heap) (e : HistoryRef) : gset loc :=
  footprint h (rh_fields e) (rh_steps e).

(** Pairwise disjoint sets of locations. *)
Fixpoint separate (l : list (gset loc)) : Prop :=
  match l with
  | [] => True
  | X :: l' => X ## ⋃ l' /\ separate l'
  end.

(** No cell is shared: the document and the history entries occupy
    pairwise disjoint sets of cells. *)
Definition isolated (s : Store) : Prop :=
  separate (footprint (heap_of s) (r_fields s) (r_steps s)
            :: map (entry_footprint (heap_of s)) (r_past s ++ r_future s)).

(** A readable document whose step objects are pairwise different
    objects. *)
Definition wf_doc (h : heap) (fl sl : loc) : Prop :=
  exists fnodes snodes,
    read_fields h fl = Some fnodes /\ read_steps h sl = Some snodes
    /\ NoDup (map sn_loc snodes).

(** A well-formed store: the document and every history entry can be
    read, and nothing is shared between them. *)
Definition well_formed (s : Store) : Prop :=
  wf_doc (heap_of s) (r_fields s) (r_steps s)
  /\ Forall (fun e => wf_doc (heap_of s) (rh_fields e) (rh_steps e))
       (r_past s ++ r_future s)
  /\ isolated s.

(** The only cells in which [s'] differs from [s] are cells of the
    document of [s] or cells that did not exist in [s]. *)
Definition changes_within_document (s s' : Store) : Prop :=
  forall l, is_Some (heap_of s !! l) ->
            l ∉ footprint (heap_of s) (r_fields s) (r_steps s) ->
            heap_of s' !! l = heap_of s !! l.

End Refs.

(** Two heaps that hold the same cells at the locations of [X]. *)
Definition agree (X : gset Refs.loc) (h h' : Refs.heap) : Prop :=
  forall l, l ∈ X -> h' !! l = h !! l.

(** The cells a list of field nodes and a list of step nodes occupy. *)
Definition field_locs (fn : list (Refs.loc * AnyFormField)) : gset Refs.loc :=
  list_to_set (map fst fn).

Definition step_locs (sn : list Refs.StepNode) : gset Refs.loc :=
  list_to_set (flat_map Refs.node_locs sn).

(** A store represents a state of the value model when its document and
    its history entries, read from the heap, are those of the state. *)
Definition represents (s : Refs.Store) (p : FormBuilderState) : Prop :=
  Refs.doc_at (Refs.heap_of s) (Refs.r_fields s) (Refs.r_steps s)
    = Some (fields p, steps p)
  /\ Refs.r_activeStepId s = activeStepId p
  /\ Refs.r_selectedFieldId s = selectedFieldId p
  /\ Refs.r_formName s = formName p
  /\ Refs.r_theme s = theme p
  /\ Forall2 (fun e v => Refs.entry_at (Refs.heap_of s) e = Some v) (Refs.r_past s) (past p)
  /\ Forall2 (fun e v => Refs.entry_at (Refs.heap_of s) e = Some v)
       (Refs.r_future s) (future p).

(** The footprints of the document and of the history entries. *)
Definition regions (s : Refs.Store) : list (gset Refs.loc) :=
  Refs.footprint (Refs.heap_of s) (Refs.r_fields s) (Refs.r_steps s)
  :: map (Refs.entry_footprint (Refs.heap_of s)) (Refs.r_past s ++ Refs.r_future s).

(** What is shown of every action: on a well-formed store that
    represents [p] the action succeeds, leaves a well-formed store that
    represents the result of the action on [p], and changes no cell
    outside the document. *)
Definition simulates (f : Refs.Store -> option Refs.Store)
    (g : FormBuilderState -> FormBuilderState) : Prop :=
  forall s p, Refs.well_formed s -> represents s p ->
    exists s', f s = Some s' /\ Refs.well_formed s' /\ represents s' (g p)
               /\ Refs.changes_within_document s s'.

(** A store as it would be had the history entry been recorded with a
    shallow copy [[...steps]] of the steps array: the entry's array (cell 7)
    and the document's array (cell 2) hold the same two step objects. *)
Definition shallow_copy_store : Refs.Store :=
  let h : Refs.heap :=
    <[1%positive := Refs.CArr []]>
    (<[2%positive := Refs.CArr [3%positive; 5%positive]]>
    (<[3%positive := Refs.CStep "a" "A" 4%positive]>
    (<[4%positive := Refs.CIds []]>
    (<[5%positive := Refs.CStep "b" "B" 6%positive]>
    (<[6%positive := Refs.CIds ["f"]]>
    (<[7%positive := Refs.CArr [3%positive; 5%positive]]>
    (<[8%positive := Refs.CArr []]> ∅))))))) in
  {| Refs.heap_of := h; Refs.r_fields := 1%positive; Refs.r_steps := 2%positive;
     Refs.r_activeStepId := Some "a"; Refs.r_selectedFieldId := None;
     Refs.r_formName := "My New Form"; Refs.r_theme := light;
     Refs.r_past := [ {| Refs.rh_fields := 8%positive; Refs.rh_steps := 7%positive;
                         Refs.rh_activeStepId := Some "a";
                         Refs.rh_formName := "My New Form"; Refs.rh_theme := light |} ];
     Refs.r_future := [] |}.

(** The steps that the oldest history entry of a store records. *)
Definition first_entry_steps (s : Refs.Store) : option (list FormStep) :=
  e ← head (Refs.r_past s); v ← Refs.entry_at (Refs.heap_of s) e; Some (h_steps v).

(** ** Actions that only change the view *)

(** The actions that neither record nor restore a history entry. *)
Definition view_only (a : Action) : bool :=
  match a with
  | SetSelectedField _ | ToggleTheme | SetActiveStep _ => true
  | _ => false
  end.

(** The list [l] with its element at position [i] taken out and put
    back at position [j] (positions count from 0; [j] is a position in
    the list without the element). *)
Definition move_item {A} (i j : nat) (l : list A) : list A :=
  let rest := firstn i l ++ skipn (S i) l in
  firstn j rest ++ firstn 1 (skipn i l) ++ skipn j rest.

(** ** Shared forms and submissions in [localStorage]

    [app/utils/formUtils.ts] and the two routes keep shared forms under
    the key [formBuilder_savedForms] and submissions under
    [formBuilder_submissions], each as the JSON text of one object with
    a property per form id.  An item is modelled by what [getItem] and
    [JSON.parse] make of it.  The data the application writes is made of
    strings, integers, booleans, arrays and plain objects, for which
    [JSON.parse(JSON.stringify(x))] is a copy of [x]; what else a stored
    text can hold is kept as far as the code tells it apart.  [setItem]
    and [JSON.stringify] are taken to succeed (no quota, no limit on the
    length of a text).  The code is module code and therefore strict: an
    assignment to a property of a primitive value throws.  [Date.now()],
    [Math.random()] and [new Date().toISOString()] are inputs of the
    functions that call them. *)

(** The form data the builder shares and the filler shows. *)
Record FormData := mkFormData {
  fd_formName : string;
  fd_fields : list AnyFormField;
  fd_steps : list FormStep
}.

(** [{ ...formData, id: formId, createdAt, updatedAt }] *)
Record SavedForm := mkSavedForm {
  sf_formName : string;
  sf_fields : list AnyFormField;
  sf_steps : list FormStep;
  sf_id : string;
  sf_createdAt : string;
  sf_updatedAt : string
}.

Record Submission := mkSubmission {
  sub_id : string;
  sub_submittedAt : string;
  sub_data : gmap string string;
  sub_formName : string
}.

(** The value of a property, or of an array element, inside a stored
    item.  [Written a] is a value of the shape the application writes
    there: a saved form under [formBuilder_savedForms]; under
    [formBuilder_submissions] an array, whose elements are in turn
    submissions or other values.  [Other truthy] is any other JSON
    value; the code only looks at whether it is truthy ([null], [false],
    [0] and the empty string are not).  Not represented are, under
    [formBuilder_savedForms], an object that has a property [formName],
    [fields] or [steps] without being a saved form, and a number beyond
    the range of the numbers (it is parsed as [Infinity] and written
    back as [null]). *)
Inductive Entry (A : Type) :=
| Written (a : A)
| Other (truthy : bool).
Arguments Written {A} a.
Arguments Other {A} truthy.

(** What [JSON.parse] returns: a plain object with its own properties,
    an array with its elements, a string, a number, a boolean or
    [null]. *)
Inductive Json (A : Type) :=
| JObject (own : gmap string (Entry A))
| JArray (elems : list (Entry A))
| JString (s : string)
| JNumber
| JBoolean
| JNull.
Arguments JObject {A} own.
Arguments JArray {A} elems.
Arguments JString {A} s.
Arguments JNumber {A}.
Arguments JBoolean {A}.
Arguments JNull {A}.

(** An item of [localStorage]: [Absent] when [getItem] returns [null] or
    the empty string (the two falsy results), [Unparsable] when
    [JSON.parse] throws on the text, and the parsed value otherwise. *)
Inductive Item (A : Type) :=
| Absent
| Unparsable
| Parsed (v : Json A).
Arguments Absent {A}.
Arguments Unparsable {A}.
Arguments Parsed {A} v.

Record LocalStorage := mkLocalStorage {
  savedForms : Item SavedForm;
  submissions : Item (list (Entry Submission))
}.

Definition is_array {A} (item : Item A) : bool :=
  match item with
  | Parsed (JArray _) => true
  | _ => false
  end.

(** *** Properties of parsed values *)

(** The properties of [Object.prototype], which every object inherits
    (ECMAScript 2015 and later, with its annex for web browsers).  All of
    them are functions, except [__proto__], an accessor that yields the
    prototype object and, on assignment, replaces it. *)
Definition Object_prototype : list string :=
  [ "constructor"; "__defineGetter__"; "__defineSetter__"; "hasOwnProperty";
    "__lookupGetter__"; "__lookupSetter__"; "isPrototypeOf"; "propertyIsEnumerable";
    "toString"; "valueOf"; "__proto__"; "toLocaleString" ].

Definition digit_value (c : ascii) : option N :=
  let n := N_of_ascii c in
  if ((48 <=? n) && (n <=? 57))%N then Some (n - 48)%N else None.

Fixpoint digits_value (s : string) (acc : N) : option N :=
  match s with
  | EmptyString => Some acc
  | String c s' =>
      match digit_value c with
      | Some d => digits_value s' (10 * acc + d)%N
      | None => None
      end
  end.

(** The array index a property name stands for, if any: the name is the
    decimal text, without sign or leading zero, of an integer from 0 to
    2^32 - 2. *)
Definition array_index (k : string) : option nat :=
  match k with
  | EmptyString => None
  | String c rest =>
      match digits_value k 0 with
      | Some n =>
          if (negb (Ascii.eqb c "0"%char) || String.eqb rest "") && (n <? 4294967295)%N
          then Some (N.to_nat n) else None
      | None => None
      end
  end.

(** What reading a property gives: [undefined], a value of the stored
    item, or a function or prototype object of the runtime (truthy, and
    without a property [formName], [fields], [steps]). *)
Inductive Property (A : Type) :=
| Undefined
| Value (e : Entry A)
| Builtin.
Arguments Undefined {A}.
Arguments Value {A} e.
Arguments Builtin {A}.

(** The values other than plain objects whose properties can be read. *)
Inductive Kind := KArray | KString | KNumber | KBoolean.



Section Reading.

(** The property names that [Array.prototype], [String.prototype],
    [Number.prototype] and [Boolean.prototype] define (none of them an
    array index).  They differ between versions of the runtime and are
    a parameter; each of these objects inherits from
    [Object.prototype]. *)
Variable inherits : Kind -> string -> bool.

Definition inherited {A} (kind : option Kind) (k : string) : Property A :=
  if match kind with Some c => inherits c k | None => false end
     || includes Object_prototype k
  then Builtin else Undefined.

(** [v[k]]; [None] when it throws a [TypeError] ([v] is [null]).  An
    array has its elements and [length], a string its characters and
    [length]. *)
Definition property {A} (v : Json A) (k : string) : option (Property A) :=
  match v with
  | JNull => None
  | JObject own =>
      Some match own !! k with
           | Some e => Value e
           | None => inherited None k
           end
  | JArray elems =>
      Some match array_index k with
           | Some i => match elems !! i with Some e => Value e | None => Undefined end
           | None =>
               if String.eqb k "length" then Value (Other (negb (length elems =? 0)%nat))
               else inherited (Some KArray) k
           end
  | JString s =>
      Some match array_index k with
           | Some i => if (i <? String.length s)%nat then Value (Other true) else Undefined
           | None =>
               if String.eqb k "length" then Value (Other (negb (String.eqb s "")))
               else inherited (Some KString) k
           end
  | JNumber => Some (inherited (Some KNumber) k)
  | JBoolean => Some (inherited (Some KBoolean) k)
  end.


End Reading.

(** [object[k] = e] on a plain object, for an object or array [e]: the
    property is created or overwritten, except that an assignment to
    [__proto__] that is not an own property goes to the accessor of
    [Object.prototype] and creates no property. *)
Definition object_set {A} (k : string) (e : Entry A) (own : gmap string (Entry A))
  : gmap string (Entry A) :=
  match own !! k with
  | Some _ => <[k := e]> own
  | None => if String.eqb k "__proto__" then own else <[k := e]> own
  end.

(** [array[i] = e] for an array index [i]: the elements between the old
    end and [i] are holes, which [JSON.stringify] writes as [null]. *)
Definition array_set {A} (i : nat) (e : Entry A) (elems : list (Entry A))
  : list (Entry A) :=
  if (i <? length elems)%nat then <[i := e]> elems
  else elems ++ replicate (i - length elems) (Other false) ++ [e].

(** [generateShareLink]; [window] is [window.location.origin], [None]
    when there is no [window] (server-side rendering). *)
Definition generateShareLink (window : option string) (formId : string) : string :=
  match window with
  | Some origin => origin +:+ "/fill-form/" +:+ formId
  | None => "http://localhost:3000/fill-form/" +:+ formId
  end.

(** [generateFormId]; [now] is the text of [Date.now()] and [random]
    that of [Math.random().toString(36).substr(2, 9)]. *)
Definition generateFormId (now random : string) : string :=
  "form_" +:+ now +:+ "_" +:+ random.

(** [saveFormToLocalStorage]: [None] when it throws
    [Error('Failed to save form')], which it does when [JSON.parse]
    throws, when the parsed value is [null] or primitive (the assignment
    throws a [TypeError]; the one to [__proto__] of a primitive value
    does not, and does nothing) and when it is an array and [formId] is
    [length] (a [RangeError]).  On an array, a [formId] that is not an
    index names a property that [JSON.stringify] leaves out. *)
Definition saveFormToLocalStorage (window : option string) (formId createdAt updatedAt : string)
    (formData : FormData) (ls : LocalStorage) : option LocalStorage :=
  match window with
  | None => Some ls
  | Some _ =>
      let saved :=
        {| sf_formName := fd_formName formData; sf_fields := fd_fields formData;
           sf_steps := fd_steps formData; sf_id := formId;
           sf_createdAt := createdAt; sf_updatedAt := updatedAt |} in
      let setItem forms :=
        Some {| savedForms := Parsed forms; submissions := submissions ls |} in
      match savedForms ls with
      | Unparsable => None
      | Absent => setItem (JObject (object_set formId (Written saved) ∅))
      | Parsed (JObject forms) => setItem (JObject (object_set formId (Written saved) forms))
      | Parsed (JArray forms) =>
          match array_index formId with
          | Some i => setItem (JArray (array_set i (Written saved) forms))
          | None => if String.eqb formId "length" then None else setItem (JArray forms)
          end
      | Parsed JNull => None
      | Parsed primitive =>
          if String.eqb formId "__proto__" then setItem primitive else None
      end
  end.

(** ** The builder page  ([app/routes/_index.tsx]) *)

Module Builder.

(** [activeStep.fieldIds.includes(field.id)]: an object without [id] is
    in no step. *)
Definition in_step (activeStep : FormStep) (field : AnyFormField) : bool :=
  match any_id field with
  | Some i => includes (fieldIds activeStep) i
  | None => false
  end.

(** The fields the page shows, in the order it shows them. *)
Definition fieldsInActiveStep (s : FormBuilderState) : list AnyFormField :=
  match find (fun step => opt_is (activeStepId s) (s_id step)) (steps s) with
  | Some activeStep => sort_by_order (List.filter (in_step activeStep) (fields s))
  | None => []
  end.

(** The part of [@hello-pangea/dnd]'s [DropResult] that [onDragEnd]
    reads. *)
Record DraggableLocation := mkLocation {
  droppableId : string;
  index : Z
}.

Record DropResult := mkDropResult {
  source : DraggableLocation;
  destination : option DraggableLocation
}.

Definition onDragEnd (result : DropResult) (s : FormBuilderState) : FormBuilderState :=
  match destination result with
  | None => s
  | Some dest =>
      if String.eqb (droppableId (source result)) "field-toolbox"
         && String.eqb (droppableId dest) "form-preview"
      then s
      else if String.eqb (droppableId (source result)) "form-preview"
              && String.eqb (droppableId dest) "form-preview"
      then reorderFields (index (source result)) (index dest) s
      else s
  end.

(** How [handleShareForm] ends, up to [setShareLink(link)] (what follows
    only copies the link to the clipboard or opens the dialog that shows
    it). *)
Inductive ShareOutcome :=
| MissingName                (* alert: provide a form name *)
| MissingFields              (* alert: add at least one field *)
| SaveFailed                 (* the [catch] branch *)
| Shared (link : string).

Section Share.

(** [String.prototype.trim] *)
Variable trim : string -> string.

(** [handleShareForm]; [now] and [random] are what [generateFormId]
    draws. *)
Definition handleShareForm (window : option string) (now random createdAt updatedAt : string)
    (s : FormBuilderState) (ls : LocalStorage) : ShareOutcome * LocalStorage :=
  if String.eqb (trim (formName s)) "" then (MissingName, ls)
  else if (length (fields s) =? 0)%nat then (MissingFields, ls)
  else
    let formId := generateFormId now random in
    let formData :=
      {| fd_formName := trim (formName s); fd_fields := fields s;
         fd_steps := match steps s with [] => [] | _ :: _ => steps s end |} in
    match saveFormToLocalStorage window formId createdAt updatedAt formData ls with
    | None => (SaveFailed, ls)
    | Some ls' => (Shared (generateShareLink window formId), ls')
    end.

End Share.

End Builder.

(** ** The form filler  ([app/routes/fill-form.$formId.tsx]) *)

Module Filler.

Section Loading.

Variable inherits : Kind -> string -> bool.

(** What the effect that runs after the first render leaves in
    [formData] and [formNotFound]: the form saved under [formId] when
    there is one, the loader's [fallbackFormData] otherwise.  The value
    found under [formId] need not be a saved form: of any other truthy
    value the properties [formName], [fields] and [steps] are
    [undefined], and the form is the empty form. *)
Definition load (formId : string) (fallbackFormData : option FormData) (ls : LocalStorage)
  : option FormData * bool :=
  let notFound := match fallbackFormData with None => true | Some _ => false end in
  match savedForms ls with
  | Parsed parsedForms =>
      match property inherits parsedForms formId with
      | Some (Value (Written localFormData)) =>
          (Some {| fd_formName := if String.eqb (sf_formName localFormData) ""
                                  then "Untitled Form" else sf_formName localFormData;
                   fd_fields := sf_fields localFormData;
                   fd_steps := sf_steps localFormData |}, false)
      | Some (Value (Other true)) | Some Builtin =>
          (Some {| fd_formName := "Untitled Form"; fd_fields := []; fd_steps := [] |}, false)
      | Some (Value (Other false)) | Some Undefined => (fallbackFormData, notFound)
      | None => (fallbackFormData, notFound)
      end
  | Absent => (fallbackFormData, notFound)
  | Unparsable => (fallbackFormData, notFound)
  end.

End Loading.

(** A step as the page uses it.  The [fieldIds] of the default step are
    [fields.map(f => f.id)], which holds [undefined] ([None]) for an
    object without [id]. *)
Record EffectiveStep := mkEffectiveStep {
  es_id : string;
  es_name : string;
  es_fieldIds : list (option string)
}.

Definition as_effective (step : FormStep) : EffectiveStep :=
  {| es_id := s_id step; es_name := s_name step; es_fieldIds := map Some (fieldIds step) |}.

Definition effectiveSteps (formData : FormData) : list EffectiveStep :=
  match fd_steps formData with
  | [] => [ {| es_id := "default"; es_name := "Form";
               es_fieldIds := map any_id (fd_fields formData) |} ]
  | _ :: _ => map as_effective (fd_steps formData)
  end.

(** [fieldIds.includes(x)] (two [undefined] are equal). *)
Definition includes_id (ids : list (option string)) (x : option string) : bool :=
  existsb (opt_eqb x) ids.

Definition fieldsInActiveStep (formData : FormData) (currentStepIndex : nat)
  : list AnyFormField :=
  match nth_error (effectiveSteps formData) currentStepIndex with
  | Some activeStep =>
      sort_by_order
        (List.filter (fun field => includes_id (es_fieldIds activeStep) (any_id field))
           (fd_fields formData))
  | None => []
  end.

(** The property name [field.id] stands for in [formValues[field.id]]:
    an [undefined] key is the name ["undefined"]. *)
Definition key (field : AnyFormField) : string :=
  match any_id field with Some i => i | None => "undefined" end.

(** The three pieces of component state the handlers work on. *)
Record State := mkFiller {
  currentStepIndex : nat;
  formValues : gmap string string;
  formErrors : gmap string (option string)
}.

Definition initialState : State :=
  {| currentStepIndex := 0; formValues := ∅; formErrors := ∅ |}.

Definition handleFieldChange (fieldId value : string) (st : State) : State :=
  {| currentStepIndex := currentStepIndex st;
     formValues := <[fieldId := value]> (formValues st);
     formErrors := <[fieldId := None]> (formErrors st) |}.

Section Validation.

Variable RegExp : string -> option (string -> bool).

(** The [error] that the body of the [forEach] in [validateStep]
    computes for one field.  An object without [required] and [type]
    gets none. *)
Definition field_error (field : AnyFormField) (value : string) : option string :=
  match field with
  | OrderOnly _ => None
  | Field f =>
      if f_required f && String.eqb value "" then Some (required_error (f_label f))
      else if is_text (f_type f) || is_textarea (f_type f) then
        let v := f_validation f in
        let e1 :=
          if truthy_num (minLength v) && (str_len value <? num_or_zero (minLength v))
          then Some (too_short_error (f_label f) (num_or_zero (minLength v))) else None in
        let e2 :=
          if truthy_num (maxLength v) && (num_or_zero (maxLength v) <? str_len value)
          then Some (too_long_error (f_label f) (num_or_zero (maxLength v))) else e1 in
        if is_text (f_type f) && truthy (pattern v) then
          match RegExp (or_empty (pattern v)) with
          | Some regex_test =>
              if negb (String.eqb value "") && negb (regex_test value)
              then Some (format_error (f_label f)) else e2
          | None => Some (pattern_error (f_label f))
          end
        else e2
      else None
  end.

(** [formValues[field.id] || ''] *)
Definition value_of (formValues : gmap string string) (field : AnyFormField) : string :=
  or_empty (formValues !! key field).

(** [validateStep]: the object passed to [setFormErrors] and the
    returned [isValid]. *)
Definition validateStep (fieldsInActiveStep : list AnyFormField)
    (formValues : gmap string string) : gmap string (option string) * bool :=
  fold_left
    (fun '(newErrors, isValid) field =>
       let error := field_error field (value_of formValues field) in
       (<[key field := error]> newErrors,
        match error with Some _ => false | None => isValid end))
    fieldsInActiveStep (∅, true).

(** The handlers below turn the state of the render they were created
    in into the state of the next render: what they read ([formValues],
    [currentStepIndex], [fieldsInActiveStep]) is the value of that
    render, and the [set...] calls they make are applied in order. *)



Definition handleNextStep (formData : FormData) (st : State) : State :=
  let '(newErrors, isValid) :=
    validateStep (fieldsInActiveStep formData (currentStepIndex st)) (formValues st) in
  {| currentStepIndex :=
       if isValid
          && (Z.of_nat (currentStepIndex st)
              <? Z.of_nat (length (effectiveSteps formData)) - 1)
       then S (currentStepIndex st) else currentStepIndex st;
     formValues := formValues st;
     formErrors := newErrors |}.

Definition handlePreviousStep (st : State) : State :=
  {| currentStepIndex :=
       if (0 <? currentStepIndex st)%nat then (currentStepIndex st - 1)%nat
       else currentStepIndex st;
     formValues := formValues st;
     formErrors := formErrors st |}.

(** [saveSubmissionToLocalStorage]: an error is logged and swallowed,
    and the item stays as it is.  [submissions[formId]] must be an array
    for [push] to work: the code puts an empty array there when what it
    reads is falsy, and throws a [TypeError] on any other value that is
    not an array -- also on the functions and objects inherited from
    [Object.prototype].  On [null] and on a primitive value the read or
    the assignment throws.  On an array, a [formId] that is not an index
    names a property that [JSON.stringify] leaves out. *)
Definition saveSubmissionToLocalStorage (formId : string) (formData : FormData)
    (now submittedAt : string) (submissionData : gmap string string)
    (ls : LocalStorage) : LocalStorage :=
  let submission :=
    {| sub_id := now; sub_submittedAt := submittedAt; sub_data := submissionData;
       sub_formName := fd_formName formData |} in
  let setItem submissions :=
    {| savedForms := savedForms ls; submissions := Parsed submissions |} in
  let push (own : gmap string (Entry (list (Entry Submission)))) :=
    match own !! formId with
    | Some (Written stored) =>
        setItem (JObject (<[formId := Written (stored ++ [Written submission])]> own))
    | Some (Other true) => ls
    | Some (Other false) => setItem (JObject (<[formId := Written [Written submission]]> own))
    | None =>
        if includes Object_prototype formId then ls
        else setItem (JObject (<[formId := Written [Written submission]]> own))
    end in
  match submissions ls with
  | Unparsable => ls
  | Absent => push ∅
  | Parsed (JObject own) => push own
  | Parsed (JArray elems) =>
      match array_index formId with
      | Some i =>
          match elems !! i with
          | Some (Written stored) =>
              setItem (JArray (<[i := Written (stored ++ [Written submission])]> elems))
          | Some (Other true) => ls
          | Some (Other false) | None =>
              setItem (JArray (array_set i (Written [Written submission]) elems))
          end
      | None => ls
      end
  | Parsed (JString _) | Parsed JNumber | Parsed JBoolean | Parsed JNull => ls
  end.

(** [handleSubmit]; the boolean tells which of the two alerts is shown
    ([true]: submitted). *)
Definition handleSubmit (formId : string) (formData : FormData) (now submittedAt : string)
    (st : State) (ls : LocalStorage) : State * LocalStorage * bool :=
  let '(newErrors, isValid) :=
    validateStep (fieldsInActiveStep formData (currentStepIndex st)) (formValues st) in
  if isValid then
    (initialState,
     saveSubmissionToLocalStorage formId formData now submittedAt (formValues st) ls,
     true)
  else
    ({| currentStepIndex := currentStepIndex st; formValues := formValues st;
        formErrors := newErrors |}, ls, false).

End Validation.

End Filler.

(** The field [f] with [required] switched off, every other property
    kept. *)
Definition not_required (f : FormField) : FormField :=
  {| f_id := f_id f; f_type := f_type f; f_label := f_label f;
     f_placeholder := f_placeholder f; f_required := false;
     f_helpText := f_helpText f; f_order := f_order f;
     f_validation := f_validation f; f_options := f_options f;
     f_accept := f_accept f; f_multiple := f_multiple f |}.

(** ** The store calls the builder's components make

    [FieldToolbox], [FieldPropertiesPanel], [MultiStepNavigation],
    [Header] and the page itself are the only callers of the store's
    actions.  [offers s a] holds when, with the store in state [s], one
    of them can make the call [a]: each constructor is one call site,
    under the conditions in which the component renders the control and
    with the arguments it passes.  For [uuidv4()] the condition is that
    the identifier is not in use. *)

Module UI.

(** [FieldPropertiesPanel]: the field being edited. *)
Definition selectedField (s : FormBuilderState) : option AnyFormField :=
  if truthy (selectedFieldId s)
  then find (fun f => opt_eqb (any_id f) (selectedFieldId s)) (fields s)
  else None.

Inductive offers (s : FormBuilderState) : Action -> Prop :=
(* FieldToolbox: [onClick={() => addField(field.type)}], [onClick={addStep}] *)
| toolbox_addField (uuid1 uuid2 : string) (type : FieldType) :
    ~ In uuid1 (field_ids (fields s)) -> offers s (AddField uuid1 uuid2 type)
| toolbox_addStep (uuid : string) :
    ~ In uuid (map s_id (steps s)) -> offers s (AddStep uuid)
(* FieldPropertiesPanel, rendered when [selectedField] is defined: every
   [updateField(selectedField.id, {...})] passes one of [label],
   [placeholder], [helpText], [required], [validation], [options],
   [accept], [multiple] *)
| panel_updateField (field : AnyFormField) (i : string) (updates : FieldUpdates) :
    selectedField s = Some field -> any_id field = Some i ->
    u_id updates = None -> u_type updates = None -> u_order updates = None ->
    offers s (UpdateField i updates)
(* the select shown when [steps.length > 1], with one option per step *)
| panel_moveFieldToStep (field : AnyFormField) (i : string) (step : FormStep) :
    selectedField s = Some field -> any_id field = Some i ->
    (1 < length (steps s))%nat -> In step (steps s) ->
    offers s (MoveFieldToStep i (s_id step))
| panel_removeField (field : AnyFormField) (i : string) :
    selectedField s = Some field -> any_id field = Some i ->
    offers s (RemoveField i)
(* the page: a click on a shown field, a drop inside the shown list *)
| page_setSelectedField (field : AnyFormField) (i : string) :
    In field (Builder.fieldsInActiveStep s) -> any_id field = Some i ->
    offers s (SetSelectedField (Some i))
| page_reorderFields (i j : nat) :
    (i < length (Builder.fieldsInActiveStep s))%nat ->
    (j < length (Builder.fieldsInActiveStep s))%nat ->
    offers s (ReorderFields (Z.of_nat i) (Z.of_nat j))
(* MultiStepNavigation, rendered when [steps.length > 1] *)
| navigation_setActiveStep (step : FormStep) :
    (1 < length (steps s))%nat -> In step (steps s) ->
    offers s (SetActiveStep (s_id step))
| navigation_updateStepName (step : FormStep) (newStepName : string) :
    (1 < length (steps s))%nat -> In step (steps s) ->
    offers s (UpdateStepName (s_id step) newStepName)
| navigation_removeStep (step : FormStep) :
    (1 < length (steps s))%nat -> In step (steps s) ->
    offers s (RemoveStep (s_id step))
(* Header *)
| header_setFormName (name : string) : offers s (SetFormName name)
| header_undo : offers s Undo
| header_redo : offers s Redo
| header_toggleTheme : offers s ToggleTheme
| header_clearForm : offers s ClearForm.

(** The states the builder can be brought to through its components. *)
Inductive reachable : FormBuilderState -> Prop :=
| reachable_init : reachable initialFormBuilderState
| reachable_call (s : FormBuilderState) (a : Action) :
    reachable s -> offers s a -> reachable (run a s).

End UI.

(** ** Consistent documents *)

(** An element of [fields] that is a field object, with an [id]. *)
Definition proper (a : AnyFormField) : Prop :=
  match a with Field _ => True | OrderOnly _ => False end.

(** [activeStepId] names a step, and is [null] only without steps. *)
Definition active_ok (ss : list FormStep) (active : option string) : Prop :=
  match active with
  | None => ss = []
  | Some x => In x (map s_id ss)
  end.

(** A document in which fields and steps fit together: besides [doc_ok],
    every element of [fields] is a field object, field ids are pairwise
    different, every field id is listed by a step, and the active step
    exists. *)
Definition consistent (fs : list AnyFormField) (ss : list FormStep)
    (active : option string) : Prop :=
  doc_ok fs ss
  /\ Forall proper fs
  /\ List.NoDup (field_ids fs)
  /\ (forall x, In x (field_ids fs) -> In x (step_field_ids ss))
  /\ active_ok ss active.

Definition consistent_entry (e : HistoryState) : Prop :=
  consistent (h_fields e) (h_steps e) (h_activeStepId e).

Definition consistent_state (s : FormBuilderState) : Prop :=
  consistent (fields s) (steps s) (activeStepId s)
  /\ Forall consistent_entry (past s)
  /\ Forall consistent_entry (future s)
  /\ (forall x, selectedFieldId s = Some x -> In x (field_ids (fields s))).

(** * Properties *)

Example scenarioA :
  let s := addField "f1" "s1" text initialFormBuilderState in
  steps s = [ {| s_id := "s1"; s_name := "Step 1"; fieldIds := ["f1"] |} ]
  /\ activeStepId s = Some "s1" /\ length (fields s) = 1%nat.
Proof. vm_compute. auto. Qed.

(** ** History bookkeeping *)

Lemma last_snoc_some {A} (l : list A) (x : A) : last (l ++ [x]) = Some x.
Proof. induction l as [|y l IH]; [reflexivity|]. simpl. destruct (l ++ [x]) eqn:E; [destruct l; discriminate|]. exact IH. Qed.

Lemma drop_last_snoc {A} (l : list A) (x : A) : drop_last (l ++ [x]) = l.
Proof.
  unfold drop_last. rewrite length_app. simpl.
  replace (length l + 1 - 1)%nat with (length l) by lia.
  rewrite firstn_app, Nat.sub_diag, firstn_all. simpl. apply app_nil_r.
Qed.

(** Every mutating action leaves [past] as [_addToHistory] made it. *)
Lemma past_after_mutation (a : Action) (s : FormBuilderState) :
  mutating a = true ->
  past (run a s) = slice_last9 (past s) ++ [snapshot s].
Proof.
  destruct a; simpl; try discriminate; intros _; try reflexivity.
  - unfold addField. simpl. destruct (steps s); reflexivity.
  - unfold removeStep. simpl.
    destruct (find _ (steps s)); [|reflexivity].
    destruct (List.filter _ (steps s)); reflexivity.
Qed.

Lemma future_after_mutation (a : Action) (s : FormBuilderState) :
  mutating a = true -> future (run a s) = [].
Proof.
  destruct a; simpl; try discriminate; intros _; try reflexivity.
  - unfold addField. simpl. destruct (steps s); reflexivity.
  - unfold removeStep. simpl.
    destruct (find _ (steps s)); [|reflexivity].
    destruct (List.filter _ (steps s)); reflexivity.
Qed.

Lemma undo_snoc (s : FormBuilderState) (l : list HistoryState) (e : HistoryState) :
  past s = l ++ [e] ->
  undo s = {| fields := h_fields e; steps := h_steps e; activeStepId := h_activeStepId e;
              selectedFieldId := None; formName := h_formName e; theme := h_theme e;
              past := l; future := snapshot s :: future s |}.
Proof.
  intros H. unfold undo. rewrite H, last_snoc_some, drop_last_snoc. reflexivity.
Qed.

Lemma undo_restores_document (a : Action) (s : FormBuilderState) :
  mutating a = true ->
  let s' := undo (run a s) in
  fields s' = fields s /\ steps s' = steps s /\ activeStepId s' = activeStepId s
  /\ formName s' = formName s /\ theme s' = theme s /\ selectedFieldId s' = None.
Proof.
  intros Hm s'. subst s'.
  rewrite (undo_snoc _ _ _ (past_after_mutation a s Hm)). simpl. auto 10.
Qed.

(** ** The bound on [past] *)

Lemma slice_last9_length {A} (l : list A) :
  length (slice_last9 l) = Nat.min (length l) 9.
Proof. unfold slice_last9. rewrite length_skipn. lia. Qed.

Lemma past_length_after_mutation (a : Action) (s : FormBuilderState) :
  mutating a = true ->
  length (past (run a s)) = S (Nat.min (length (past s)) 9).
Proof.
  intros Hm. rewrite (past_after_mutation a s Hm), length_app, slice_last9_length.
  simpl. lia.
Qed.

Lemma run_all_snoc (l : list Action) (a : Action) (s : FormBuilderState) :
  run_all (l ++ [a]) s = run a (run_all l s).
Proof. unfold run_all. rewrite fold_left_app. reflexivity. Qed.

Lemma past_length_run_all (l : list Action) (s : FormBuilderState) :
  Forall (fun a => mutating a = true) l ->
  (Nat.min (length l) 10 <= length (past (run_all l s)))%nat
  /\ (l <> [] -> (length (past (run_all l s)) <= 10)%nat).
Proof.
  induction l as [|a l IH] using rev_ind; intros Hall.
  - simpl. split; [lia | congruence].
  - apply Forall_app in Hall as [Hl Ha]. inversion Ha as [|? ? Hma _]; subst.
    destruct (IH Hl) as [Hlo _].
    rewrite run_all_snoc, (past_length_after_mutation _ _ Hma), length_app. simpl.
    split; [lia | intros _; lia].
Qed.

Lemma undo_empty (s : FormBuilderState) : past s = [] -> undo s = s.
Proof. intros H. unfold undo. rewrite H. reflexivity. Qed.

Lemma undo_past_length (s : FormBuilderState) :
  length (past (undo s)) = (length (past s) - 1)%nat.
Proof.
  destruct (past s) as [|e l] eqn:E using rev_ind.
  - rewrite (undo_empty s E), E. reflexivity.
  - clear IHl. rewrite (undo_snoc s l e E). simpl. rewrite length_app. simpl. lia.
Qed.

Lemma iter_undo_past_length (k : nat) (s : FormBuilderState) :
  length (past (Nat.iter k undo s)) = (length (past s) - k)%nat.
Proof.
  induction k as [|k IH]; simpl; [lia|].
  rewrite undo_past_length, IH. lia.
Qed.

(** C4.  After more than ten consecutive mutating actions (no undo or
    redo in between) [past] holds exactly ten entries: each action keeps
    the nine most recent entries and adds the snapshot of the state it
    started from, so older entries are dropped.  From there [undo]
    changes the state exactly ten times (after [k] of them [10 - k]
    entries are left) and is a no-op from the tenth on. *)
Theorem history_bound (l : list Action) (s : FormBuilderState) :
  Forall (fun a => mutating a = true) l ->
  (10 < length l)%nat ->
  let s' := run_all l s in
  length (past s') = 10%nat
  /\ (forall a t, mutating a = true ->
        past (run a t) = slice_last9 (past t) ++ [snapshot t])
  /\ (forall k, length (past (Nat.iter k undo s')) = (10 - k)%nat)
  /\ (forall k, (k < 10)%nat -> undo (Nat.iter k undo s') <> Nat.iter k undo s')
  /\ (forall k, (10 <= k)%nat -> undo (Nat.iter k undo s') = Nat.iter k undo s').
Proof.
  intros Hall Hlen s'.
  assert (H10 : length (past s') = 10%nat).
  { destruct (past_length_run_all l s Hall) as [Hlo Hhi].
    assert (l <> []) as Hne by (intros ->; simpl in Hlen; lia).
    specialize (Hhi Hne). fold s' in Hlo, Hhi. lia. }
  assert (Hk : forall k, length (past (Nat.iter k undo s')) = (10 - k)%nat).
  { intros k. rewrite iter_undo_past_length, H10. reflexivity. }
  split; [exact H10|]. split; [exact past_after_mutation|]. split; [exact Hk|]. split.
  - intros k Hlt Heq.
    pose proof (undo_past_length (Nat.iter k undo s')) as Hu.
    rewrite Heq, Hk in Hu. lia.
  - intros k Hge. apply undo_empty.
    specialize (Hk k). destruct (past (Nat.iter k undo s')); [reflexivity|].
    simpl in Hk. lia.
Qed.

Lemma history_bound_witness :
  let s' := run_all (repeat (SetFormName "Survey") 11) initialFormBuilderState in
  length (past s') = 10%nat
  /\ (forall a t, mutating a = true ->
        past (run a t) = slice_last9 (past t) ++ [snapshot t])
  /\ (forall k, length (past (Nat.iter k undo s')) = (10 - k)%nat)
  /\ (forall k, (k < 10)%nat -> undo (Nat.iter k undo s') <> Nat.iter k undo s')
  /\ (forall k, (10 <= k)%nat -> undo (Nat.iter k undo s') = Nat.iter k undo s').
Proof.
  apply (history_bound (repeat (SetFormName "Survey") 11) initialFormBuilderState).
  - repeat constructor.
  - simpl. lia.
Defined.

(** ** [updateField] on an unknown id *)

Lemma update_one_other (i : string) (u : FieldUpdates) (a : AnyFormField) :
  any_id a <> Some i -> update_one i u a = a.
Proof.
  destruct a as [f|o]; simpl; [|reflexivity].
  intros H. destruct (String.eqb_spec (f_id f) i) as [E|]; [congruence | reflexivity].
Qed.

Lemma map_update_one_unknown (i : string) (u : FieldUpdates) (l : list AnyFormField) :
  (forall a, In a l -> any_id a <> Some i) -> map (update_one i u) l = l.
Proof.
  induction l as [|a l IH]; intros H; simpl; [reflexivity|].
  rewrite update_one_other by (apply H; left; reflexivity).
  rewrite IH by (intros b Hb; apply H; right; exact Hb). reflexivity.
Qed.

(** C9, as stated, fails: [updateField] records a history entry before it
    looks for the field, so even on the initial state an unknown id
    changes the store ([past] gains an entry). *)
Lemma updateField_unknown_counterexample :
  ~ (forall (s : FormBuilderState) (i : string) (u : FieldUpdates),
       (forall a, In a (fields s) -> any_id a <> Some i) ->
       updateField i u s = s).
Proof.
  intros H.
  specialize (H initialFormBuilderState "missing" empty_updates).
  assert (Hp : past (updateField "missing" empty_updates initialFormBuilderState)
               = past initialFormBuilderState).
  { rewrite H; [reflexivity|]. intros a []. }
  vm_compute in Hp. discriminate Hp.
Qed.

(** C9, amended.  [updateField] with an id that matches no field leaves
    the document and the selection as they were ([fields], [steps],
    [activeStepId], [selectedFieldId], [formName], [theme]); it still
    records a history entry: [past] becomes its nine most recent entries
    followed by a snapshot of the document, and [future] is emptied. *)
Theorem updateField_unknown (s : FormBuilderState) (i : string) (u : FieldUpdates) :
  (forall a, In a (fields s) -> any_id a <> Some i) ->
  let s' := updateField i u s in
  fields s' = fields s /\ steps s' = steps s /\ activeStepId s' = activeStepId s
  /\ selectedFieldId s' = selectedFieldId s /\ formName s' = formName s
  /\ theme s' = theme s
  /\ past s' = slice_last9 (past s) ++ [snapshot s]
  /\ future s' = [].
Proof.
  intros H s'. subst s'. unfold updateField. simpl.
  rewrite (map_update_one_unknown i u (fields s) H). auto 10.
Qed.

Lemma updateField_unknown_witness :
  let s := addField "f1" "s1" text initialFormBuilderState in
  let s' := updateField "f2" empty_updates s in
  fields s' = fields s /\ steps s' = steps s /\ activeStepId s' = activeStepId s
  /\ selectedFieldId s' = selectedFieldId s /\ formName s' = formName s
  /\ theme s' = theme s
  /\ past s' = slice_last9 (past s) ++ [snapshot s]
  /\ future s' = [].
Proof.
  apply (updateField_unknown (addField "f1" "s1" text initialFormBuilderState)
           "f2" empty_updates).
  intros a Ha. vm_compute in Ha. destruct Ha as [<-|[]]. simpl. discriminate.
Defined.

(** ** [moveFieldToStep] *)

Lemma includes_In (l : list string) (x : string) : includes l x = true <-> In x l.
Proof.
  unfold includes. rewrite existsb_exists. split.
  - intros (y & Hy & E). apply String.eqb_eq in E. subst. exact Hy.
  - intros H. exists x. split; [exact H | apply String.eqb_refl].
Qed.

Lemma keep_other_In (fieldId x : string) (l : list string) :
  In x (keep_other fieldId l) <-> In x l /\ x <> fieldId.
Proof.
  unfold keep_other. rewrite filter_In, negb_true_iff, String.eqb_neq. reflexivity.
Qed.

Lemma includes_keep_other (fieldId : string) (l : list string) :
  includes (keep_other fieldId l) fieldId = false.
Proof.
  apply not_true_is_false. rewrite includes_In, keep_other_In. tauto.
Qed.

Lemma keep_other_id (fieldId : string) (l : list string) :
  ~ In fieldId l -> keep_other fieldId l = l.
Proof.
  induction l as [|x l IH]; simpl; intros H; [reflexivity|].
  destruct (String.eqb_spec x fieldId) as [->|Hne]; simpl.
  - exfalso. apply H. left. reflexivity.
  - rewrite IH; [reflexivity|]. intros Hin. apply H. right. exact Hin.
Qed.

Lemma keep_other_app (fieldId : string) (l1 l2 : list string) :
  keep_other fieldId (l1 ++ l2) = keep_other fieldId l1 ++ keep_other fieldId l2.
Proof. unfold keep_other. apply List.filter_app. Qed.

Lemma keep_other_idem (fieldId : string) (l : list string) :
  keep_other fieldId (keep_other fieldId l) = keep_other fieldId l.
Proof. apply keep_other_id. rewrite keep_other_In. tauto. Qed.

Lemma keep_other_self (fieldId : string) : keep_other fieldId [fieldId] = [].
Proof. unfold keep_other. simpl. rewrite String.eqb_refl. reflexivity. Qed.

(** What the [map] callback returns: the step without [fieldId], with
    [fieldId] added at the end when the step is the target. *)
Lemma move_in_step_spec (fieldId targetStepId : string) (st : FormStep) :
  move_in_step fieldId targetStepId st =
  {| s_id := s_id st; s_name := s_name st;
     fieldIds := keep_other fieldId (fieldIds st)
                 ++ (if String.eqb (s_id st) targetStepId then [fieldId] else []) |}.
Proof.
  unfold move_in_step. fold (keep_other fieldId (fieldIds st)).
  rewrite includes_keep_other. simpl.
  destruct (String.eqb (s_id st) targetStepId); [reflexivity|].
  rewrite app_nil_r. reflexivity.
Qed.

Lemma move_in_step_idem (fieldId targetStepId : string) (st : FormStep) :
  move_in_step fieldId targetStepId (move_in_step fieldId targetStepId st)
  = move_in_step fieldId targetStepId st.
Proof.
  rewrite !move_in_step_spec. cbn [s_id s_name fieldIds]. f_equal.
  rewrite keep_other_app, keep_other_idem.
  destruct (String.eqb (s_id st) targetStepId).
  - rewrite keep_other_self, app_nil_r. reflexivity.
  - cbn [keep_other List.filter]. rewrite !app_nil_r. reflexivity.
Qed.

(** C5, as stated, fails: a field that is in the target step but not at
    the end of its list is moved to the end.  With fields [a], [b] added
    in this order to the first step, moving [a] to that same step gives
    the list [b; a]. *)
Lemma moveFieldToStep_same_step_counterexample :
  ~ (forall (s : FormBuilderState) (fieldId targetStepId : string),
       (exists st, In st (steps s) /\ s_id st = targetStepId
                   /\ In fieldId (fieldIds st)) ->
       steps (moveFieldToStep fieldId targetStepId s) = steps s).
Proof.
  intros H.
  specialize (H (run_all [AddField "a" "s1" text; AddField "b" "s2" text]
                   initialFormBuilderState) "a" "s1").
  assert (Hex : exists st,
             In st (steps (run_all [AddField "a" "s1" text; AddField "b" "s2" text]
                             initialFormBuilderState))
             /\ s_id st = "s1" /\ In "a" (fieldIds st)).
  { exists {| s_id := "s1"; s_name := "Step 1"; fieldIds := ["a"; "b"] |}.
    vm_compute. auto. }
  specialize (H Hex). vm_compute in H. discriminate H.
Qed.

(** C5, amended.  [moveFieldToStep] removes [fieldId] from every step's
    list and puts it at the end of the list of the target step.  Doing it
    a second time changes the steps no further.  A field that already is
    in the target step is thereby moved to the end of that step's list:
    the steps stay as they are when [fieldId] is already the last entry
    of the target step and occurs nowhere else. *)
Theorem moveFieldToStep_steps (s : FormBuilderState) (fieldId targetStepId : string) :
  let s1 := moveFieldToStep fieldId targetStepId s in
  steps s1 =
    map (fun st =>
           {| s_id := s_id st; s_name := s_name st;
              fieldIds := keep_other fieldId (fieldIds st)
                          ++ (if String.eqb (s_id st) targetStepId then [fieldId] else []) |})
        (steps s)
  /\ steps (moveFieldToStep fieldId targetStepId s1) = steps s1
  /\ ((forall st, In st (steps s) ->
         if String.eqb (s_id st) targetStepId
         then exists l, fieldIds st = l ++ [fieldId] /\ ~ In fieldId l
         else ~ In fieldId (fieldIds st)) ->
      steps s1 = steps s).
Proof.
  intros s1. subst s1. unfold moveFieldToStep. simpl. split; [|split].
  - apply map_ext. intros st. apply move_in_step_spec.
  - rewrite map_map. apply map_ext. intros st. apply move_in_step_idem.
  - intros H. rewrite <- (map_id (steps s)) at 2. apply map_ext_in.
    intros st Hst. specialize (H st Hst). rewrite move_in_step_spec.
    destruct st as [i n ids]. cbn [s_id s_name fieldIds] in *. f_equal.
    destruct (String.eqb i targetStepId).
    + destruct H as (l & -> & Hl).
      rewrite keep_other_app, keep_other_self, app_nil_r, (keep_other_id _ _ Hl).
      reflexivity.
    + rewrite (keep_other_id _ _ H). apply app_nil_r.
Qed.

Lemma moveFieldToStep_steps_witness :
  let s := run_all [AddField "a" "s1" text; AddField "b" "s2" text]
             initialFormBuilderState in
  steps (moveFieldToStep "b" "s1" s) = steps s.
Proof.
  apply (proj2 (proj2 (moveFieldToStep_steps
           (run_all [AddField "a" "s1" text; AddField "b" "s2" text]
              initialFormBuilderState) "b" "s1"))).
  intros st Hst. vm_compute in Hst. destruct Hst as [<-|[]]. simpl.
  exists ["a"]. split; [reflexivity|].
  intros [E|[]]. discriminate E.
Defined.

(** ** [removeStep] *)

Lemma find_unique_step (l : list FormStep) (st : FormStep) :
  List.NoDup (map s_id l) -> In st l ->
  find (fun x => String.eqb (s_id x) (s_id st)) l = Some st.
Proof.
  induction l as [|y l IH]; intros Hnd Hin; [destruct Hin|].
  simpl in *. inversion Hnd as [|? ? Hy Hnd']; subst.
  destruct Hin as [->|Hin].
  - rewrite String.eqb_refl. reflexivity.
  - destruct (String.eqb_spec (s_id y) (s_id st)) as [E|_].
    + exfalso. apply Hy. rewrite E. apply in_map. exact Hin.
    + apply IH; assumption.
Qed.

Lemma remaining_steps_nonempty (l : list FormStep) (stepId : string) :
  List.NoDup (map s_id l) -> (2 <= length l)%nat ->
  List.filter (fun st => negb (String.eqb (s_id st) stepId)) l <> [].
Proof.
  intros Hnd Hlen.
  destruct l as [|a [|b l]]; simpl in Hlen; try lia.
  simpl.
  destruct (String.eqb_spec (s_id a) stepId) as [Ea|_]; simpl; [|discriminate].
  destruct (String.eqb_spec (s_id b) stepId) as [Eb|_]; simpl; [|discriminate].
  exfalso. inversion Hnd as [|? ? Ha _]; subst. apply Ha. simpl. left. congruence.
Qed.

(** C10.  In a document with at least two steps (whose ids are pairwise
    different, as generated ids are), [removeStep] on an existing step
    makes the first remaining step the active one, whatever step was
    active before; the removed step's field ids are found in that first
    remaining step afterwards and the fields themselves are untouched,
    yet a selected field that was in the removed step is deselected. *)
Theorem removeStep_active_and_selection
    (s : FormBuilderState) (stepId : string) (removed : FormStep) :
  (2 <= length (steps s))%nat ->
  List.NoDup (map s_id (steps s)) ->
  In removed (steps s) ->
  s_id removed = stepId ->
  let s' := removeStep stepId s in
  exists first rest,
    List.filter (fun st => negb (String.eqb (s_id st) stepId)) (steps s) = first :: rest
    /\ activeStepId s' = Some (s_id first)
    /\ steps s' =
         {| s_id := s_id first; s_name := s_name first;
            fieldIds := fieldIds first ++ fieldIds removed |} :: rest
    /\ fields s' = fields s
    /\ (forall x, selectedFieldId s = Some x -> In x (fieldIds removed) ->
          selectedFieldId s' = None).
Proof.
  intros Hlen Hnd Hin Hid s'. subst s' stepId.
  pose proof (remaining_steps_nonempty _ (s_id removed) Hnd Hlen) as Hne.
  unfold removeStep. cbn [_addToHistory steps fields selectedFieldId].
  rewrite (find_unique_step _ _ Hnd Hin).
  destruct (List.filter _ (steps s)) as [|first rest] eqn:Hf; [congruence|].
  exists first, rest. split; [reflexivity|].
  cbn [activeStepId steps fields selectedFieldId]. split; [reflexivity|]. split; [|split].
  - destruct (fieldIds removed) as [|x xs] eqn:Hr; simpl.
    + rewrite app_nil_r. destruct first; reflexivity.
    + rewrite String.eqb_refl. reflexivity.
  - reflexivity.
  - intros x Hsel Hx. rewrite Hsel.
    assert (Hinc : includes (fieldIds removed) (or_empty (Some x)) = true).
    { apply includes_In. simpl. destruct (String.eqb_spec x "") as [->|_]; exact Hx. }
    rewrite Hinc. reflexivity.
Qed.

Lemma removeStep_active_and_selection_witness :
  let s := setSelectedField (Some "b")
             (setActiveStep "s1"
                (run_all [AddField "a" "s1" text; AddStep "s2"; AddField "b" "s3" date]
                   initialFormBuilderState)) in
  let s' := removeStep "s2" s in
  exists first rest,
    List.filter (fun st => negb (String.eqb (s_id st) "s2")) (steps s) = first :: rest
    /\ activeStepId s' = Some (s_id first)
    /\ steps s' =
         {| s_id := s_id first; s_name := s_name first;
            fieldIds := fieldIds first ++ ["b"] |} :: rest
    /\ fields s' = fields s
    /\ (forall x, selectedFieldId s = Some x -> In x ["b"] ->
          selectedFieldId s' = None).
Proof.
  apply (removeStep_active_and_selection
           (setSelectedField (Some "b")
              (setActiveStep "s1"
                 (run_all [AddField "a" "s1" text; AddStep "s2"; AddField "b" "s3" date]
                    initialFormBuilderState)))
           "s2" {| s_id := "s2"; s_name := "Step 2"; fieldIds := ["b"] |}).
  - vm_compute. lia.
  - vm_compute. repeat constructor; simpl; intuition discriminate.
  - vm_compute. right. left. reflexivity.
  - reflexivity.
Defined.

(** ** Field identifiers under the actions *)

Lemma field_ids_app (l1 l2 : list AnyFormField) :
  field_ids (l1 ++ l2) = field_ids l1 ++ field_ids l2.
Proof.
  induction l1 as [|[f|o] l1 IH]; simpl; [reflexivity| |exact IH].
  rewrite IH. reflexivity.
Qed.

Lemma field_ids_In (l : list AnyFormField) (i : string) :
  In i (field_ids l) <-> exists a, In a l /\ any_id a = Some i.
Proof.
  induction l as [|[f|o] l IH]; simpl.
  - split; [intros [] | intros (a & [] & _)].
  - rewrite IH. split.
    + intros [<-|(a & Ha & E)]; [exists (Field f); auto | exists a; auto].
    + intros (a & [<-|Ha] & E); [left; simpl in E; congruence | right; exists a; auto].
  - rewrite IH. split.
    + intros (a & Ha & E). exists a; auto.
    + intros (a & [<-|Ha] & E); [discriminate E | exists a; auto].
Qed.

Lemma field_ids_Permutation (l1 l2 : list AnyFormField) :
  Permutation l1 l2 -> Permutation (field_ids l1) (field_ids l2).
Proof.
  induction 1 as [|[f|o] l1 l2 _ IH|[f|o] [g|o'] l|l1 l2 l3 _ IH1 _ IH2]; simpl.
  - reflexivity.
  - constructor. exact IH.
  - exact IH.
  - apply perm_swap.
  - reflexivity.
  - reflexivity.
  - reflexivity.
  - etransitivity; eassumption.
Qed.

Lemma field_ids_filter (i : string) (l : list AnyFormField) :
  field_ids (List.filter (fun field => negb (opt_is (any_id field) i)) l)
  = keep_other i (field_ids l).
Proof.
  induction l as [|[f|o] l IH]; simpl; [reflexivity| |exact IH].
  destruct (String.eqb (f_id f) i); simpl; rewrite IH; reflexivity.
Qed.

Lemma field_ids_update (i : string) (u : FieldUpdates) (l : list AnyFormField) :
  field_ids (map (update_one i u) l)
  = map (fun x => if String.eqb x i then or_else (u_id u) x else x) (field_ids l).
Proof.
  induction l as [|[f|o] l IH]; simpl; [reflexivity| |exact IH].
  destruct (String.eqb (f_id f) i); simpl; rewrite IH; reflexivity.
Qed.

Lemma insert_by_order_Permutation (x : AnyFormField) (l : list AnyFormField) :
  Permutation (insert_by_order x l) (x :: l).
Proof.
  induction l as [|y l IH]; simpl; [reflexivity|].
  destruct (any_order x <=? any_order y); [reflexivity|].
  rewrite IH. apply perm_swap.
Qed.

Lemma sort_by_order_Permutation (l : list AnyFormField) :
  Permutation (sort_by_order l) l.
Proof.
  induction l as [|x l IH]; simpl; [reflexivity|].
  rewrite insert_by_order_Permutation, IH. reflexivity.
Qed.

Lemma slot_ids_app (l1 l2 : list (option AnyFormField)) :
  slot_ids (l1 ++ l2) = slot_ids l1 ++ slot_ids l2.
Proof. unfold slot_ids. rewrite map_app, concat_app, field_ids_app. reflexivity. Qed.

Lemma slot_ids_Some (l : list AnyFormField) : slot_ids (map Some l) = field_ids l.
Proof.
  unfold slot_ids. induction l as [|a l IH]; [reflexivity|].
  simpl. destruct a; simpl; rewrite IH; reflexivity.
Qed.

Lemma any_id_with_order (o : option AnyFormField) (index : Z) :
  field_ids [with_order o index] = slot_ids [o].
Proof. destruct o as [[f|z]|]; reflexivity. Qed.

Lemma field_ids_mapi_from (n : nat) (l : list (option AnyFormField)) :
  field_ids (mapi_from n with_order l) = slot_ids l.
Proof.
  revert n. induction l as [|o l IH]; intros n; [reflexivity|].
  change (mapi_from n with_order (o :: l))
    with ([with_order o (Z.of_nat n)] ++ mapi_from (S n) with_order l).
  change (o :: l) with ([o] ++ l).
  rewrite field_ids_app, slot_ids_app, IH, any_id_with_order. reflexivity.
Qed.

Lemma splice_remove1_parts {A} (l : list A) (start : Z) :
  Permutation l
    (match snd (splice_remove1 l start) with Some x => [x] | None => [] end
     ++ fst (splice_remove1 l start)).
Proof.
  unfold splice_remove1. simpl.
  set (k := splice_start (length l) start).
  destruct (nth_error l k) as [x|] eqn:E.
  - apply nth_error_split in E as (l1 & l2 & -> & Hk).
    rewrite <- Hk.
    rewrite firstn_app, Nat.sub_diag, firstn_all. simpl. rewrite app_nil_r.
    replace (S (length l1)) with (length (l1 ++ [x])) by (rewrite length_app; simpl; lia).
    replace (l1 ++ x :: l2) with ((l1 ++ [x]) ++ l2) by (rewrite <- app_assoc; reflexivity).
    rewrite skipn_app, Nat.sub_diag, skipn_all. simpl.
    rewrite <- app_assoc. simpl. symmetry. apply Permutation_middle.
  - apply nth_error_None in E. simpl.
    rewrite firstn_all2 by lia. rewrite skipn_all2 by lia. rewrite app_nil_r. reflexivity.
Qed.

Lemma slot_ids_splice_insert (l : list (option AnyFormField)) (start : Z)
    (x : option AnyFormField) :
  Permutation (slot_ids (splice_insert l start x)) (slot_ids [x] ++ slot_ids l).
Proof.
  unfold splice_insert. set (k := splice_start (length l) start).
  assert (H : slot_ids l = slot_ids (firstn k l) ++ slot_ids (skipn k l)).
  { rewrite <- slot_ids_app, firstn_skipn. reflexivity. }
  rewrite H.
  change (x :: skipn k l) with ([x] ++ skipn k l).
  rewrite !slot_ids_app, !app_assoc.
  apply Permutation_app_tail, Permutation_app_comm.
Qed.

Lemma reorderFields_ids (startIndex endIndex : Z) (s : FormBuilderState) :
  Permutation (field_ids (fields (reorderFields startIndex endIndex s)))
              (field_ids (fields s)).
Proof.
  unfold reorderFields. cbn [_addToHistory fields].
  pose proof (splice_remove1_parts (sort_by_order (fields s)) startIndex) as Hp.
  destruct (splice_remove1 (sort_by_order (fields s)) startIndex) as [rest removed].
  cbn [fields fst snd] in *. unfold mapi.
  rewrite field_ids_mapi_from, slot_ids_splice_insert, slot_ids_Some.
  etransitivity;
    [|apply field_ids_Permutation, (sort_by_order_Permutation (fields s))].
  etransitivity; [|symmetry; apply (field_ids_Permutation _ _ Hp)].
  rewrite field_ids_app.
  apply Permutation_app_tail. destruct removed as [[f|o]|]; reflexivity.
Qed.

Example reorder_moves_first_to_last :
  let s := run_all [AddField "a" "s1" text; AddField "b" "s2" text; AddField "c" "s3" text;
                    ReorderFields 0 2] initialFormBuilderState in
  map (fun a => (any_id a, any_order a)) (fields s)
  = [(Some "b", 0); (Some "c", 1); (Some "a", 2)].
Proof. vm_compute. reflexivity. Qed.

Example reorder_start_out_of_range :
  let s := run_all [AddField "a" "s1" text; AddField "b" "s2" text;
                    ReorderFields 5 0] initialFormBuilderState in
  map (fun a => (any_id a, any_order a)) (fields s)
  = [(None, 0); (Some "a", 1); (Some "b", 2)].
Proof. vm_compute. reflexivity. Qed.

(** C8, as stated, fails: [updateField] merges the whole partial update
    into the field, its [id] property included.  After adding a field
    with id [a], [updateField("a", { id: "b" })] leaves a field whose id
    is [b]. *)
Lemma field_id_overwritten_counterexample :
  ~ (forall (l : list Action) (i : string) (u : FieldUpdates),
       let s := run_all l initialFormBuilderState in
       map any_id (fields (updateField i u s)) = map any_id (fields s)).
Proof.
  intros H.
  specialize (H [AddField "a" "s1" text] "a"
                (mkUpdates (Some "b") None None None None None None None None None None)).
  vm_compute in H. discriminate H.
Qed.

(** C8, amended.  How each action changes the ids of the fields.  An
    existing field keeps its id under every action except [updateField]
    called with a partial update that itself has an [id] property, which
    replaces the id of the fields it matches (without one, all ids stay).
    [addField] adds the generated id at the end, [removeField] takes the
    given id out, [reorderFields] only permutes, [clearForm] leaves no
    field, [undo] and [redo] install the fields of the history entry they
    restore, and every other action leaves the fields untouched. *)
Theorem field_ids_by_action (a : Action) (s : FormBuilderState) :
  match a with
  | AddField uuid1 _ _ =>
      field_ids (fields (run a s)) = field_ids (fields s) ++ [uuid1]
  | RemoveField i =>
      field_ids (fields (run a s)) = keep_other i (field_ids (fields s))
  | UpdateField i u =>
      field_ids (fields (run a s))
      = map (fun x => if String.eqb x i then or_else (u_id u) x else x)
            (field_ids (fields s))
      /\ (u_id u = None -> map any_id (fields (run a s)) = map any_id (fields s))
  | ReorderFields _ _ =>
      Permutation (field_ids (fields (run a s))) (field_ids (fields s))
  | ClearForm => fields (run a s) = []
  | Undo =>
      fields (run a s)
      = match last (past s) with Some e => h_fields e | None => fields s end
  | Redo =>
      fields (run a s)
      = match future s with e :: _ => h_fields e | [] => fields s end
  | SetSelectedField _ | SetFormName _ | ToggleTheme | AddStep _
  | UpdateStepName _ _ | RemoveStep _ | MoveFieldToStep _ _ | SetActiveStep _ =>
      fields (run a s) = fields s
  end.
Proof.
  destruct a; cbn [run]; try reflexivity.
  - unfold addField. cbn [_addToHistory steps fields].
    destruct (steps s); cbn [fields]; rewrite field_ids_app; reflexivity.
  - unfold updateField. cbn [_addToHistory fields]. split.
    + apply field_ids_update.
    + intros Hu. rewrite map_map. apply map_ext. intros [f|o]; [|reflexivity].
      simpl. destruct (String.eqb (f_id f) i); [|reflexivity].
      simpl. rewrite Hu. reflexivity.
  - unfold removeField. cbn [_addToHistory fields]. apply field_ids_filter.
  - apply reorderFields_ids.
  - unfold removeStep. cbn [_addToHistory steps fields].
    destruct (find _ (steps s)); [|reflexivity].
    destruct (List.filter _ (steps s)); reflexivity.
  - unfold undo. destruct (last (past s)); reflexivity.
  - unfold redo. destruct (future s); reflexivity.
Qed.

Lemma field_ids_by_action_witness :
  let s := run_all [AddField "a" "s1" text] initialFormBuilderState in
  let u := mkUpdates None None (Some "Name") None (Some true) None None None None None None in
  map any_id (fields (run (UpdateField "a" u) s)) = map any_id (fields s).
Proof.
  apply (proj2 (field_ids_by_action
                  (UpdateField "a"
                     (mkUpdates None None (Some "Name") None (Some true)
                        None None None None None None))
                  (run_all [AddField "a" "s1" text] initialFormBuilderState))).
  reflexivity.
Defined.

(** ** Referential integrity is an invariant *)

Lemma occ_app (x : string) (l1 l2 : list string) :
  occ x (l1 ++ l2) = (occ x l1 + occ x l2)%nat.
Proof. apply count_occ_app. Qed.

Lemma occ_In (x : string) (l : list string) : In x l <-> (0 < occ x l)%nat.
Proof. unfold occ. rewrite (count_occ_In String.string_dec). lia. Qed.

Lemma occ_NoDup (l : list string) :
  List.NoDup l <-> forall x, (occ x l <= 1)%nat.
Proof. apply NoDup_count_occ. Qed.

Lemma occ_cons (x y : string) (l : list string) :
  occ x (y :: l) = ((if String.eqb y x then 1 else 0) + occ x l)%nat.
Proof.
  unfold occ. simpl. destruct (String.string_dec y x) as [->|Hne].
  - rewrite String.eqb_refl. reflexivity.
  - apply String.eqb_neq in Hne. rewrite Hne. reflexivity.
Qed.

Lemma occ_keep_other (x i : string) (l : list string) :
  occ x (keep_other i l) = if String.eqb x i then 0%nat else occ x l.
Proof.
  induction l as [|y l IH].
  - simpl. destruct (String.eqb x i); reflexivity.
  - change (keep_other i (y :: l))
      with (if negb (String.eqb y i) then y :: keep_other i l else keep_other i l).
    rewrite occ_cons.
    destruct (String.eqb_spec y i) as [->|Hyi]; cbn [negb]; rewrite ?occ_cons, IH.
    + destruct (String.eqb_spec x i) as [->|Hxi]; [reflexivity|].
      destruct (String.eqb_spec i x); [congruence | reflexivity].
    + destruct (String.eqb_spec x i) as [->|Hxi]; [|reflexivity].
      destruct (String.eqb_spec y i); [congruence | reflexivity].
Qed.

Lemma sids_cons (st : FormStep) (l : list FormStep) :
  step_field_ids (st :: l) = fieldIds st ++ step_field_ids l.
Proof. reflexivity. Qed.

Lemma sids_app (l1 l2 : list FormStep) :
  step_field_ids (l1 ++ l2) = step_field_ids l1 ++ step_field_ids l2.
Proof. unfold step_field_ids. rewrite map_app, concat_app. reflexivity. Qed.

Lemma sids_In (l : list FormStep) (x : string) :
  In x (step_field_ids l) <-> exists st, In st l /\ In x (fieldIds st).
Proof.
  unfold step_field_ids. rewrite in_concat. split.
  - intros (ids & Hids & Hx). apply in_map_iff in Hids as (st & <- & Hst). eauto.
  - intros (st & Hst & Hx). exists (fieldIds st). split; [apply in_map; exact Hst | exact Hx].
Qed.

(** [update_first] with a function that only extends [fieldIds]. *)
Lemma update_first_ids (p : FormStep -> bool) (more : list string) (l : list FormStep) :
  map s_id (update_first p (append_fieldIds more) l) = map s_id l.
Proof.
  induction l as [|y l IH]; simpl; [reflexivity|].
  destruct (p y); simpl; [reflexivity|]. rewrite IH. reflexivity.
Qed.

Lemma update_first_occ (p : FormStep -> bool) (more : list string) (l : list FormStep)
    (x : string) :
  occ x (step_field_ids (update_first p (append_fieldIds more) l))
  = (occ x (step_field_ids l) + if existsb p l then occ x more else 0)%nat.
Proof.
  induction l as [|y l IH]; simpl; [reflexivity|].
  destruct (p y); simpl.
  - rewrite !sids_cons. simpl. rewrite !occ_app. lia.
  - rewrite !sids_cons, !occ_app, IH. lia.
Qed.

Lemma filter_step_ids_NoDup (p : FormStep -> bool) (l : list FormStep) :
  List.NoDup (map s_id l) -> List.NoDup (map s_id (List.filter p l)).
Proof.
  induction l as [|y l IH]; simpl; intros H; [constructor|].
  inversion H as [|? ? Hy Hl]; subst. destruct (p y); [|apply IH; exact Hl].
  simpl. constructor; [|apply IH; exact Hl].
  intros Hin. apply Hy. apply in_map_iff in Hin as (st & E & Hst).
  apply filter_In in Hst as [Hst _]. rewrite <- E. apply in_map. exact Hst.
Qed.

Lemma filter_steps_occ (p : FormStep -> bool) (l : list FormStep) (x : string) :
  (occ x (step_field_ids (List.filter p l)) <= occ x (step_field_ids l))%nat.
Proof.
  induction l as [|y l IH]; simpl; [lia|].
  destruct (p y); rewrite ?sids_cons, ?occ_app; lia.
Qed.

(** A step that the filter drops and the steps it keeps, together, hold
    no more occurrences than the steps before. *)
Lemma dropped_step_occ (p : FormStep -> bool) (l : list FormStep) (st : FormStep)
    (x : string) :
  In st l -> p st = false ->
  (occ x (fieldIds st) + occ x (step_field_ids (List.filter p l))
   <= occ x (step_field_ids l))%nat.
Proof.
  induction l as [|y l IH]; simpl; intros Hin Hp; [destruct Hin|].
  destruct Hin as [->|Hin].
  - rewrite Hp, sids_cons, occ_app. pose proof (filter_steps_occ p l x). lia.
  - specialize (IH Hin Hp).
    destruct (p y); rewrite ?sids_cons, ?occ_app; lia.
Qed.

Lemma nonempty_steps_sids (l : list FormStep) :
  step_field_ids (List.filter (fun st => (0 <? length (fieldIds st))%nat) l)
  = step_field_ids l.
Proof.
  induction l as [|y l IH]; simpl; [reflexivity|].
  destruct (fieldIds y) as [|i ids] eqn:E; simpl.
  - rewrite sids_cons, E. exact IH.
  - rewrite !sids_cons, E, IH. reflexivity.
Qed.

Lemma without_field_sids (i : string) (l : list FormStep) :
  step_field_ids (map (without_field i) l) = keep_other i (step_field_ids l).
Proof.
  induction l as [|y l IH]; simpl; [reflexivity|].
  rewrite !sids_cons, keep_other_app, IH. reflexivity.
Qed.

Lemma move_steps_ids (fieldId targetStepId : string) (l : list FormStep) :
  map s_id (map (move_in_step fieldId targetStepId) l) = map s_id l.
Proof. rewrite map_map. apply map_ext. reflexivity. Qed.

Lemma move_steps_occ_eq (fieldId targetStepId : string) (l : list FormStep) (x : string) :
  occ x (step_field_ids (map (move_in_step fieldId targetStepId) l))
  = if String.eqb x fieldId
    then length (List.filter (fun st => String.eqb (s_id st) targetStepId) l)
    else occ x (step_field_ids l).
Proof.
  induction l as [|y l IH]; simpl.
  - destruct (String.eqb x fieldId); reflexivity.
  - rewrite !sids_cons, !occ_app, IH, move_in_step_spec. cbn [fieldIds].
    rewrite occ_app, occ_keep_other.
    destruct (String.eqb_spec x fieldId) as [E|Hx];
      destruct (String.eqb (s_id y) targetStepId); simpl;
      rewrite ?occ_cons, ?String.eqb_refl; try reflexivity; try lia.
    all: destruct (String.string_dec fieldId x); try congruence; lia.
Qed.

Lemma unique_step_with_id (targetStepId : string) (l : list FormStep) :
  List.NoDup (map s_id l) ->
  (length (List.filter (fun st => String.eqb (s_id st) targetStepId) l) <= 1)%nat.
Proof.
  induction l as [|y l IH]; simpl; intros H; [lia|].
  inversion H as [|? ? Hy Hl]; subst. specialize (IH Hl).
  destruct (String.eqb_spec (s_id y) targetStepId) as [E|_]; [|exact IH].
  simpl. destruct (List.filter _ l) as [|st r] eqn:Ef; [simpl; lia|].
  exfalso. apply Hy.
  assert (Hst : In st (List.filter (fun st => String.eqb (s_id st) targetStepId) l))
    by (rewrite Ef; left; reflexivity).
  apply filter_In in Hst as [Hst Hid]. apply String.eqb_eq in Hid.
  rewrite E, <- Hid. apply in_map. exact Hst.
Qed.

Lemma doc_ok_addField (uuid1 uuid2 : string) (type : FieldType) (s : FormBuilderState) :
  doc_ok (fields s) (steps s) -> ~ In uuid1 (field_ids (fields s)) ->
  doc_ok (fields (addField uuid1 uuid2 type s)) (steps (addField uuid1 uuid2 type s)).
Proof.
  intros (Hocc & Hin & Hnd) Hfresh.
  assert (Hnew : occ uuid1 (step_field_ids (steps s)) = 0%nat).
  { destruct (occ uuid1 (step_field_ids (steps s))) eqn:E; [reflexivity|].
    exfalso. apply Hfresh, Hin, occ_In. lia. }
  unfold addField. cbn [_addToHistory steps fields activeStepId].
  destruct (steps s) as [|first rest] eqn:Hs; cbn [fields steps].
  - repeat split.
    + intros x. unfold step_field_ids, occ. simpl.
      destruct (String.string_dec uuid1 x); lia.
    + intros x [<-|[]]. rewrite field_ids_app. apply in_or_app. right. left. reflexivity.
    + simpl. constructor; [intros [] | constructor].
  - set (l := first :: rest) in *.
    assert (Hgen : forall p,
      doc_ok (fields s ++ [Field (newField uuid1 type (Z.of_nat (length (fields s))))])
             (update_first p (push_fieldId uuid1) l)).
    { intros p. change (push_fieldId uuid1) with (append_fieldIds [uuid1]).
      repeat split.
      - intros x. rewrite update_first_occ. specialize (Hocc x).
        destruct (existsb p l); [|lia].
        rewrite occ_cons. unfold occ at 2. simpl.
        destruct (String.eqb_spec uuid1 x) as [<-|_]; lia.
      - intros x Hx. apply occ_In in Hx. rewrite update_first_occ in Hx.
        rewrite field_ids_app. apply in_or_app.
        destruct (String.eqb_spec uuid1 x) as [<-|Hne]; [right; left; reflexivity|].
        left. apply Hin, occ_In.
        destruct (existsb p l); [|lia].
        rewrite occ_cons in Hx. unfold occ at 2 in Hx. simpl in Hx.
        apply String.eqb_neq in Hne. rewrite Hne in Hx. lia.
      - rewrite update_first_ids. exact Hnd. }
    destruct (existsb _ l); apply Hgen.
Qed.

Lemma doc_ok_same_ids (fs fs' : list AnyFormField) (ss ss' : list FormStep) :
  doc_ok fs ss ->
  (forall x, In x (field_ids fs) -> In x (field_ids fs')) ->
  step_field_ids ss' = step_field_ids ss ->
  map s_id ss' = map s_id ss ->
  doc_ok fs' ss'.
Proof.
  intros (Hocc & Hin & Hnd) Hf Hs Hi. unfold doc_ok. rewrite Hs, Hi.
  repeat split; auto.
Qed.

Lemma doc_ok_updateField (i : string) (u : FieldUpdates) (s : FormBuilderState) :
  doc_ok (fields s) (steps s) -> u_id u = None ->
  doc_ok (fields (updateField i u s)) (steps (updateField i u s)).
Proof.
  intros H Hu. apply (doc_ok_same_ids _ _ _ _ H); try reflexivity.
  unfold updateField. cbn [_addToHistory fields]. rewrite field_ids_update, Hu.
  intros x Hx. apply in_map_iff. exists x. split; [|exact Hx].
  simpl. destruct (String.eqb x i); reflexivity.
Qed.

Lemma doc_ok_reorderFields (a b : Z) (s : FormBuilderState) :
  doc_ok (fields s) (steps s) ->
  doc_ok (fields (reorderFields a b s)) (steps (reorderFields a b s)).
Proof.
  intros H. apply (doc_ok_same_ids _ _ _ _ H).
  - intros x Hx. eapply Permutation_in; [|exact Hx].
    symmetry. apply reorderFields_ids.
  - unfold reorderFields. cbn [_addToHistory fields steps].
    destruct (splice_remove1 _ _). reflexivity.
  - unfold reorderFields. cbn [_addToHistory fields steps].
    destruct (splice_remove1 _ _). reflexivity.
Qed.

Lemma doc_ok_removeField (i : string) (s : FormBuilderState) :
  doc_ok (fields s) (steps s) ->
  doc_ok (fields (removeField i s)) (steps (removeField i s)).
Proof.
  intros (Hocc & Hin & Hnd). unfold removeField. cbn [_addToHistory fields steps].
  repeat split.
  - intros x. rewrite nonempty_steps_sids, without_field_sids, occ_keep_other.
    specialize (Hocc x). destruct (String.eqb x i); lia.
  - intros x. rewrite nonempty_steps_sids, without_field_sids, field_ids_filter.
    rewrite !keep_other_In. intros [Hx Hne]. auto.
  - apply filter_step_ids_NoDup. rewrite map_map. exact Hnd.
Qed.

Lemma doc_ok_addStep (uuid : string) (s : FormBuilderState) :
  doc_ok (fields s) (steps s) -> ~ In uuid (map s_id (steps s)) ->
  doc_ok (fields (addStep uuid s)) (steps (addStep uuid s)).
Proof.
  intros (Hocc & Hin & Hnd) Hfresh. unfold addStep. cbn [_addToHistory fields steps].
  repeat split.
  - intros x. rewrite sids_app, occ_app. specialize (Hocc x).
    change (step_field_ids [_]) with (@nil string). unfold occ at 2. simpl. lia.
  - intros x. rewrite sids_app. change (step_field_ids [_]) with (@nil string).
    rewrite app_nil_r. apply Hin.
  - rewrite map_app. simpl.
    apply List.NoDup_app; [exact Hnd | repeat constructor; intros [] |].
    intros y Hy [<-|[]]. exact (Hfresh Hy).
Qed.

Lemma doc_ok_updateStepName (stepId newName : string) (s : FormBuilderState) :
  doc_ok (fields s) (steps s) ->
  doc_ok (fields (updateStepName stepId newName s)) (steps (updateStepName stepId newName s)).
Proof.
  intros H. apply (doc_ok_same_ids _ _ _ _ H); [auto| |];
    unfold updateStepName; cbn [_addToHistory fields steps].
  - unfold step_field_ids. rewrite map_map. f_equal. apply map_ext.
    intros st. unfold renamed. destruct (String.eqb (s_id st) stepId); reflexivity.
  - rewrite map_map. apply map_ext.
    intros st. unfold renamed. destruct (String.eqb (s_id st) stepId); reflexivity.
Qed.

Lemma doc_ok_moveFieldToStep (fieldId targetStepId : string) (s : FormBuilderState) :
  doc_ok (fields s) (steps s) -> In fieldId (field_ids (fields s)) ->
  doc_ok (fields (moveFieldToStep fieldId targetStepId s))
         (steps (moveFieldToStep fieldId targetStepId s)).
Proof.
  intros (Hocc & Hin & Hnd) Hf. unfold moveFieldToStep. cbn [_addToHistory fields steps].
  repeat split.
  - intros x. rewrite move_steps_occ_eq. specialize (Hocc x).
    destruct (String.eqb x fieldId); [apply unique_step_with_id; exact Hnd | exact Hocc].
  - intros x Hx. apply occ_In in Hx. rewrite move_steps_occ_eq in Hx.
    destruct (String.eqb_spec x fieldId) as [E|_]; [subst x; exact Hf|].
    apply Hin, occ_In. exact Hx.
  - rewrite move_steps_ids. exact Hnd.
Qed.

Lemma doc_ok_removeStep (stepId : string) (s : FormBuilderState) :
  doc_ok (fields s) (steps s) ->
  doc_ok (fields (removeStep stepId s)) (steps (removeStep stepId s)).
Proof.
  intros (Hocc & Hin & Hnd). unfold removeStep. cbn [_addToHistory fields steps].
  destruct (find _ (steps s)) as [removed|] eqn:Hfind; [|repeat split; assumption].
  apply find_some in Hfind as [Hrem Hid].
  set (p := fun st => negb (String.eqb (s_id st) stepId)).
  assert (Hp : p removed = false) by (unfold p; rewrite Hid; reflexivity).
  assert (Hle : forall x l',
             (occ x (step_field_ids l')
              <= occ x (step_field_ids (List.filter p (steps s)))
                 + occ x (fieldIds removed))%nat ->
             (occ x (step_field_ids l') <= occ x (step_field_ids (steps s)))%nat).
  { intros x l' H. pose proof (dropped_step_occ p (steps s) removed x Hrem Hp). lia. }
  assert (Hgen : forall l',
             (forall x, (occ x (step_field_ids l')
                         <= occ x (step_field_ids (List.filter p (steps s)))
                            + occ x (fieldIds removed))%nat) ->
             map s_id l' = map s_id (List.filter p (steps s)) ->
             doc_ok (fields s) l').
  { intros l' H Hi. repeat split.
    - intros x. specialize (Hle x l' (H x)). specialize (Hocc x). lia.
    - intros x Hx. apply Hin, occ_In. apply occ_In in Hx.
      specialize (Hle x l' (H x)). lia.
    - rewrite Hi. apply filter_step_ids_NoDup. exact Hnd. }
  fold p. destruct (List.filter p (steps s)) as [|first rest] eqn:Hf; cbn [fields steps].
  - apply Hgen; [intros x; lia | reflexivity].
  - destruct (0 <? length (fieldIds removed))%nat.
    + apply Hgen; [|apply update_first_ids].
      intros x. rewrite update_first_occ. destruct (existsb _ _); lia.
    + apply Hgen; [intros x; lia | reflexivity].
Qed.

Lemma doc_ok_empty : doc_ok [] [].
Proof. repeat split; [intros x; unfold occ; simpl; lia | intros x [] | constructor]. Qed.

Lemma slice_last9_Forall {A} (P : A -> Prop) (l : list A) :
  Forall P l -> Forall P (slice_last9 l).
Proof.
  intros H. apply List.Forall_forall. intros x Hx. rewrite List.Forall_forall in H. apply H.
  unfold slice_last9 in Hx. rewrite <- (firstn_skipn (length l - 9) l).
  apply in_or_app. right. exact Hx.
Qed.

Lemma drop_last_Forall {A} (P : A -> Prop) (l : list A) :
  Forall P l -> Forall P (drop_last l).
Proof.
  intros H. apply List.Forall_forall. intros x Hx. rewrite List.Forall_forall in H. apply H.
  unfold drop_last in Hx. rewrite <- (firstn_skipn (length l - 1) l).
  apply in_or_app. left. exact Hx.
Qed.

Lemma doc_ok_mutating (a : Action) (s : FormBuilderState) :
  mutating a = true -> doc_ok (fields s) (steps s) -> admissible a s ->
  doc_ok (fields (run a s)) (steps (run a s)).
Proof.
  destruct a; cbn [mutating run admissible]; try discriminate; intros _ H Ha.
  - apply doc_ok_addField; assumption.
  - apply doc_ok_updateField; assumption.
  - apply doc_ok_removeField; assumption.
  - apply doc_ok_reorderFields; assumption.
  - exact H.
  - apply doc_ok_addStep; assumption.
  - apply doc_ok_updateStepName; assumption.
  - apply doc_ok_removeStep; assumption.
  - apply doc_ok_moveFieldToStep; assumption.
  - apply doc_ok_empty.
Qed.

Lemma state_ok_run (a : Action) (s : FormBuilderState) :
  state_ok s -> admissible a s -> state_ok (run a s).
Proof.
  intros (Hdoc & Hpast & Hfut) Ha.
  destruct (mutating a) eqn:Hm.
  - split; [apply doc_ok_mutating; assumption|].
    rewrite (past_after_mutation a s Hm), (future_after_mutation a s Hm).
    split; [|constructor].
    apply Forall_app. split; [apply slice_last9_Forall; exact Hpast|].
    constructor; [exact Hdoc | constructor].
  - destruct a; try discriminate Hm; cbn [run].
    + split; [exact Hdoc | split; assumption].
    + split; [exact Hdoc | split; assumption].
    + split; [exact Hdoc | split; assumption].
    + unfold undo. destruct (last (past s)) as [e|] eqn:El;
        [|split; [exact Hdoc | split; assumption]].
      assert (He : entry_ok e).
      { rewrite List.Forall_forall in Hpast. apply Hpast.
        apply last_Some in El as (l' & ->). apply in_or_app. right. left. reflexivity. }
      split; [exact He|]. split; cbn [past future].
      * apply drop_last_Forall. exact Hpast.
      * constructor; [exact Hdoc | exact Hfut].
    + unfold redo. destruct (future s) as [|e fut] eqn:Ef.
      * split; [exact Hdoc | split; [exact Hpast | rewrite Ef; constructor]].
      * inversion Hfut as [|? ? He Hfut']; subst.
        split; [exact He|]. split; cbn [past future]; [|exact Hfut'].
        apply Forall_app. split; [exact Hpast|]. constructor; [exact Hdoc | constructor].
Qed.

Lemma reachable_state_ok (s : FormBuilderState) : reachable s -> state_ok s.
Proof.
  induction 1 as [|a s _ IH Ha].
  - split; [apply doc_ok_empty | split; constructor].
  - apply state_ok_run; assumption.
Qed.

Lemma doc_ok_integrity (s : FormBuilderState) :
  doc_ok (fields s) (steps s) -> referential_integrity s.
Proof.
  intros (Hocc & Hin & _). split.
  - intros st i Hst Hi.
    assert (Hx : In i (field_ids (fields s))).
    { apply Hin, sids_In. exists st. auto. }
    apply field_ids_In in Hx as ([f|o] & Ha & E); [|discriminate E].
    exists f. split; [exact Ha | simpl in E; congruence].
  - intros n m st1 st2 i Hn Hm H1 H2.
    destruct (Nat.eq_dec n m) as [|Hne]; [assumption|exfalso].
    assert (Hgen : forall l n m st1 st2,
               (n < m)%nat -> nth_error l n = Some st1 -> nth_error l m = Some st2 ->
               In i (fieldIds st1) -> In i (fieldIds st2) ->
               (2 <= occ i (step_field_ids l))%nat).
    { clear. induction l as [|y l IH]; intros n m st1 st2 Hlt Hn Hm H1 H2.
      - destruct n; discriminate Hn.
      - rewrite sids_cons, occ_app. destruct m as [|m]; [lia|].
        simpl in Hm. destruct n as [|n].
        + simpl in Hn. injection Hn as ->.
          apply occ_In in H1.
          assert (0 < occ i (step_field_ids l))%nat.
          { apply occ_In, sids_In. exists st2. split; [|exact H2].
            eapply nth_error_In. exact Hm. }
          lia.
        + simpl in Hn. specialize (IH n m st1 st2 ltac:(lia) Hn Hm H1 H2). lia. }
    specialize (Hocc i).
    destruct (Nat.lt_ge_cases n m) as [Hlt|Hge].
    + specialize (Hgen (steps s) n m st1 st2 Hlt Hn Hm H1 H2). lia.
    + assert (m < n)%nat as Hlt by lia.
      specialize (Hgen (steps s) m n st2 st1 Hlt Hm Hn H2 H1). lia.
Qed.

(** C2, as stated, fails: [moveFieldToStep] does not check that the field
    exists.  After [addField] has created the field [a] in step [s1],
    [moveFieldToStep("ghost", "s1")] puts the id [ghost] into the list of
    [s1] although no field has that id.  ([updateField] with a partial
    update that carries an [id] breaks the property too: the field is
    renamed and the step keeps the old id.) *)
Lemma referential_integrity_counterexample :
  ~ (forall l : list Action,
       Forall (fun a => mutating a = true) l ->
       referential_integrity (run_all l initialFormBuilderState)).
Proof.
  intros H.
  specialize (H [AddField "a" "s1" text; MoveFieldToStep "ghost" "s1"]).
  destruct H as [H _]; [repeat constructor|].
  specialize (H {| s_id := "s1"; s_name := "Step 1"; fieldIds := ["a"; "ghost"] |} "ghost").
  destruct H as (f & Hf & Hid).
  - vm_compute. left. reflexivity.
  - right. left. reflexivity.
  - vm_compute in Hf. destruct Hf as [Hf|[]]. injection Hf as <-.
    discriminate Hid.
Qed.

(** C2, amended.  In every state reached from the initial document by
    store actions in which the generated identifiers are new (the field
    id for [addField], the step id for [addStep]), the partial update of
    [updateField] carries no [id], and [moveFieldToStep] is given the id
    of an existing field: every id in every step's [fieldIds] is the id
    of an existing field, and no field id is in the lists of two steps. *)
Theorem referential_integrity_reachable (s : FormBuilderState) :
  reachable s -> referential_integrity s.
Proof.
  intros H. apply doc_ok_integrity. apply (reachable_state_ok s H).
Qed.

Lemma referential_integrity_reachable_witness :
  referential_integrity
    (run (RemoveStep "s1")
       (run (MoveFieldToStep "a" "s2")
          (run (AddStep "s2")
             (run (AddField "a" "s1" text) initialFormBuilderState)))).
Proof.
  apply referential_integrity_reachable.
  apply reachable_run;
    [apply reachable_run;
       [apply reachable_run; [apply reachable_run; [apply reachable_init|] |] |] |].
  - simpl. intros [].
  - vm_compute. intros [E|[]]. discriminate E.
  - vm_compute. left. reflexivity.
  - exact I.
Defined.

(** ** The validation predicate *)

Lemma append_length (a b : string) :
  String.length (a +:+ b) = (String.length a + String.length b)%nat.
Proof. induction a as [|c a IH]; simpl; [reflexivity | rewrite IH; reflexivity]. Qed.

Lemma pattern_error_not_format_error (label : string) :
  pattern_error label <> format_error label.
Proof.
  intros H. apply (f_equal String.length) in H.
  unfold pattern_error, format_error in H. rewrite !append_length in H.
  simpl in H. lia.
Qed.

Lemma pattern_error_not_required_error (label : string) :
  pattern_error label <> required_error label.
Proof.
  intros H. apply (f_equal String.length) in H.
  unfold pattern_error, required_error in H. rewrite !append_length in H.
  simpl in H. lia.
Qed.

Lemma truthy_Some (p : string) : p <> "" -> truthy (Some p) = true /\ or_empty (Some p) = p.
Proof.
  intros H. simpl. destruct (String.eqb_spec p ""); [contradiction|]. auto.
Qed.

Lemma nonempty_by_length (s : string) :
  (0 < String.length s)%nat -> String.eqb s "" = false.
Proof. destruct s; simpl; [lia | reflexivity]. Qed.

(** What [validateField] reports for a required field with an empty
    value (for a [fileUpload] field: with no file selected): always an
    error, and [false].  The required message is the first one assigned,
    and each later check that fires overwrites it: on a [text] or
    [textarea] field a positive [minLength] gives the too-short message
    and a negative [maxLength] the too-long message, and on a [text]
    field a pattern that is not a regular expression gives the
    invalid-pattern message. *)
Lemma validateField_required_empty
    (RegExp : string -> option (string -> bool)) (field : FormField)
    (selectedFile : option string) (currentValue : string) :
  f_required field = true ->
  (if is_fileUpload (f_type field) then selectedFile = None else currentValue = "") ->
  let v := f_validation field in
  let textual := is_text (f_type field) || is_textarea (f_type field) in
  let msg :=
    if is_text (f_type field) && truthy (pattern v)
       && throws (RegExp (or_empty (pattern v)))
    then pattern_error (f_label field)
    else if textual && truthy_num (maxLength v) && (num_or_zero (maxLength v) <? 0)
    then too_long_error (f_label field) (num_or_zero (maxLength v))
    else if textual && truthy_num (minLength v) && (0 <? num_or_zero (minLength v))
    then too_short_error (f_label field) (num_or_zero (minLength v))
    else required_error (f_label field) in
  validateField RegExp field selectedFile currentValue = (Some msg, false).
Proof.
  intros Hreq Hcond v textual msg.
  assert (He : currentError RegExp field selectedFile currentValue = Some msg).
  { unfold currentError. subst msg textual v. rewrite Hreq.
    destruct (f_type field); cbn [is_text is_textarea is_checkbox is_fileUpload orb andb] in *;
      subst; cbn [String.eqb str_len String.length Z.of_nat]; try reflexivity.
    all: change (str_len "") with 0;
      try destruct (truthy (pattern (f_validation field)));
      try destruct (RegExp _); cbn [andb negb throws];
      repeat match goal with
             | |- context [if ?b then _ else _] => destruct b
             end;
      reflexivity. }
  assert (Hmsg : String.eqb msg "" = false).
  { apply nonempty_by_length. subst msg.
    repeat match goal with |- context [if ?b then _ else _] => destruct b end;
      unfold pattern_error, too_long_error, too_short_error, required_error;
      rewrite !append_length; simpl; lia. }
  unfold validateField. rewrite He. simpl. rewrite Hmsg. reflexivity.
Qed.

(** C6.  The claim holds of the filler's [validateStep], whose checks
    are chained with [else if]: there a required field with an empty
    value gets the required message, whatever its other rules.  It
    fails of [validateField], which makes the same checks one after the
    other, each assigning [currentError]: for the required text field
    [Name] with [minLength = 3] and the empty value it reports the
    too-short message. *)
Theorem required_error_overwritten (RegExp : string -> option (string -> bool)) :
  let field :=
    merge (newField "f1" text 0)
      (mkUpdates None None (Some "Name") None (Some true) None None
         (Some (mkValidation (Some 3) None None)) None None None) in
  f_required field = true
  /\ validateField RegExp field None ""
     = (Some "Name must be at least 3 characters.", false)
  /\ required_error (f_label field) = "Name is required."
  /\ Filler.field_error RegExp (Field field) "" = Some "Name is required."
  /\ (forall f : FormField,
        f_required f = true ->
        Filler.field_error RegExp (Field f) "" = Some (required_error (f_label f))).
Proof.
  cbv zeta. split; [reflexivity|]. split; [reflexivity|].
  split; [reflexivity|]. split; [reflexivity|].
  intros f Hreq. unfold Filler.field_error. rewrite Hreq. reflexivity.
Qed.

(** C7.  On a [text] field with a pattern (a non-empty string: the
    properties panel stores the empty string when no pattern is wanted,
    and [validateField] skips the check for it), a non-empty value that
    the regular expression does not match gets the format message; a
    pattern that [new RegExp] rejects gets the invalid-pattern message,
    for every value.  In both cases [validateField] returns normally,
    with [false]; the invalid-pattern message differs from the format
    message and from the required message. *)
Theorem pattern_check
    (RegExp : string -> option (string -> bool)) (field : FormField)
    (selectedFile : option string) (currentValue p : string) :
  f_type field = text ->
  pattern (f_validation field) = Some p ->
  p <> "" ->
  match RegExp p with
  | Some regex_test =>
      currentValue <> "" -> regex_test currentValue = false ->
      validateField RegExp field selectedFile currentValue
      = (Some (format_error (f_label field)), false)
  | None =>
      validateField RegExp field selectedFile currentValue
      = (Some (pattern_error (f_label field)), false)
  end
  /\ pattern_error (f_label field) <> format_error (f_label field)
  /\ pattern_error (f_label field) <> required_error (f_label field).
Proof.
  intros Ht Hp Hne.
  split; [|split; [apply pattern_error_not_format_error
                  | apply pattern_error_not_required_error]].
  destruct (truthy_Some p Hne) as [Htr Hor].
  unfold validateField, currentError. rewrite Ht, Hp, Htr, Hor.
  cbn [is_text is_textarea orb andb].
  destruct (RegExp p) as [regex_test|].
  - intros Hv Hm. rewrite Hm. apply String.eqb_neq in Hv. rewrite Hv.
    cbn [negb andb truthy]. rewrite nonempty_by_length; [reflexivity|].
    unfold format_error. rewrite append_length. simpl. lia.
  - cbn [truthy]. rewrite nonempty_by_length; [reflexivity|].
    unfold pattern_error. rewrite !append_length. simpl. lia.
Qed.

Lemma pattern_check_witness :
  let email := merge (newField "f1" text 0)
                 (mkUpdates None None (Some "Email") None None None None
                    (Some (mkValidation None None (Some "@"))) None None None) in
  let broken := merge (newField "f2" text 1)
                  (mkUpdates None None (Some "Phone") None None None None
                     (Some (mkValidation None None (Some "(\d{3}"))) None None None) in
  validateField literalRegExp email None "not-an-email"
  = (Some (format_error "Email"), false)
  /\ validateField literalRegExp broken None "555"
     = (Some (pattern_error "Phone"), false).
Proof.
  split.
  - apply (proj1 (pattern_check literalRegExp
             (merge (newField "f1" text 0)
                (mkUpdates None None (Some "Email") None None None None
                   (Some (mkValidation None None (Some "@"))) None None None))
             None "not-an-email" "@" eq_refl eq_refl ltac:(discriminate)));
      [discriminate | reflexivity].
  - apply (proj1 (pattern_check literalRegExp
             (merge (newField "f2" text 1)
                (mkUpdates None None (Some "Phone") None None None None
                   (Some (mkValidation None None (Some "(\d{3}"))) None None None))
             None "555" "(\d{3}" eq_refl eq_refl ltac:(discriminate))).
Defined.

(** ** The heap: allocation and reading *)

Lemma alloc_fresh (c : Refs.cell) (h : Refs.heap) (l : Refs.loc) (h' : Refs.heap) :
  Refs.alloc c h = (l, h') ->
  h !! l = None /\ h' = <[l := c]> h.
Proof.
  unfold Refs.alloc. intros [= <- <-]. split; [|reflexivity].
  apply not_elem_of_dom, is_fresh.
Qed.

Lemma alloc_extends (c : Refs.cell) (h : Refs.heap) (l : Refs.loc) (h' : Refs.heap) :
  Refs.alloc c h = (l, h') -> h ⊆ h' /\ h' !! l = Some c /\ h !! l = None.
Proof.
  intros [Hn ->]%alloc_fresh. split; [apply insert_subseteq; exact Hn|].
  split; [apply lookup_insert_eq | exact Hn].
Qed.

Lemma agree_mono (X Y : gset Refs.loc) (h h' : Refs.heap) :
  X ⊆ Y -> agree Y h h' -> agree X h h'.
Proof. intros HXY H l Hl. apply H, HXY, Hl. Qed.

Lemma extends_agree (X : gset Refs.loc) (h h' : Refs.heap) :
  h ⊆ h' -> (forall l, l ∈ X -> is_Some (h !! l)) -> agree X h h'.
Proof.
  intros Hsub HX l Hl. destruct (HX l Hl) as [c Hc].
  rewrite Hc. eapply lookup_weaken; eassumption.
Qed.

Lemma read_field_Some (h : Refs.heap) (l : Refs.loc) (n : Refs.loc * AnyFormField) :
  Refs.read_field h l = Some n <-> fst n = l /\ h !! l = Some (Refs.CField (snd n)).
Proof.
  unfold Refs.read_field. destruct n as [l' f]. simpl.
  destruct (h !! l) as [[]|]; split; try (intros [= <- <-]; auto); try discriminate;
    intros [<- [= <-]]; reflexivity || discriminate.
Qed.

Lemma read_step_Some (h : Refs.heap) (l : Refs.loc) (n : Refs.StepNode) :
  Refs.read_step h l = Some n <->
  Refs.sn_loc n = l
  /\ h !! l = Some (Refs.CStep (s_id (Refs.sn_val n)) (s_name (Refs.sn_val n)) (Refs.sn_ids n))
  /\ h !! Refs.sn_ids n = Some (Refs.CIds (fieldIds (Refs.sn_val n))).
Proof.
  unfold Refs.read_step, Refs.read_ids. destruct n as [l' r [i name ids]]. simpl.
  split.
  - destruct (h !! l) as [[| i' name' r' | |]|]; try discriminate.
    destruct (h !! r') as [[| | ids' |]|] eqn:Hr; try discriminate.
    intros [= <- <- <- <- <-]. auto.
  - intros (<- & -> & ->). reflexivity.
Qed.

Lemma read_fields_Some (h : Refs.heap) (fl : Refs.loc) (fn : list (Refs.loc * AnyFormField)) :
  Refs.read_fields h fl = Some fn <->
  h !! fl = Some (Refs.CArr (map fst fn))
  /\ Forall (fun n => h !! fst n = Some (Refs.CField (snd n))) fn.
Proof.
  unfold Refs.read_fields, Refs.read_arr. split.
  - destruct (h !! fl) as [[| | | ls]|]; try discriminate.
    intros H%mapM_Some_1. induction H as [|l n ls fn Hn _ IH]; [split; [reflexivity | constructor]|].
    apply read_field_Some in Hn as [<- Hc]. destruct IH as [[= ->] IH].
    split; [reflexivity | constructor; assumption].
  - intros [-> H]. apply mapM_Some_2.
    induction H as [|n fn Hn _ IH]; simpl; constructor; [|exact IH].
    apply read_field_Some. auto.
Qed.

Lemma read_steps_Some (h : Refs.heap) (sl : Refs.loc) (sn : list Refs.StepNode) :
  Refs.read_steps h sl = Some sn <->
  h !! sl = Some (Refs.CArr (map Refs.sn_loc sn))
  /\ Forall (fun n => Refs.read_step h (Refs.sn_loc n) = Some n) sn.
Proof.
  unfold Refs.read_steps, Refs.read_arr. split.
  - destruct (h !! sl) as [[| | | ls]|]; try discriminate.
    intros H%mapM_Some_1. induction H as [|l n ls sn Hn _ IH]; [split; [reflexivity | constructor]|].
    pose proof Hn as Hn'. apply read_step_Some in Hn' as [<- _]. destruct IH as [[= ->] IH].
    split; [reflexivity | constructor; assumption].
  - intros [-> H]. apply mapM_Some_2.
    induction H as [|n sn Hn _ IH]; simpl; constructor; assumption.
Qed.

Lemma read_step_agree (h h' : Refs.heap) (n : Refs.StepNode) :
  Refs.read_step h (Refs.sn_loc n) = Some n ->
  h' !! Refs.sn_loc n = h !! Refs.sn_loc n ->
  h' !! Refs.sn_ids n = h !! Refs.sn_ids n ->
  Refs.read_step h' (Refs.sn_loc n) = Some n.
Proof.
  intros (_ & H1 & H2)%read_step_Some E1 E2. apply read_step_Some.
  rewrite E1, E2. auto.
Qed.

Lemma read_fields_agree (h h' : Refs.heap) (fl : Refs.loc)
    (fn : list (Refs.loc * AnyFormField)) :
  Refs.read_fields h fl = Some fn -> agree ({[fl]} ∪ field_locs fn) h h' ->
  Refs.read_fields h' fl = Some fn.
Proof.
  intros [Ha Hf]%read_fields_Some Hag. apply read_fields_Some. split.
  - rewrite Hag; [exact Ha | set_solver].
  - rewrite List.Forall_forall in *. intros n Hn. rewrite Hag; [apply Hf, Hn|].
    unfold field_locs. apply elem_of_union_r, elem_of_list_to_set, list_elem_of_In.
    apply in_map, Hn.
Qed.

Lemma read_steps_agree (h h' : Refs.heap) (sl : Refs.loc) (sn : list Refs.StepNode) :
  Refs.read_steps h sl = Some sn -> agree ({[sl]} ∪ step_locs sn) h h' ->
  Refs.read_steps h' sl = Some sn.
Proof.
  intros [Ha Hf]%read_steps_Some Hag. apply read_steps_Some. split.
  - rewrite Hag; [exact Ha | set_solver].
  - rewrite List.Forall_forall in *. intros n Hn.
    assert (Hin : forall l, In l (Refs.node_locs n) -> l ∈ {[sl]} ∪ step_locs sn).
    { intros l Hl. unfold step_locs.
      apply elem_of_union_r, elem_of_list_to_set, list_elem_of_In, in_flat_map. eauto. }
    apply (read_step_agree h h' n (Hf n Hn)); apply Hag, Hin; simpl; auto.
Qed.

(** The footprint of a readable document, spelled out. *)
Lemma footprint_read (h : Refs.heap) (fl sl : Refs.loc)
    (fn : list (Refs.loc * AnyFormField)) (sn : list Refs.StepNode) :
  Refs.read_fields h fl = Some fn -> Refs.read_steps h sl = Some sn ->
  Refs.footprint h fl sl = {[fl]} ∪ {[sl]} ∪ field_locs fn ∪ step_locs sn.
Proof. intros Hf Hs. unfold Refs.footprint. rewrite Hf, Hs. reflexivity. Qed.

Lemma footprint_allocated (h : Refs.heap) (fl sl : Refs.loc) (l : Refs.loc) :
  Refs.wf_doc h fl sl -> l ∈ Refs.footprint h fl sl -> is_Some (h !! l).
Proof.
  intros (fn & sn & Hf & Hs & _) Hl. rewrite (footprint_read h fl sl fn sn Hf Hs) in Hl.
  apply read_fields_Some in Hf as [Hfa Hfn]. apply read_steps_Some in Hs as [Hsa Hsn].
  rewrite !elem_of_union, !elem_of_singleton in Hl.
  destruct Hl as [[[-> | ->] | Hl] | Hl]; eauto.
  - unfold field_locs in Hl. apply elem_of_list_to_set, list_elem_of_In, in_map_iff in Hl.
    destruct Hl as (n & <- & Hn). rewrite List.Forall_forall in Hfn. eauto.
  - unfold step_locs in Hl. apply elem_of_list_to_set, list_elem_of_In, in_flat_map in Hl.
    destruct Hl as (n & Hn & Hl). rewrite List.Forall_forall in Hsn.
    apply Hsn, read_step_Some in Hn as (_ & H1 & H2).
    destruct Hl as [<-|[<-|[]]]; eauto.
Qed.

(** A document read in [h] reads the same in every heap that agrees with
    [h] on its footprint. *)
Lemma wf_doc_agree (h h' : Refs.heap) (fl sl : Refs.loc) :
  Refs.wf_doc h fl sl -> agree (Refs.footprint h fl sl) h h' ->
  Refs.wf_doc h' fl sl
  /\ Refs.read_fields h' fl = Refs.read_fields h fl
  /\ Refs.read_steps h' sl = Refs.read_steps h sl
  /\ Refs.footprint h' fl sl = Refs.footprint h fl sl.
Proof.
  intros (fn & sn & Hf & Hs & Hnd) Hag.
  rewrite (footprint_read h fl sl fn sn Hf Hs) in Hag.
  assert (Hf' : Refs.read_fields h' fl = Some fn).
  { apply (read_fields_agree h); [exact Hf|]. eapply agree_mono; [|exact Hag]. set_solver. }
  assert (Hs' : Refs.read_steps h' sl = Some sn).
  { apply (read_steps_agree h); [exact Hs|]. eapply agree_mono; [|exact Hag]. set_solver. }
  split; [exists fn, sn; auto|].
  rewrite Hf, Hs, Hf', Hs'. split; [reflexivity|]. split; [reflexivity|].
  rewrite (footprint_read h fl sl fn sn Hf Hs), (footprint_read h' fl sl fn sn Hf' Hs').
  reflexivity.
Qed.

Lemma wf_doc_extends (h h' : Refs.heap) (fl sl : Refs.loc) :
  Refs.wf_doc h fl sl -> h ⊆ h' ->
  Refs.wf_doc h' fl sl
  /\ Refs.read_fields h' fl = Refs.read_fields h fl
  /\ Refs.read_steps h' sl = Refs.read_steps h sl
  /\ Refs.footprint h' fl sl = Refs.footprint h fl sl.
Proof.
  intros Hwf Hsub. apply wf_doc_agree; [exact Hwf|].
  apply extends_agree; [exact Hsub|]. intros l. apply footprint_allocated, Hwf.
Qed.

(** ** Allocating arrays of objects *)

Lemma step_locs_elem (sn : list Refs.StepNode) (l : Refs.loc) :
  l ∈ step_locs sn <-> exists n, In n sn /\ (l = Refs.sn_loc n \/ l = Refs.sn_ids n).
Proof.
  unfold step_locs. rewrite elem_of_list_to_set, list_elem_of_In, in_flat_map.
  split; intros (n & Hn & Hl); exists n; (split; [exact Hn|]).
  - destruct Hl as [<-|[<-|[]]]; auto.
  - destruct Hl as [->| ->]; simpl; auto.
Qed.

Lemma field_locs_elem (fn : list (Refs.loc * AnyFormField)) (l : Refs.loc) :
  l ∈ field_locs fn <-> exists n, In n fn /\ l = fst n.
Proof.
  unfold field_locs. rewrite elem_of_list_to_set, list_elem_of_In, in_map_iff.
  split; intros (n & H1 & H2); exists n; auto.
Qed.

Lemma alloc_fields_spec (fs : list AnyFormField) (h : Refs.heap)
    (ls : list Refs.loc) (h' : Refs.heap) :
  Refs.alloc_fields fs h = (ls, h') ->
  h ⊆ h'
  /\ exists fn, map fst fn = ls /\ map snd fn = fs
       /\ Forall (fun n => h' !! fst n = Some (Refs.CField (snd n))) fn
       /\ Forall (fun n => h !! fst n = None) fn.
Proof.
  revert h ls h'. induction fs as [|f fs IH]; intros h ls h'; cbn [Refs.alloc_fields].
  - intros [= <- <-]. split; [reflexivity|]. exists []. repeat split; constructor.
  - destruct (Refs.alloc (Refs.CField f) h) as [l h1] eqn:Ha.
    destruct (Refs.alloc_fields fs h1) as [ls' h2] eqn:Hr.
    intros [= <- <-].
    apply alloc_extends in Ha as (Hsub1 & Hl1 & Hl0).
    destruct (IH _ _ _ Hr) as (Hsub2 & fn & Hfst & Hsnd & Hin & Hout).
    split; [etransitivity; eassumption|].
    exists ((l, f) :: fn). simpl. rewrite Hfst, Hsnd. repeat split.
    + constructor; [eapply lookup_weaken; eassumption | exact Hin].
    + constructor; [exact Hl0|].
      eapply Forall_impl; [exact Hout|]. intros n Hn. simpl in Hn.
      eapply lookup_weaken_None; eassumption.
Qed.

Lemma new_fields_array (fn : list (Refs.loc * AnyFormField)) (h : Refs.heap)
    (fl : Refs.loc) (h' : Refs.heap) :
  Forall (fun n => h !! fst n = Some (Refs.CField (snd n))) fn ->
  Refs.alloc (Refs.CArr (map fst fn)) h = (fl, h') ->
  h ⊆ h' /\ h !! fl = None /\ Refs.read_fields h' fl = Some fn.
Proof.
  intros Hfn (Hsub & Hl & Hn)%alloc_extends. split; [exact Hsub|]. split; [exact Hn|].
  apply read_fields_Some. split; [exact Hl|].
  eapply Forall_impl; [exact Hfn|]. intros n Hc. simpl in *.
  eapply lookup_weaken; eassumption.
Qed.

Lemma read_step_extends (h h' : Refs.heap) (l : Refs.loc) (n : Refs.StepNode) :
  h ⊆ h' -> Refs.read_step h l = Some n -> Refs.read_step h' l = Some n.
Proof.
  intros Hsub (<- & H1 & H2)%read_step_Some. apply read_step_Some.
  split; [reflexivity|]. split; eapply lookup_weaken; eassumption.
Qed.

Lemma alloc_step_spec (st : FormStep) (h : Refs.heap) (n : Refs.StepNode) (h' : Refs.heap) :
  Refs.alloc_step st h = (n, h') ->
  h ⊆ h' /\ Refs.sn_val n = st /\ Refs.read_step h' (Refs.sn_loc n) = Some n
  /\ h !! Refs.sn_loc n = None /\ h !! Refs.sn_ids n = None
  /\ Refs.sn_loc n <> Refs.sn_ids n.
Proof.
  unfold Refs.alloc_step.
  destruct (Refs.alloc (Refs.CIds (fieldIds st)) h) as [r h1] eqn:Hr.
  destruct (Refs.alloc _ h1) as [l h2] eqn:Hl. intros [= <- <-]. simpl.
  apply alloc_extends in Hr as (Hsub1 & Hr1 & Hr0).
  apply alloc_extends in Hl as (Hsub2 & Hl2 & Hl1).
  split; [etransitivity; eassumption|]. split; [reflexivity|].
  split; [|split; [|split]].
  - apply read_step_Some. simpl. split; [reflexivity|]. split; [exact Hl2|].
    eapply lookup_weaken; eassumption.
  - eapply lookup_weaken_None; eassumption.
  - exact Hr0.
  - intros ->. congruence.
Qed.

Lemma alloc_steps_spec (sts : list FormStep) (h : Refs.heap)
    (ns : list Refs.StepNode) (h' : Refs.heap) :
  Refs.alloc_steps sts h = (ns, h') ->
  h ⊆ h'
  /\ map Refs.sn_val ns = sts
  /\ Forall (fun n => Refs.read_step h' (Refs.sn_loc n) = Some n) ns
  /\ (forall l, l ∈ step_locs ns -> h !! l = None)
  /\ NoDup (flat_map Refs.node_locs ns).
Proof.
  revert h ns h'. induction sts as [|st sts IH]; intros h ns h'; cbn [Refs.alloc_steps].
  - intros [= <- <-]. split; [reflexivity|]. split; [reflexivity|].
    split; [constructor|]. split; [|constructor].
    intros l Hl. apply step_locs_elem in Hl as (n & [] & _).
  - destruct (Refs.alloc_step st h) as [n h1] eqn:Hn.
    destruct (Refs.alloc_steps sts h1) as [ns' h2] eqn:Hr.
    intros [= <- <-].
    apply alloc_step_spec in Hn as (Hsub1 & Hval & Hread & Hl0 & Hr0 & Hne).
    destruct (IH _ _ _ Hr) as (Hsub2 & Hvals & Hreads & Hfresh & Hnd).
    split; [etransitivity; eassumption|].
    split; [simpl; rewrite Hval, Hvals; reflexivity|].
    split; [constructor; [eapply read_step_extends; eassumption | exact Hreads]|].
    pose proof Hread as (_ & Hc1 & Hc2)%read_step_Some.
    split.
    + intros l (m & [<-|Hm] & Hl)%step_locs_elem.
      * destruct Hl as [-> | ->]; assumption.
      * eapply lookup_weaken_None; [|exact Hsub1].
        apply Hfresh, step_locs_elem. eauto.
    + simpl. apply NoDup_cons. split.
      * rewrite elem_of_cons. intros [E|Hin]; [contradiction|].
        assert (Hx : Refs.sn_loc n ∈ step_locs ns')
          by (unfold step_locs; rewrite elem_of_list_to_set; exact Hin).
        apply Hfresh in Hx. congruence.
      * apply NoDup_cons. split; [|exact Hnd].
        intros Hin.
        assert (Hx : Refs.sn_ids n ∈ step_locs ns')
          by (unfold step_locs; rewrite elem_of_list_to_set; exact Hin).
        apply Hfresh in Hx. congruence.
Qed.

Lemma new_steps_array (ns : list Refs.StepNode) (h : Refs.heap)
    (sl : Refs.loc) (h' : Refs.heap) :
  Forall (fun n => Refs.read_step h (Refs.sn_loc n) = Some n) ns ->
  Refs.alloc (Refs.CArr (map Refs.sn_loc ns)) h = (sl, h') ->
  h ⊆ h' /\ h !! sl = None /\ Refs.read_steps h' sl = Some ns.
Proof.
  intros Hns (Hsub & Hl & Hn)%alloc_extends. split; [exact Hsub|]. split; [exact Hn|].
  apply read_steps_Some. split; [exact Hl|].
  eapply Forall_impl; [exact Hns|]. intros n Hc. simpl in *.
  eapply read_step_extends; eassumption.
Qed.

Lemma NoDup_node_locs (ns : list Refs.StepNode) :
  NoDup (flat_map Refs.node_locs ns) -> NoDup (map Refs.sn_loc ns).
Proof.
  induction ns as [|n ns IH]; simpl; intros H; [constructor|].
  apply NoDup_cons in H as [H1 H2]. apply NoDup_cons in H2 as [H2 H3].
  apply NoDup_cons. split; [|apply IH, H3].
  intros Hin. apply H1. rewrite elem_of_cons. right.
  apply list_elem_of_In in Hin. apply in_map_iff in Hin as (m & E & Hm).
  apply list_elem_of_In, in_flat_map. exists m. split; [exact Hm|]. simpl. auto.
Qed.

Lemma replace_fields_spec (cond : AnyFormField -> bool) (f : AnyFormField -> AnyFormField)
    (nodes : list (Refs.loc * AnyFormField)) (h : Refs.heap)
    (ls : list Refs.loc) (h' : Refs.heap) :
  Forall (fun n => h !! fst n = Some (Refs.CField (snd n))) nodes ->
  Refs.replace_fields cond f nodes h = (ls, h') ->
  h ⊆ h'
  /\ exists fn, map fst fn = ls
       /\ map snd fn = map (fun a => if cond a then f a else a) (map snd nodes)
       /\ Forall (fun n => h' !! fst n = Some (Refs.CField (snd n))) fn
       /\ (forall l, l ∈ field_locs fn -> l ∈ field_locs nodes \/ h !! l = None).
Proof.
  revert h ls h'. induction nodes as [|[l a] nodes IH]; intros h ls h' Hn;
    cbn [Refs.replace_fields].
  - intros [= <- <-]. split; [reflexivity|]. exists []. repeat split; [constructor|].
    intros l (n & [] & _)%field_locs_elem.
  - apply Forall_cons in Hn as [Hl Hn]. simpl in Hl.
    destruct (cond a) eqn:Hc.
    + destruct (Refs.alloc (Refs.CField (f a)) h) as [l' h1] eqn:Ha.
      destruct (Refs.replace_fields cond f nodes h1) as [ls' h2] eqn:Hr.
      intros [= <- <-].
      apply alloc_extends in Ha as (Hsub1 & Hl1 & Hl0).
      assert (Hn1 : Forall (fun n => h1 !! fst n = Some (Refs.CField (snd n))) nodes).
      { eapply Forall_impl; [exact Hn|]. intros n Hc'. simpl in *.
        eapply lookup_weaken; eassumption. }
      destruct (IH _ _ _ Hn1 Hr) as (Hsub2 & fn & Hfst & Hsnd & Hin & Hloc).
      split; [etransitivity; eassumption|].
      exists ((l', f a) :: fn). simpl. rewrite Hfst, Hsnd, Hc.
      split; [reflexivity|]. split; [reflexivity|]. split.
      * constructor; [eapply lookup_weaken; eassumption | exact Hin].
      * intros x (n & [<-|Hin'] & ->)%field_locs_elem; [right; exact Hl0|].
        destruct (Hloc (fst n)) as [Hold|Hnew].
        { apply field_locs_elem. eauto. }
        { left. apply field_locs_elem in Hold as (m & Hm & E).
          apply field_locs_elem. exists m. split; [right; exact Hm | exact E]. }
        { right. eapply lookup_weaken_None; eassumption. }
    + destruct (Refs.replace_fields cond f nodes h) as [ls' h2] eqn:Hr.
      intros [= <- <-].
      destruct (IH _ _ _ Hn Hr) as (Hsub2 & fn & Hfst & Hsnd & Hin & Hloc).
      split; [exact Hsub2|].
      exists ((l, a) :: fn). simpl. rewrite Hfst, Hsnd, Hc.
      split; [reflexivity|]. split; [reflexivity|]. split.
      * constructor; [eapply lookup_weaken; eassumption | exact Hin].
      * intros x (n & [<-|Hin'] & ->)%field_locs_elem.
        { left. apply field_locs_elem. exists (l, a). split; [left; reflexivity | reflexivity]. }
        destruct (Hloc (fst n)) as [Hold|Hnew].
        { apply field_locs_elem. eauto. }
        { left. apply field_locs_elem in Hold as (m & Hm & E).
          apply field_locs_elem. exists m. split; [right; exact Hm | exact E]. }
        { right. exact Hnew. }
Qed.

Lemma rename_steps_spec (cond : FormStep -> bool) (name : string)
    (nodes : list Refs.StepNode) (h : Refs.heap) (ls : list Refs.loc) (h' : Refs.heap) :
  Forall (fun n => Refs.read_step h (Refs.sn_loc n) = Some n) nodes ->
  NoDup (map Refs.sn_loc nodes) ->
  Refs.rename_steps cond name nodes h = (ls, h') ->
  h ⊆ h'
  /\ exists ns, map Refs.sn_loc ns = ls
       /\ map Refs.sn_val ns = map (renamed cond name) (map Refs.sn_val nodes)
       /\ Forall (fun n => Refs.read_step h' (Refs.sn_loc n) = Some n) ns
       /\ NoDup (map Refs.sn_loc ns)
       /\ (forall n, In n ns ->
             (In (Refs.sn_loc n) (map Refs.sn_loc nodes) \/ h !! Refs.sn_loc n = None)
             /\ In (Refs.sn_ids n) (map Refs.sn_ids nodes)).
Proof.
  revert h ls h'. induction nodes as [|n nodes IH]; intros h ls h' Hn Hnd;
    cbn [Refs.rename_steps].
  - intros [= <- <-]. split; [reflexivity|]. exists [].
    repeat split; try constructor; destruct H.
  - apply Forall_cons in Hn as [Hl Hn]. simpl in Hnd.
    apply NoDup_cons in Hnd as [Hfirst Hnd].
    pose proof Hl as (_ & Hc1 & Hc2)%read_step_Some.
    destruct (cond (Refs.sn_val n)) eqn:Hc.
    + destruct (Refs.alloc _ h) as [l' h1] eqn:Ha.
      destruct (Refs.rename_steps cond name nodes h1) as [ls' h2] eqn:Hr.
      intros [= <- <-].
      apply alloc_extends in Ha as (Hsub1 & Hl1 & Hl0).
      assert (Hn1 : Forall (fun n => Refs.read_step h1 (Refs.sn_loc n) = Some n) nodes).
      { eapply Forall_impl; [exact Hn|]. intros m Hm. simpl in *.
        eapply read_step_extends; eassumption. }
      destruct (IH _ _ _ Hn1 Hnd Hr) as (Hsub2 & ns & Hlocs & Hvals & Hreads & Hnd' & Hwhere).
      split; [etransitivity; eassumption|].
      exists ({| Refs.sn_loc := l'; Refs.sn_ids := Refs.sn_ids n;
                 Refs.sn_val := {| s_id := s_id (Refs.sn_val n); s_name := name;
                                   fieldIds := fieldIds (Refs.sn_val n) |} |} :: ns).
      assert (Hren : renamed cond name (Refs.sn_val n)
                     = {| s_id := s_id (Refs.sn_val n); s_name := name;
                          fieldIds := fieldIds (Refs.sn_val n) |})
        by (unfold renamed; rewrite Hc; reflexivity).
      simpl. rewrite Hvals, Hren.
      split; [rewrite Hlocs; reflexivity|]. split; [reflexivity|]. split; [|split].
      * constructor; [|exact Hreads]. simpl. apply read_step_Some. simpl.
        assert (Hsub : h ⊆ h2) by (etransitivity; eassumption).
        split; [reflexivity|].
        split; [exact (lookup_weaken _ _ _ _ Hl1 Hsub2) | exact (lookup_weaken _ _ _ _ Hc2 Hsub)].
      * apply NoDup_cons. split; [|exact Hnd'].
        intros Hin. apply list_elem_of_In, in_map_iff in Hin as (m & E & Hm).
        destruct (Hwhere m Hm) as [[Hold|Hnew] _].
        { apply in_map_iff in Hold as (m' & E' & Hm').
          rewrite List.Forall_forall in Hn. specialize (Hn m' Hm').
          apply read_step_Some in Hn as (_ & Hcm & _). congruence. }
        { congruence. }
      * intros m [<-|Hm]; simpl.
        { split; [right; exact Hl0 | left; reflexivity]. }
        destruct (Hwhere m Hm) as [[Hold|Hnew] Hids].
        { split; [left; right; exact Hold | right; exact Hids]. }
        { split; [right; eapply lookup_weaken_None; eassumption | right; exact Hids]. }
    + destruct (Refs.rename_steps cond name nodes h) as [ls' h2] eqn:Hr.
      intros [= <- <-].
      destruct (IH _ _ _ Hn Hnd Hr) as (Hsub2 & ns & Hlocs & Hvals & Hreads & Hnd' & Hwhere).
      split; [exact Hsub2|].
      assert (Hren : renamed cond name (Refs.sn_val n) = Refs.sn_val n)
        by (unfold renamed; rewrite Hc; reflexivity).
      exists (n :: ns). simpl. rewrite Hvals, Hren.
      split; [rewrite Hlocs; reflexivity|]. split; [reflexivity|]. split; [|split].
      * constructor; [eapply read_step_extends; eassumption | exact Hreads].
      * apply NoDup_cons. split; [|exact Hnd'].
        intros Hin. apply list_elem_of_In, in_map_iff in Hin as (m & E & Hm).
        destruct (Hwhere m Hm) as [[Hold|Hnew] _].
        { apply Hfirst. rewrite <- E. apply list_elem_of_In. exact Hold. }
        { congruence. }
      * intros m [<-|Hm]; simpl.
        { split; [left; left; reflexivity | left; reflexivity]. }
        destruct (Hwhere m Hm) as [[Hold|Hnew] Hids].
        { split; [left; right; exact Hold | right; exact Hids]. }
        { split; [right; exact Hnew | right; exact Hids]. }
Qed.

(** ** Separation *)

Lemma union_list_submseteq (l1 l2 : list (gset Refs.loc)) :
  l1 ⊆+ l2 -> ⋃ l1 ⊆ ⋃ l2.
Proof.
  intros H x. rewrite !elem_of_union_list. intros (X & HX & Hx).
  exists X. split; [|exact Hx]. eapply elem_of_submseteq; eassumption.
Qed.

Lemma separate_submseteq (l1 l2 : list (gset Refs.loc)) :
  l1 ⊆+ l2 -> Refs.separate l2 -> Refs.separate l1.
Proof.
  induction 1 as [|X l1 l2 Hl IH|X Y l|X l1 l2 Hl IH|l1 l2 l3 _ IH1 _ IH2]; simpl.
  - auto.
  - intros [HX Hs]. split; [|apply IH, Hs].
    pose proof (union_list_submseteq _ _ Hl). set_solver.
  - intros [HY [HX Hs]]. split; [set_solver | split; [set_solver | exact Hs]].
  - intros [_ Hs]. apply IH, Hs.
  - auto.
Qed.

Lemma separate_cons_fresh (X : gset Refs.loc) (l : list (gset Refs.loc)) :
  (forall Y, Y ∈ l -> X ## Y) -> Refs.separate l -> Refs.separate (X :: l).
Proof.
  intros H Hs. split; [|exact Hs].
  intros x Hx (Y & HY & HxY)%elem_of_union_list. exact (H Y HY x Hx HxY).
Qed.

Lemma separate_lookup (X Y : gset Refs.loc) (l : list (gset Refs.loc)) :
  Refs.separate (X :: l) -> Y ∈ l -> X ## Y.
Proof.
  intros [H _] HY x Hx HxY. apply (H x Hx). apply elem_of_union_list. eauto.
Qed.

(** Replacing the first region by one that lies within it or outside
    every other region. *)
Lemma separate_replace_head (X X' : gset Refs.loc) (l : list (gset Refs.loc)) :
  Refs.separate (X :: l) ->
  (forall x, x ∈ X' -> x ∈ X \/ forall Y, Y ∈ l -> x ∉ Y) ->
  Refs.separate (X' :: l).
Proof.
  intros [H Hs] HX'. split; [|exact Hs].
  intros x Hx Hl. destruct (HX' x Hx) as [HxX|Hout]; [exact (H x HxX Hl)|].
  apply elem_of_union_list in Hl as (Y & HY & HxY). exact (Hout Y HY HxY).
Qed.

(** ** Reading from an extended heap *)

Lemma read_fields_extends (h h' : Refs.heap) (fl : Refs.loc)
    (fn : list (Refs.loc * AnyFormField)) :
  h ⊆ h' -> Refs.read_fields h fl = Some fn -> Refs.read_fields h' fl = Some fn.
Proof.
  intros Hsub [Ha Hf]%read_fields_Some. apply read_fields_Some.
  split; [eapply lookup_weaken; eassumption|].
  eapply Forall_impl; [exact Hf|]. intros n Hn. simpl in *. eapply lookup_weaken; eassumption.
Qed.

Lemma read_steps_extends (h h' : Refs.heap) (sl : Refs.loc) (sn : list Refs.StepNode) :
  h ⊆ h' -> Refs.read_steps h sl = Some sn -> Refs.read_steps h' sl = Some sn.
Proof.
  intros Hsub [Ha Hf]%read_steps_Some. apply read_steps_Some.
  split; [eapply lookup_weaken; eassumption|].
  eapply Forall_impl; [exact Hf|]. intros n Hn. simpl in *.
  eapply read_step_extends; eassumption.
Qed.

Lemma entry_at_agree (h h' : Refs.heap) (e : Refs.HistoryRef) :
  Refs.wf_doc h (Refs.rh_fields e) (Refs.rh_steps e) ->
  agree (Refs.entry_footprint h e) h h' ->
  Refs.entry_at h' e = Refs.entry_at h e
  /\ Refs.entry_footprint h' e = Refs.entry_footprint h e
  /\ Refs.wf_doc h' (Refs.rh_fields e) (Refs.rh_steps e).
Proof.
  intros Hwf Hag. destruct (wf_doc_agree _ _ _ _ Hwf Hag) as (Hwf' & Hf & Hs & Hfp).
  unfold Refs.entry_at, Refs.doc_at, Refs.entry_footprint. rewrite Hf, Hs. auto.
Qed.

(** What a snapshot is: new cells only, holding the value of the
    document. *)
Lemma snapshot_spec (s : Refs.Store) :
  Refs.wf_doc (Refs.heap_of s) (Refs.r_fields s) (Refs.r_steps s) ->
  exists e h',
    Refs.snapshot s = Some (e, h')
    /\ Refs.heap_of s ⊆ h'
    /\ Refs.wf_doc h' (Refs.rh_fields e) (Refs.rh_steps e)
    /\ Refs.doc_at h' (Refs.rh_fields e) (Refs.rh_steps e)
       = Refs.doc_at (Refs.heap_of s) (Refs.r_fields s) (Refs.r_steps s)
    /\ Refs.rh_activeStepId e = Refs.r_activeStepId s
    /\ Refs.rh_formName e = Refs.r_formName s
    /\ Refs.rh_theme e = Refs.r_theme s
    /\ (forall l, l ∈ Refs.entry_footprint h' e -> Refs.heap_of s !! l = None).
Proof.
  intros (fn & sn & Hf & Hs & Hnd). unfold Refs.snapshot, Refs.clone_fields, Refs.clone_steps.
  set (h := Refs.heap_of s) in *. rewrite Hf.
  destruct (Refs.alloc_fields (map snd fn) h) as [ls h1] eqn:Haf.
  destruct (Refs.alloc (Refs.CArr ls) h1) as [fl' h2] eqn:Hfa.
  destruct (alloc_fields_spec _ _ _ _ Haf) as (Hsub1 & fn' & Hfst & Hsnd & Hin1 & Hout1).
  rewrite <- Hfst in Hfa.
  destruct (new_fields_array _ _ _ _ Hin1 Hfa) as (Hsub2 & Hfl' & Hread2).
  assert (Hsub02 : h ⊆ h2) by (etransitivity; eassumption).
  rewrite (read_steps_extends _ _ _ _ Hsub02 Hs).
  destruct (Refs.alloc_steps (map Refs.sn_val sn) h2) as [ns h3] eqn:Has.
  destruct (Refs.alloc (Refs.CArr (map Refs.sn_loc ns)) h3) as [sl' h4] eqn:Hsa.
  destruct (alloc_steps_spec _ _ _ _ Has) as (Hsub3 & Hvals & Hreads & Hfresh & Hnd3).
  destruct (new_steps_array _ _ _ _ Hreads Hsa) as (Hsub4 & Hsl' & Hread4).
  assert (Hsub24 : h2 ⊆ h4) by (etransitivity; eassumption).
  assert (Hsub04 : h ⊆ h4) by (etransitivity; eassumption).
  pose proof (read_fields_extends _ _ _ _ Hsub24 Hread2) as Hread2'.
  eexists _, h4. split; [reflexivity|]. simpl.
  split; [exact Hsub04|]. split; [|split; [|split; [|split; [|split]]]]; try reflexivity.
  - exists fn', ns. split; [exact Hread2'|]. split; [exact Hread4|].
    apply NoDup_node_locs, Hnd3.
  - unfold Refs.doc_at. rewrite Hread2', Hread4, Hf, Hs, Hsnd, Hvals. reflexivity.
  - intros l. unfold Refs.entry_footprint. simpl.
    rewrite (footprint_read _ _ _ _ _ Hread2' Hread4).
    rewrite !elem_of_union, !elem_of_singleton.
    intros [[[-> | ->] | Hl] | Hl].
    + exact (lookup_weaken_None _ _ _ Hfl' Hsub1).
    + assert (Hsub03 : h ⊆ h3) by (transitivity h2; assumption).
      exact (lookup_weaken_None _ _ _ Hsl' Hsub03).
    + apply field_locs_elem in Hl as (n & Hn & ->).
      rewrite List.Forall_forall in Hout1. apply Hout1, Hn.
    + eapply lookup_weaken_None; [apply Hfresh, Hl | exact Hsub02].
Qed.

(** ** Well-formed stores *)

Lemma Forall2_impl_In {A B} (P Q : A -> B -> Prop) (l : list A) (k : list B) :
  Forall2 P l k -> (forall x y, In x l -> P x y -> Q x y) -> Forall2 Q l k.
Proof.
  induction 1 as [|x y l k Hxy _ IH]; intros H; constructor.
  - apply H; [left; reflexivity | exact Hxy].
  - apply IH. intros x' y' Hx'. apply H. right. exact Hx'.
Qed.

Lemma wf_entry (s : Refs.Store) (e : Refs.HistoryRef) :
  Refs.well_formed s -> In e (Refs.r_past s ++ Refs.r_future s) ->
  Refs.wf_doc (Refs.heap_of s) (Refs.rh_fields e) (Refs.rh_steps e).
Proof. intros (_ & H & _) He. rewrite List.Forall_forall in H. apply H, He. Qed.

Lemma entry_outside_document (s : Refs.Store) (e : Refs.HistoryRef) (l : Refs.loc) :
  Refs.well_formed s -> In e (Refs.r_past s ++ Refs.r_future s) ->
  l ∈ Refs.entry_footprint (Refs.heap_of s) e ->
  is_Some (Refs.heap_of s !! l)
  /\ l ∉ Refs.footprint (Refs.heap_of s) (Refs.r_fields s) (Refs.r_steps s).
Proof.
  intros Hwf He Hl. split.
  - eapply footprint_allocated; [apply (wf_entry s e Hwf He) | exact Hl].
  - destruct Hwf as (_ & _ & Hiso). intros HlL.
    eapply (separate_lookup _ (Refs.entry_footprint (Refs.heap_of s) e) _ Hiso);
      [|exact HlL | exact Hl].
    apply list_elem_of_In, in_map, He.
Qed.

(** A history entry is not affected by a change of the heap that stays
    inside the document or in new cells. *)
Lemma entries_frame (s : Refs.Store) (h' : Refs.heap) (e : Refs.HistoryRef) :
  Refs.well_formed s ->
  (forall l, is_Some (Refs.heap_of s !! l) ->
             l ∉ Refs.footprint (Refs.heap_of s) (Refs.r_fields s) (Refs.r_steps s) ->
             h' !! l = Refs.heap_of s !! l) ->
  In e (Refs.r_past s ++ Refs.r_future s) ->
  Refs.entry_at h' e = Refs.entry_at (Refs.heap_of s) e
  /\ Refs.entry_footprint h' e = Refs.entry_footprint (Refs.heap_of s) e
  /\ Refs.wf_doc h' (Refs.rh_fields e) (Refs.rh_steps e).
Proof.
  intros Hwf Hch He. apply entry_at_agree; [apply (wf_entry s e Hwf He)|].
  intros l Hl. destruct (entry_outside_document s e l Hwf He Hl) as [Ha Hout].
  apply Hch; assumption.
Qed.

Lemma entries_frame_map (s : Refs.Store) (h' : Refs.heap) (l : list Refs.HistoryRef) :
  Refs.well_formed s ->
  (forall l, is_Some (Refs.heap_of s !! l) ->
             l ∉ Refs.footprint (Refs.heap_of s) (Refs.r_fields s) (Refs.r_steps s) ->
             h' !! l = Refs.heap_of s !! l) ->
  (forall e, In e l -> In e (Refs.r_past s ++ Refs.r_future s)) ->
  map (Refs.entry_footprint h') l = map (Refs.entry_footprint (Refs.heap_of s)) l
  /\ Forall (fun e => Refs.wf_doc h' (Refs.rh_fields e) (Refs.rh_steps e)) l.
Proof.
  intros Hwf Hch Hl. split.
  - apply map_ext_in. intros e He. apply (entries_frame s h' e Hwf Hch (Hl e He)).
  - apply List.Forall_forall. intros e He. apply (entries_frame s h' e Hwf Hch (Hl e He)).
Qed.

Lemma represents_frame (s : Refs.Store) (h' : Refs.heap)
    (l : list Refs.HistoryRef) (k : list HistoryState) :
  Refs.well_formed s ->
  (forall l, is_Some (Refs.heap_of s !! l) ->
             l ∉ Refs.footprint (Refs.heap_of s) (Refs.r_fields s) (Refs.r_steps s) ->
             h' !! l = Refs.heap_of s !! l) ->
  (forall e, In e l -> In e (Refs.r_past s ++ Refs.r_future s)) ->
  Forall2 (fun e v => Refs.entry_at (Refs.heap_of s) e = Some v) l k ->
  Forall2 (fun e v => Refs.entry_at h' e = Some v) l k.
Proof.
  intros Hwf Hch Hl H. eapply Forall2_impl_In; [exact H|].
  intros e v He Hv. simpl in *.
  destruct (entries_frame s h' e Hwf Hch (Hl e He)) as [-> _]. exact Hv.
Qed.

Lemma extends_changes_nothing (h h' : Refs.heap) (X : gset Refs.loc) :
  h ⊆ h' -> forall l, is_Some (h !! l) -> l ∉ X -> h' !! l = h !! l.
Proof. intros Hsub l [c Hc] _. rewrite Hc. eapply lookup_weaken; eassumption. Qed.

(** Installing a new document whose cells are cells of the old document
    or new cells. *)
Lemma install_document (s s' : Refs.Store) (p : FormBuilderState)
    (fn' : list (Refs.loc * AnyFormField)) (sn' : list Refs.StepNode) :
  Refs.well_formed s -> represents s p ->
  Refs.changes_within_document s s' ->
  Refs.read_fields (Refs.heap_of s') (Refs.r_fields s') = Some fn' ->
  Refs.read_steps (Refs.heap_of s') (Refs.r_steps s') = Some sn' ->
  NoDup (map Refs.sn_loc sn') ->
  (forall l, l ∈ {[Refs.r_fields s']} ∪ {[Refs.r_steps s']} ∪ field_locs fn' ∪ step_locs sn' ->
             l ∈ Refs.footprint (Refs.heap_of s) (Refs.r_fields s) (Refs.r_steps s)
             \/ Refs.heap_of s !! l = None) ->
  Refs.r_past s' = Refs.r_past s ->
  Refs.r_future s' = Refs.r_future s ->
  Refs.well_formed s'
  /\ represents s'
       {| fields := map snd fn'; steps := map Refs.sn_val sn';
          activeStepId := Refs.r_activeStepId s';
          selectedFieldId := Refs.r_selectedFieldId s';
          formName := Refs.r_formName s'; theme := Refs.r_theme s';
          past := past p; future := future p |}.
Proof.
  intros Hwf Hrep Hch Hf Hs Hnd Hin Ep Efu.
  destruct (entries_frame_map s (Refs.heap_of s') (Refs.r_past s ++ Refs.r_future s) Hwf Hch
              (fun e He => He)) as [Hfps Hwfs].
  split.
  - split; [exists fn', sn'; auto|]. rewrite Ep, Efu. split; [exact Hwfs|].
    unfold Refs.isolated. rewrite Ep, Efu, Hfps, (footprint_read _ _ _ _ _ Hf Hs).
    destruct Hwf as (Hlive & Hent & Hiso).
    eapply separate_replace_head; [exact Hiso|].
    intros x Hx. destruct (Hin x Hx) as [HxL|Hnew]; [left; exact HxL|].
    right. intros Y HY HxY.
    apply list_elem_of_In, in_map_iff in HY as (e & <- & He).
    rewrite List.Forall_forall in Hent.
    destruct (footprint_allocated _ _ _ x (Hent e He) HxY) as [c Hc]. congruence.
  - destruct Hrep as (Hdoc & Ha & Hsel & Hn & Ht & Hp & Hfu).
    unfold represents. cbn [fields steps activeStepId selectedFieldId
      formName theme past future]. rewrite Ep, Efu.
    split; [unfold Refs.doc_at; rewrite Hf, Hs; reflexivity|].
    repeat (split; [reflexivity|]).
    split; eapply (represents_frame s (Refs.heap_of s')); try eassumption;
      intros e He; apply in_or_app; auto.
Qed.

(** The nodes of the document of a well-formed store. *)
Lemma live_nodes (s : Refs.Store) (p : FormBuilderState) :
  Refs.well_formed s -> represents s p ->
  exists fn sn,
    Refs.read_fields (Refs.heap_of s) (Refs.r_fields s) = Some fn
    /\ Refs.read_steps (Refs.heap_of s) (Refs.r_steps s) = Some sn
    /\ NoDup (map Refs.sn_loc sn)
    /\ map snd fn = fields p /\ map Refs.sn_val sn = steps p
    /\ Refs.footprint (Refs.heap_of s) (Refs.r_fields s) (Refs.r_steps s)
       = {[Refs.r_fields s]} ∪ {[Refs.r_steps s]} ∪ field_locs fn ∪ step_locs sn.
Proof.
  intros ((fn & sn & Hf & Hs & Hnd) & _) (Hdoc & _).
  exists fn, sn. unfold Refs.doc_at in Hdoc. rewrite Hf, Hs in Hdoc.
  injection Hdoc as E1 E2. repeat split; try assumption.
  apply footprint_read; assumption.
Qed.

Lemma after_addToHistory (s s1 s' : Refs.Store) :
  Refs.heap_of s ⊆ Refs.heap_of s1 ->
  Refs.footprint (Refs.heap_of s1) (Refs.r_fields s1) (Refs.r_steps s1)
  = Refs.footprint (Refs.heap_of s) (Refs.r_fields s) (Refs.r_steps s) ->
  Refs.changes_within_document s1 s' -> Refs.changes_within_document s s'.
Proof.
  intros Hsub Hfp Hch l [c Hc] Hl. rewrite Hc.
  pose proof (lookup_weaken _ _ _ _ Hc Hsub) as Hc1.
  rewrite <- Hc1. apply Hch; [eauto | rewrite Hfp; exact Hl].
Qed.

Lemma extends_changes (s s' : Refs.Store) :
  Refs.heap_of s ⊆ Refs.heap_of s' -> Refs.changes_within_document s s'.
Proof. intros Hsub l Hl Hout. eapply extends_changes_nothing; eassumption. Qed.

(** ** Recording and restoring history entries *)

Lemma separate_with_snapshot (s : Refs.Store) (N : gset Refs.loc)
    (l' : list (gset Refs.loc)) :
  Refs.well_formed s ->
  (forall x, x ∈ N -> Refs.heap_of s !! x = None) ->
  l' ⊆+ N :: regions s ->
  Refs.separate l'.
Proof.
  intros Hwf HN Hsub. eapply separate_submseteq; [exact Hsub|].
  apply separate_cons_fresh; [|apply Hwf].
  intros Y HY x HxN HxY. specialize (HN x HxN).
  unfold regions in HY. apply elem_of_cons in HY as [->|HY].
  - destruct (footprint_allocated _ _ _ x (proj1 Hwf) HxY) as [c Hc]. congruence.
  - apply list_elem_of_In, in_map_iff in HY as (e & <- & He).
    destruct (footprint_allocated _ _ _ x (wf_entry s e Hwf He) HxY) as [c Hc]. congruence.
Qed.

Lemma doc_at_entry (h : Refs.heap) (e : Refs.HistoryRef) (v : HistoryState) :
  Refs.entry_at h e = Some v <->
  Refs.doc_at h (Refs.rh_fields e) (Refs.rh_steps e) = Some (h_fields v, h_steps v)
  /\ Refs.rh_activeStepId e = h_activeStepId v
  /\ Refs.rh_formName e = h_formName v
  /\ Refs.rh_theme e = h_theme v.
Proof.
  unfold Refs.entry_at. destruct (Refs.doc_at _ _ _) as [[fs ss]|]; split.
  - intros [= <-]. auto.
  - intros ([= -> ->] & -> & -> & ->). destruct v; reflexivity.
  - discriminate.
  - intros [[=] _].
Qed.

Lemma snapshot_represents (s : Refs.Store) (p : FormBuilderState)
    (e : Refs.HistoryRef) (h' : Refs.heap) :
  represents s p ->
  Refs.doc_at h' (Refs.rh_fields e) (Refs.rh_steps e)
    = Refs.doc_at (Refs.heap_of s) (Refs.r_fields s) (Refs.r_steps s) ->
  Refs.rh_activeStepId e = Refs.r_activeStepId s ->
  Refs.rh_formName e = Refs.r_formName s ->
  Refs.rh_theme e = Refs.r_theme s ->
  Refs.entry_at h' e = Some (snapshot p).
Proof.
  intros (Hdoc & Ha & _ & Hn & Ht & _) Hd Ea En Et. apply doc_at_entry.
  rewrite Hd, Hdoc, Ea, En, Et. auto.
Qed.

Lemma slice_last9_In {A} (l : list A) (x : A) : In x (slice_last9 l) -> In x l.
Proof.
  unfold slice_last9. intros H. rewrite <- (firstn_skipn (length l - 9) l).
  apply in_or_app. right. exact H.
Qed.

Lemma drop_last_In {A} (l : list A) (x : A) : In x (drop_last l) -> In x l.
Proof.
  unfold drop_last. intros H. rewrite <- (firstn_skipn (length l - 1) l).
  apply in_or_app. left. exact H.
Qed.

Lemma map_submseteq {A B} (f : A -> B) (l1 l2 : list A) :
  l1 ⊆+ l2 -> map f l1 ⊆+ map f l2.
Proof.
  induction 1; simpl; try (econstructor; eassumption).
Qed.

Lemma slice_last9_submseteq {A} (l : list A) : slice_last9 l ⊆+ l.
Proof. apply submseteq_drop. Qed.

Lemma drop_last_submseteq {A} (l : list A) : drop_last l ⊆+ l.
Proof. apply submseteq_take. Qed.

Lemma addToHistory_spec (s : Refs.Store) (p : FormBuilderState) :
  Refs.well_formed s -> represents s p ->
  exists s1,
    Refs._addToHistory s = Some s1
    /\ Refs.well_formed s1
    /\ represents s1 (_addToHistory p)
    /\ Refs.heap_of s ⊆ Refs.heap_of s1
    /\ Refs.r_fields s1 = Refs.r_fields s
    /\ Refs.r_steps s1 = Refs.r_steps s
    /\ Refs.footprint (Refs.heap_of s1) (Refs.r_fields s1) (Refs.r_steps s1)
       = Refs.footprint (Refs.heap_of s) (Refs.r_fields s) (Refs.r_steps s).
Proof.
  intros Hwf Hrep.
  destruct (snapshot_spec s (proj1 Hwf))
    as (e & h' & Hsnap & Hsub & Hwfe & Hdoc & Ea & En & Et & Hfresh).
  unfold Refs._addToHistory. rewrite Hsnap. eexists. split; [reflexivity|].
  cbn [Refs.heap_of Refs.r_fields Refs.r_steps].
  destruct (wf_doc_extends _ _ _ _ (proj1 Hwf) Hsub) as (Hlive' & Hrf & Hrs & Hfp).
  pose proof (extends_changes_nothing (Refs.heap_of s) h'
                (Refs.footprint (Refs.heap_of s) (Refs.r_fields s) (Refs.r_steps s)) Hsub)
    as Hch.
  assert (Hold : forall x, In x (slice_last9 (Refs.r_past s)) ->
                           In x (Refs.r_past s ++ Refs.r_future s)).
  { intros x Hx. apply in_or_app. left. apply slice_last9_In, Hx. }
  destruct (entries_frame_map s h' (slice_last9 (Refs.r_past s)) Hwf Hch Hold)
    as [Hfps Hwfs].
  split; [|split; [|auto]].
  - split; [exact Hlive'|]. split.
    + cbn [Refs.r_past Refs.r_future]. rewrite app_nil_r.
      apply Forall_app. split; [exact Hwfs | constructor; [exact Hwfe | constructor]].
    + unfold Refs.isolated. cbn [Refs.heap_of Refs.r_fields Refs.r_steps
                                  Refs.r_past Refs.r_future].
      rewrite app_nil_r, map_app, Hfps, Hfp. cbn [map].
      eapply (separate_with_snapshot s (Refs.entry_footprint h' e)); [exact Hwf | exact Hfresh|].
      unfold regions. rewrite map_app.
      pose proof (map_submseteq (Refs.entry_footprint (Refs.heap_of s)) _ _
                    (slice_last9_submseteq (Refs.r_past s))) as Hs.
      etransitivity;
        [apply submseteq_skip, submseteq_skips_r, Hs | solve_submseteq].
  - destruct Hrep as (Hd & Ha & Hsel & Hn & Ht & Hp & Hfu).
    unfold represents. cbn [Refs.heap_of Refs.r_fields Refs.r_steps
      Refs.r_past Refs.r_future Refs.r_activeStepId Refs.r_selectedFieldId
      Refs.r_formName Refs.r_theme _addToHistory fields steps activeStepId selectedFieldId
      formName theme past future].
    split; [unfold Refs.doc_at in *; rewrite Hrf, Hrs; exact Hd|].
    repeat (split; [assumption|]). split; [|constructor].
    apply Forall2_app.
    + apply (represents_frame s h'); [exact Hwf | exact Hch | exact Hold|].
      unfold slice_last9. rewrite <- (Forall2_length _ _ _ Hp). apply Forall2_drop, Hp.
    + constructor; [|constructor].
      apply (snapshot_represents s p); try assumption.
      unfold represents. auto 10.
Qed.

Lemma Forall2_last_snoc {A B} (P : A -> B -> Prop) (l : list A) (k : list B) (x : A) :
  Forall2 P l k -> last l = Some x ->
  exists l0 k0 y, l = l0 ++ [x] /\ k = k0 ++ [y] /\ Forall2 P l0 k0 /\ P x y.
Proof.
  intros H Hl. apply last_Some in Hl as (l0 & ->).
  apply Forall2_app_inv_l in H as (k0 & k1 & H0 & H1 & ->).
  inversion H1 as [|? y ? ? Hxy Hnil]; subst. inversion Hnil; subst.
  exists l0, k0, y. auto.
Qed.

Lemma restore_spec (s : Refs.Store) (p : FormBuilderState)
    (e c : Refs.HistoryRef) (v : HistoryState) (h' : Refs.heap)
    (newPast newFuture : list Refs.HistoryRef) (pv fv : list HistoryState) :
  Refs.well_formed s -> represents s p ->
  Refs.heap_of s ⊆ h' ->
  In e (Refs.r_past s ++ Refs.r_future s) ->
  Refs.entry_at (Refs.heap_of s) e = Some v ->
  Refs.wf_doc h' (Refs.rh_fields c) (Refs.rh_steps c) ->
  (forall l, l ∈ Refs.entry_footprint h' c -> Refs.heap_of s !! l = None) ->
  (forall x, In x (newPast ++ newFuture) ->
             x = c \/ In x (Refs.r_past s ++ Refs.r_future s)) ->
  e :: newPast ++ newFuture ⊆+ c :: Refs.r_past s ++ Refs.r_future s ->
  Forall2 (fun e v => Refs.entry_at h' e = Some v) newPast pv ->
  Forall2 (fun e v => Refs.entry_at h' e = Some v) newFuture fv ->
  let s' := Refs.restore e h' newPast newFuture in
  Refs.well_formed s'
  /\ represents s'
       {| fields := h_fields v; steps := h_steps v; activeStepId := h_activeStepId v;
          selectedFieldId := None; formName := h_formName v; theme := h_theme v;
          past := pv; future := fv |}
  /\ Refs.changes_within_document s s'.
Proof.
  intros Hwf Hrep Hsub He Hv Hwfc Hfresh Hmem Hmset Hpv Hfv s'.
  pose proof (extends_changes_nothing (Refs.heap_of s) h'
                (Refs.footprint (Refs.heap_of s) (Refs.r_fields s) (Refs.r_steps s)) Hsub)
    as Hch.
  destruct (entries_frame s h' e Hwf Hch He) as (Hat & Hfp & Hwfe).
  assert (Hall : forall x, In x (newPast ++ newFuture) ->
             Refs.wf_doc h' (Refs.rh_fields x) (Refs.rh_steps x)
             /\ (x = c \/ Refs.entry_footprint h' x
                          = Refs.entry_footprint (Refs.heap_of s) x)).
  { intros x Hx. destruct (Hmem x Hx) as [->|Hold]; [auto|].
    destruct (entries_frame s h' x Hwf Hch Hold) as (_ & Hfpx & Hwfx). auto. }
  split; [|split].
  - split; [exact Hwfe|]. split.
    + apply List.Forall_forall. intros x Hx. apply (Hall x Hx).
    + unfold Refs.isolated. cbn [s' Refs.restore Refs.heap_of Refs.r_fields Refs.r_steps
                                  Refs.r_past Refs.r_future].
      change (Refs.footprint h' (Refs.rh_fields e) (Refs.rh_steps e))
        with (Refs.entry_footprint h' e).
      change (Refs.entry_footprint h' e :: map (Refs.entry_footprint h') (newPast ++ newFuture))
        with (map (Refs.entry_footprint h') (e :: newPast ++ newFuture)).
      eapply (separate_with_snapshot s (Refs.entry_footprint h' c)); [exact Hwf | exact Hfresh|].
      etransitivity; [apply map_submseteq, Hmset|].
      cbn [map]. apply submseteq_skip. unfold regions. apply submseteq_cons.
      rewrite (map_ext_in (Refs.entry_footprint h') (Refs.entry_footprint (Refs.heap_of s)));
        [reflexivity|].
      intros x Hx. apply (entries_frame s h' x Hwf Hch Hx).
  - rewrite <- Hat in Hv. apply doc_at_entry in Hv as (Hd & Ea & En & Et).
    unfold represents. cbn [s' Refs.restore Refs.heap_of Refs.r_fields Refs.r_steps
      Refs.r_past Refs.r_future Refs.r_activeStepId Refs.r_selectedFieldId
      Refs.r_formName Refs.r_theme fields steps activeStepId selectedFieldId
      formName theme past future].
    auto 10.
  - exact Hch.
Qed.

Lemma changes_within_document_refl (s : Refs.Store) : Refs.changes_within_document s s.
Proof. intros l _ _. reflexivity. Qed.

Lemma undo_spec (s : Refs.Store) (p : FormBuilderState) :
  Refs.well_formed s -> represents s p ->
  exists s', Refs.undo s = Some s' /\ Refs.well_formed s' /\ represents s' (undo p)
             /\ Refs.changes_within_document s s'.
Proof.
  intros Hwf Hrep. pose proof Hrep as (Hd & Ha & Hsel & Hn & Ht & Hp & Hfu).
  unfold Refs.undo. destruct (last (Refs.r_past s)) as [e|] eqn:Hlast.
  - destruct (Forall2_last_snoc _ _ _ _ Hp Hlast) as (l0 & k0 & v & El & Ek & H0 & Hv).
    destruct (snapshot_spec s (proj1 Hwf))
      as (c & h' & Hsnap & Hsub & Hwfc & Hdoc & Ea & En & Et & Hfresh).
    rewrite Hsnap. cbn [mbind option_bind]. eexists. split; [reflexivity|].
    rewrite (undo_snoc p k0 v Ek). rewrite El, drop_last_snoc.
    pose proof (extends_changes_nothing (Refs.heap_of s) h'
                  (Refs.footprint (Refs.heap_of s) (Refs.r_fields s) (Refs.r_steps s)) Hsub)
      as Hch.
    apply (restore_spec s p e c v h'); try assumption.
    + rewrite El. apply in_or_app. left. apply in_or_app. right. left. reflexivity.
    + intros x Hx. rewrite El. apply in_app_or in Hx as [Hx|[<-|Hx]]; [right|left|right].
      * apply in_or_app. left. apply in_or_app. left. exact Hx.
      * reflexivity.
      * apply in_or_app. right. exact Hx.
    + rewrite El. solve_submseteq.
    + apply (represents_frame s h'); try assumption.
      intros x Hx. rewrite El. apply in_or_app. left. apply in_or_app. left. exact Hx.
    + constructor.
      * apply (snapshot_represents s p); assumption.
      * apply (represents_frame s h'); try assumption.
        intros x Hx. apply in_or_app. right. exact Hx.
  - eexists. split; [reflexivity|].
    assert (Er : Refs.r_past s = []).
    { destruct (Refs.r_past s) as [|x l] using rev_ind; [reflexivity|].
      rewrite last_snoc in Hlast. discriminate. }
    rewrite Er in Hp. apply Forall2_nil_inv_l in Hp.
    rewrite (undo_empty p Hp). split; [exact Hwf|]. split; [exact Hrep|].
    apply changes_within_document_refl.
Qed.

Lemma redo_spec (s : Refs.Store) (p : FormBuilderState) :
  Refs.well_formed s -> represents s p ->
  exists s', Refs.redo s = Some s' /\ Refs.well_formed s' /\ represents s' (redo p)
             /\ Refs.changes_within_document s s'.
Proof.
  intros Hwf Hrep. pose proof Hrep as (Hd & Ha & Hsel & Hn & Ht & Hp & Hfu).
  unfold Refs.redo, redo. destruct (Refs.r_future s) as [|e newFuture] eqn:Ef.
  - apply Forall2_nil_inv_l in Hfu. rewrite Hfu.
    eexists. split; [reflexivity|]. split; [exact Hwf|]. split; [exact Hrep|].
    apply changes_within_document_refl.
  - apply Forall2_cons_inv_l in Hfu as (v & fv & Hv & Hfu & Efv). rewrite Efv.
    destruct (snapshot_spec s (proj1 Hwf))
      as (c & h' & Hsnap & Hsub & Hwfc & Hdoc & Ea & En & Et & Hfresh).
    rewrite Hsnap. cbn [mbind option_bind]. eexists. split; [reflexivity|].
    pose proof (extends_changes_nothing (Refs.heap_of s) h'
                  (Refs.footprint (Refs.heap_of s) (Refs.r_fields s) (Refs.r_steps s)) Hsub)
      as Hch.
    apply (restore_spec s p e c v h'); try assumption.
    + rewrite Ef. apply in_or_app. right. left. reflexivity.
    + intros x Hx. rewrite Ef.
      apply in_app_or in Hx as [Hx|Hx]; [apply in_app_or in Hx as [Hx|[<-|[]]]|].
      * right. apply in_or_app. left. exact Hx.
      * left. reflexivity.
      * right. apply in_or_app. right. right. exact Hx.
    + rewrite Ef. solve_submseteq.
    + apply Forall2_app.
      * apply (represents_frame s h'); try assumption.
        intros x Hx. apply in_or_app. left. exact Hx.
      * constructor; [|constructor]. apply (snapshot_represents s p); assumption.
    + apply (represents_frame s h'); try assumption.
      intros x Hx. rewrite Ef. apply in_or_app. right. right. exact Hx.
Qed.

(** ** The actions on the two models *)



Lemma footprint_elem (s : Refs.Store)
    (fn : list (Refs.loc * AnyFormField)) (sn : list Refs.StepNode) (l : Refs.loc) :
  Refs.footprint (Refs.heap_of s) (Refs.r_fields s) (Refs.r_steps s)
  = {[Refs.r_fields s]} ∪ {[Refs.r_steps s]} ∪ field_locs fn ∪ step_locs sn ->
  l = Refs.r_fields s \/ l = Refs.r_steps s \/ l ∈ field_locs fn \/ l ∈ step_locs sn ->
  l ∈ Refs.footprint (Refs.heap_of s) (Refs.r_fields s) (Refs.r_steps s).
Proof. intros -> H. set_solver. Qed.

Lemma setSelectedField_simulates (i : option string) :
  simulates (Refs.setSelectedField i) (setSelectedField i).
Proof.
  intros s p Hwf Hrep. eexists. split; [reflexivity|]. destruct s.
  split; [exact Hwf|]. split; [|intros l _ _; reflexivity].
  destruct Hrep as (Hd & Ha & Hsel & Hn & Ht & Hp & Hfu).
  unfold represents. simpl in *. auto 10.
Qed.

Lemma setActiveStep_simulates (stepId : string) :
  simulates (Refs.setActiveStep stepId) (setActiveStep stepId).
Proof.
  intros s p Hwf Hrep. eexists. split; [reflexivity|]. destruct s.
  split; [exact Hwf|]. split; [|intros l _ _; reflexivity].
  destruct Hrep as (Hd & Ha & Hsel & Hn & Ht & Hp & Hfu).
  unfold represents. simpl in *. auto 10.
Qed.

Lemma toggleTheme_simulates : simulates Refs.toggleTheme toggleTheme.
Proof.
  intros s p Hwf Hrep. eexists. split; [reflexivity|]. destruct s.
  split; [exact Hwf|]. split; [|intros l _ _; reflexivity].
  destruct Hrep as (Hd & Ha & Hsel & Hn & Ht & Hp & Hfu).
  unfold represents. simpl in *. rewrite Ht. auto 10.
Qed.

Lemma setFormName_simulates (name : string) :
  simulates (Refs.setFormName name) (setFormName name).
Proof.
  intros s p Hwf Hrep.
  destruct (addToHistory_spec s p Hwf Hrep)
    as (s1 & Hadd & Hwf1 & Hrep1 & Hsub & Efl & Esl & Hfp).
  unfold Refs.setFormName. rewrite Hadd. cbn [mbind option_bind].
  eexists. split; [reflexivity|]. destruct s1.
  split; [exact Hwf1|]. split; [|apply extends_changes; exact Hsub].
  destruct Hrep1 as (Hd & Ha & Hsel & Hn & Ht & Hp & Hfu).
  unfold represents. simpl in *. auto 10.
Qed.

(** The end of the proof for an action that, after [_addToHistory],
    installs a new document. *)
Lemma simulates_install (s s1 s' : Refs.Store) (p q : FormBuilderState)
    (fn' : list (Refs.loc * AnyFormField)) (sn' : list Refs.StepNode) :
  Refs.well_formed s1 -> represents s1 (_addToHistory p) ->
  Refs.heap_of s ⊆ Refs.heap_of s1 ->
  Refs.footprint (Refs.heap_of s1) (Refs.r_fields s1) (Refs.r_steps s1)
  = Refs.footprint (Refs.heap_of s) (Refs.r_fields s) (Refs.r_steps s) ->
  Refs.changes_within_document s1 s' ->
  Refs.read_fields (Refs.heap_of s') (Refs.r_fields s') = Some fn' ->
  Refs.read_steps (Refs.heap_of s') (Refs.r_steps s') = Some sn' ->
  NoDup (map Refs.sn_loc sn') ->
  (forall l, l ∈ {[Refs.r_fields s']} ∪ {[Refs.r_steps s']} ∪ field_locs fn' ∪ step_locs sn' ->
             l ∈ Refs.footprint (Refs.heap_of s1) (Refs.r_fields s1) (Refs.r_steps s1)
             \/ Refs.heap_of s1 !! l = None) ->
  Refs.r_past s' = Refs.r_past s1 ->
  Refs.r_future s' = Refs.r_future s1 ->
  q = {| fields := map snd fn'; steps := map Refs.sn_val sn';
         activeStepId := Refs.r_activeStepId s';
         selectedFieldId := Refs.r_selectedFieldId s';
         formName := Refs.r_formName s'; theme := Refs.r_theme s';
         past := past (_addToHistory p); future := future (_addToHistory p) |} ->
  Refs.well_formed s' /\ represents s' q /\ Refs.changes_within_document s s'.
Proof.
  intros Hwf1 Hrep1 Hsub Hfp Hch Hf Hs Hnd Hin Ep Efu ->.
  destruct (install_document s1 s' _ fn' sn' Hwf1 Hrep1 Hch Hf Hs Hnd Hin Ep Efu)
    as [Hwf' Hrep'].
  split; [exact Hwf'|]. split; [exact Hrep'|].
  eapply after_addToHistory; eassumption.
Qed.

Lemma update_one_cond (i : string) (u : FieldUpdates) (a : AnyFormField) :
  (if opt_is (any_id a) i then update_one i u a else a) = update_one i u a.
Proof.
  destruct a as [f|o]; simpl; [|reflexivity].
  destruct (String.eqb (f_id f) i); reflexivity.
Qed.

Lemma updateField_simulates (i : string) (u : FieldUpdates) :
  simulates (Refs.updateField i u) (updateField i u).
Proof.
  intros s p Hwf Hrep.
  destruct (addToHistory_spec s p Hwf Hrep)
    as (s1 & Hadd & Hwf1 & Hrep1 & Hsub & Efl & Esl & Hfp).
  destruct (live_nodes s1 _ Hwf1 Hrep1) as (fn & sn & Hf & Hs & Hnd & Efn & Esn & Hfoot).
  unfold Refs.updateField. rewrite Hadd. cbn [mbind option_bind]. rewrite Hf.
  cbn [mbind option_bind].
  destruct (Refs.replace_fields _ _ fn (Refs.heap_of s1)) as [ls h1] eqn:Hrf.
  destruct (Refs.alloc (Refs.CArr ls) h1) as [fl h2] eqn:Hal.
  pose proof Hf as [_ Hcells]%read_fields_Some.
  destruct (replace_fields_spec _ _ _ _ _ _ Hcells Hrf)
    as (Hsub1 & fn' & Hfst & Hsnd & Hcells' & Hwhere).
  rewrite <- Hfst in Hal.
  destruct (new_fields_array _ _ _ _ Hcells' Hal) as (Hsub2 & Hfl & Hread).
  assert (Hsub12 : Refs.heap_of s1 ⊆ h2) by (etransitivity; eassumption).
  eexists. split; [reflexivity|].
  destruct Hrep1 as (Hd1 & Ha1 & Hsel1 & Hn1 & Ht1 & Hp1 & Hfu1).
  eapply (simulates_install s s1 _ p _ fn' sn); try eassumption; try reflexivity.
  - unfold represents; auto 10.
  - apply extends_changes. exact Hsub12.
  - cbn [Refs.with_doc Refs.heap_of Refs.r_steps].
    eapply read_steps_extends; eassumption.
  - cbn [Refs.with_doc Refs.heap_of Refs.r_fields Refs.r_steps]. intros l.
    rewrite !elem_of_union, !elem_of_singleton. intros [[[-> | ->] | Hl] | Hl].
    + right. eapply lookup_weaken_None; eassumption.
    + left. eapply footprint_elem; eauto.
    + destruct (Hwhere l Hl) as [Hold|Hnew]; [left|right; exact Hnew].
      eapply footprint_elem; eauto.
    + left. eapply footprint_elem; eauto.
  - unfold updateField. cbn [_addToHistory Refs.with_doc Refs.r_activeStepId
      Refs.r_selectedFieldId Refs.r_formName Refs.r_theme fields steps activeStepId
      selectedFieldId formName theme past future] in *.
    rewrite Hsnd, Efn, Esn, Ha1, Hsel1, Hn1, Ht1. f_equal.
    apply map_ext. intros a. symmetry. apply update_one_cond.
Qed.

Ltac start_action Hwf Hrep :=
  destruct (addToHistory_spec _ _ Hwf Hrep)
    as (s1 & Hadd & Hwf1 & Hrep1 & Hsub & Efl & Esl & Hfp);
  destruct (live_nodes s1 _ Hwf1 Hrep1) as (fn & sn & Hf & Hs & Hnd & Efn & Esn & Hfoot);
  pose proof Hrep1 as (Hd1 & Ha1 & Hsel1 & Hn1 & Ht1 & Hp1 & Hfu1);
  cbn [_addToHistory fields steps activeStepId selectedFieldId formName theme
         past future] in Efn, Esn, Ha1, Hsel1, Hn1, Ht1.

Ltac old_cell Hfoot := left; eapply footprint_elem; [exact Hfoot | eauto].

Lemma alloc_fields_nodes (fs : list AnyFormField) (h : Refs.heap)
    (ls : list Refs.loc) (h1 : Refs.heap) (fl : Refs.loc) (h2 : Refs.heap) :
  Refs.alloc_fields fs h = (ls, h1) ->
  Refs.alloc (Refs.CArr ls) h1 = (fl, h2) ->
  h ⊆ h2
  /\ exists fn, map snd fn = fs /\ Refs.read_fields h2 fl = Some fn
       /\ (forall l, l ∈ {[fl]} ∪ field_locs fn -> h !! l = None).
Proof.
  intros Haf Hal.
  destruct (alloc_fields_spec _ _ _ _ Haf) as (Hsub1 & fn & Hfst & Hsnd & Hin & Hout).
  rewrite <- Hfst in Hal.
  destruct (new_fields_array _ _ _ _ Hin Hal) as (Hsub2 & Hfl & Hread).
  split; [etransitivity; eassumption|]. exists fn. split; [exact Hsnd|].
  split; [exact Hread|]. intros l. rewrite elem_of_union, elem_of_singleton.
  intros [->|Hl].
  - eapply lookup_weaken_None; eassumption.
  - apply field_locs_elem in Hl as (n & Hn & ->).
    rewrite List.Forall_forall in Hout. apply Hout, Hn.
Qed.

Lemma alloc_steps_nodes (sts : list FormStep) (h : Refs.heap)
    (ns : list Refs.StepNode) (h1 : Refs.heap) (sl : Refs.loc) (h2 : Refs.heap) :
  Refs.alloc_steps sts h = (ns, h1) ->
  Refs.alloc (Refs.CArr (map Refs.sn_loc ns)) h1 = (sl, h2) ->
  h ⊆ h2
  /\ map Refs.sn_val ns = sts /\ Refs.read_steps h2 sl = Some ns
  /\ NoDup (flat_map Refs.node_locs ns)
  /\ (sl ∉ step_locs ns)
  /\ (forall l, l ∈ {[sl]} ∪ step_locs ns -> h !! l = None).
Proof.
  intros Has Hal.
  destruct (alloc_steps_spec _ _ _ _ Has) as (Hsub1 & Hvals & Hreads & Hfresh & Hnd).
  destruct (new_steps_array _ _ _ _ Hreads Hal) as (Hsub2 & Hsl & Hread).
  split; [etransitivity; eassumption|]. split; [exact Hvals|].
  split; [exact Hread|]. split; [exact Hnd|]. split.
  - intros (n & Hn & Hl)%step_locs_elem.
    rewrite List.Forall_forall in Hreads.
    apply Hreads, read_step_Some in Hn as (_ & H1 & H2).
    destruct Hl as [-> | ->]; congruence.
  - intros l. rewrite elem_of_union, elem_of_singleton. intros [->|Hl].
    + eapply lookup_weaken_None; eassumption.
    + apply Hfresh, Hl.
Qed.

Lemma reorderFields_simulates (startIndex endIndex : Z) :
  simulates (Refs.reorderFields startIndex endIndex) (reorderFields startIndex endIndex).
Proof.
  intros s p Hwf Hrep. start_action Hwf Hrep.
  unfold Refs.reorderFields, reorderFields. rewrite Hadd. cbn [mbind option_bind].
  rewrite Hf. cbn [mbind option_bind _addToHistory fields]. rewrite Efn.
  destruct (splice_remove1 (sort_by_order (fields p)) startIndex) as [rest removed].
  destruct (Refs.alloc_fields _ (Refs.heap_of s1)) as [ls h1] eqn:Haf.
  destruct (Refs.alloc (Refs.CArr ls) h1) as [fl h2] eqn:Hal.
  destruct (alloc_fields_nodes _ _ _ _ _ _ Haf Hal) as (Hsub2 & fn' & Hsnd & Hread & Hnew).
  eexists. split; [reflexivity|].
  eapply (simulates_install s s1 _ p _ fn' sn); try eassumption; try reflexivity.
  - apply extends_changes. exact Hsub2.
  - cbn [Refs.with_doc Refs.heap_of Refs.r_steps].
    eapply read_steps_extends; eassumption.
  - cbn [Refs.with_doc Refs.heap_of Refs.r_fields Refs.r_steps]. intros l.
    rewrite !elem_of_union, !elem_of_singleton. intros [[[-> | ->] | Hl] | Hl].
    + right. apply Hnew. set_solver.
    + old_cell Hfoot.
    + right. apply Hnew. set_solver.
    + old_cell Hfoot.
  - cbn [_addToHistory Refs.with_doc Refs.r_activeStepId
      Refs.r_selectedFieldId Refs.r_formName Refs.r_theme fields steps activeStepId
      selectedFieldId formName theme past future] in *.
    rewrite Hsnd, Esn, Ha1, Hsel1, Hn1, Ht1. reflexivity.
Qed.

Lemma moveFieldToStep_simulates (fieldId targetStepId : string) :
  simulates (Refs.moveFieldToStep fieldId targetStepId) (moveFieldToStep fieldId targetStepId).
Proof.
  intros s p Hwf Hrep. start_action Hwf Hrep.
  unfold Refs.moveFieldToStep, moveFieldToStep. rewrite Hadd. cbn [mbind option_bind].
  rewrite Hs. cbn [mbind option_bind _addToHistory steps]. rewrite Esn.
  destruct (Refs.alloc_steps _ (Refs.heap_of s1)) as [ns h1] eqn:Has.
  destruct (Refs.alloc (Refs.CArr (map Refs.sn_loc ns)) h1) as [sl h2] eqn:Hal.
  destruct (alloc_steps_nodes _ _ _ _ _ _ Has Hal)
    as (Hsub2 & Hvals & Hread & Hnd' & _ & Hnew).
  eexists. split; [reflexivity|].
  eapply (simulates_install s s1 _ p _ fn ns); try eassumption; try reflexivity.
  - apply extends_changes. exact Hsub2.
  - cbn [Refs.with_doc Refs.heap_of Refs.r_fields].
    eapply read_fields_extends; eassumption.
  - apply NoDup_node_locs, Hnd'.
  - cbn [Refs.with_doc Refs.heap_of Refs.r_fields Refs.r_steps]. intros l.
    rewrite !elem_of_union, !elem_of_singleton. intros [[[-> | ->] | Hl] | Hl].
    + old_cell Hfoot.
    + right. apply Hnew. set_solver.
    + old_cell Hfoot.
    + right. apply Hnew. set_solver.
  - cbn [_addToHistory Refs.with_doc Refs.r_activeStepId
      Refs.r_selectedFieldId Refs.r_formName Refs.r_theme fields steps activeStepId
      selectedFieldId formName theme past future] in *.
    rewrite Hvals, Efn, Ha1, Hsel1, Hn1, Ht1. reflexivity.
Qed.

Lemma map_filter_comm {A B} (f : A -> B) (P : B -> bool) (l : list A) :
  map f (List.filter (fun x => P (f x)) l) = List.filter P (map f l).
Proof.
  induction l as [|x l IH]; simpl; [reflexivity|].
  destruct (P (f x)); simpl; rewrite IH; reflexivity.
Qed.

Lemma NoDup_map_filter {A B} (f : A -> B) (P : A -> bool) (l : list A) :
  NoDup (map f l) -> NoDup (map f (List.filter P l)).
Proof.
  induction l as [|x l IH]; simpl; intros H; [constructor|].
  apply NoDup_cons in H as [Hx Hl]. destruct (P x); [|apply IH, Hl].
  simpl. apply NoDup_cons. split; [|apply IH, Hl].
  intros Hin. apply Hx. apply list_elem_of_In in Hin. apply list_elem_of_In.
  apply in_map_iff in Hin as (y & E & Hy). apply filter_In in Hy as [Hy _].
  rewrite <- E. apply in_map, Hy.
Qed.

Lemma step_locs_filter (P : Refs.StepNode -> bool) (ns : list Refs.StepNode) (l : Refs.loc) :
  l ∈ step_locs (List.filter P ns) -> l ∈ step_locs ns.
Proof.
  rewrite !step_locs_elem. intros (n & Hn & Hl). apply filter_In in Hn as [Hn _]. eauto.
Qed.

Lemma field_locs_filter (P : Refs.loc * AnyFormField -> bool)
    (fn : list (Refs.loc * AnyFormField)) (l : Refs.loc) :
  l ∈ field_locs (List.filter P fn) -> l ∈ field_locs fn.
Proof.
  rewrite !field_locs_elem. intros (n & Hn & Hl). apply filter_In in Hn as [Hn _]. eauto.
Qed.

Lemma Forall_filter_keep {A} (Q : A -> Prop) (P : A -> bool) (l : list A) :
  Forall Q l -> Forall Q (List.filter P l).
Proof.
  rewrite !List.Forall_forall. intros H x Hx. apply filter_In in Hx as [Hx _]. auto.
Qed.

Lemma updateStepName_simulates (stepId newName : string) :
  simulates (Refs.updateStepName stepId newName) (updateStepName stepId newName).
Proof.
  intros s p Hwf Hrep. start_action Hwf Hrep.
  unfold Refs.updateStepName, updateStepName. rewrite Hadd. cbn [mbind option_bind].
  rewrite Hs. cbn [mbind option_bind _addToHistory steps].
  destruct (Refs.rename_steps _ _ sn (Refs.heap_of s1)) as [ls h1] eqn:Hrn.
  destruct (Refs.alloc (Refs.CArr ls) h1) as [sl h2] eqn:Hal.
  pose proof Hs as [_ Hreads]%read_steps_Some.
  destruct (rename_steps_spec _ _ _ _ _ _ Hreads Hnd Hrn)
    as (Hsub1 & ns & Hlocs & Hvals & Hreads' & Hnd' & Hwhere).
  rewrite <- Hlocs in Hal.
  destruct (new_steps_array _ _ _ _ Hreads' Hal) as (Hsub2 & Hsl & Hread).
  assert (Hsub12 : Refs.heap_of s1 ⊆ h2) by (etransitivity; eassumption).
  eexists. split; [reflexivity|].
  eapply (simulates_install s s1 _ p _ fn ns); try eassumption; try reflexivity.
  - apply extends_changes. exact Hsub12.
  - cbn [Refs.with_doc Refs.heap_of Refs.r_fields].
    eapply read_fields_extends; eassumption.
  - cbn [Refs.with_doc Refs.heap_of Refs.r_fields Refs.r_steps]. intros l.
    rewrite !elem_of_union, !elem_of_singleton. intros [[[-> | ->] | Hl] | Hl].
    + old_cell Hfoot.
    + right. eapply lookup_weaken_None; eassumption.
    + old_cell Hfoot.
    + apply step_locs_elem in Hl as (n & Hn & Hl).
      destruct (Hwhere n Hn) as [[Hold|Hnew] Hids].
      * left. eapply footprint_elem; [exact Hfoot|]. right. right. right.
        apply step_locs_elem.
        apply in_map_iff in Hold as (m & Em & Hm). apply in_map_iff in Hids as (m' & Em' & Hm').
        destruct Hl as [-> | ->]; [exists m | exists m']; split; auto.
      * destruct Hl as [-> | ->]; [right; exact Hnew|].
        left. eapply footprint_elem; [exact Hfoot|]. right. right. right.
        apply step_locs_elem. apply in_map_iff in Hids as (m' & Em' & Hm').
        exists m'. split; auto.
  - cbn [_addToHistory Refs.with_doc Refs.r_activeStepId
      Refs.r_selectedFieldId Refs.r_formName Refs.r_theme fields steps activeStepId
      selectedFieldId formName theme past future] in *.
    rewrite Hvals, Esn, Efn, Ha1, Hsel1, Hn1, Ht1. reflexivity.
Qed.

Lemma addStep_simulates (uuid : string) :
  simulates (Refs.addStep uuid) (addStep uuid).
Proof.
  intros s p Hwf Hrep. start_action Hwf Hrep.
  unfold Refs.addStep, addStep. rewrite Hadd. cbn [mbind option_bind].
  rewrite Hs. cbn [mbind option_bind _addToHistory steps].
  destruct (Refs.alloc_step _ (Refs.heap_of s1)) as [n h1] eqn:Has.
  destruct (Refs.alloc _ h1) as [sl h2] eqn:Hal.
  destruct (alloc_step_spec _ _ _ _ Has) as (Hsub1 & Hval & Hread & Hl0 & Hr0 & Hne).
  pose proof Hs as [_ Hreads]%read_steps_Some.
  assert (Hreads' : Forall (fun m => Refs.read_step h1 (Refs.sn_loc m) = Some m) (sn ++ [n])).
  { apply Forall_app. split; [|constructor; [exact Hread | constructor]].
    eapply Forall_impl; [exact Hreads|]. intros m Hm. simpl in *.
    eapply read_step_extends; eassumption. }
  replace (map Refs.sn_loc sn ++ [Refs.sn_loc n]) with (map Refs.sn_loc (sn ++ [n])) in Hal
    by (rewrite map_app; reflexivity).
  destruct (new_steps_array _ _ _ _ Hreads' Hal) as (Hsub2 & Hsl & Hread').
  assert (Hsub12 : Refs.heap_of s1 ⊆ h2) by (etransitivity; eassumption).
  eexists. split; [reflexivity|].
  eapply (simulates_install s s1 _ p _ fn (sn ++ [n])); try eassumption; try reflexivity.
  - apply extends_changes. exact Hsub12.
  - cbn [Refs.with_doc Refs.heap_of Refs.r_fields].
    eapply read_fields_extends; eassumption.
  - rewrite map_app. apply NoDup_app. split; [exact Hnd|]. split; [|repeat constructor; set_solver].
    intros l Hl Hl'. apply list_elem_of_In in Hl. apply in_map_iff in Hl as (m & <- & Hm).
    apply list_elem_of_singleton in Hl'. rewrite List.Forall_forall in Hreads.
    apply Hreads, read_step_Some in Hm as (_ & Hc & _). congruence.
  - cbn [Refs.with_doc Refs.heap_of Refs.r_fields Refs.r_steps]. intros l.
    rewrite !elem_of_union, !elem_of_singleton. intros [[[-> | ->] | Hl] | Hl].
    + old_cell Hfoot.
    + right. eapply lookup_weaken_None; eassumption.
    + old_cell Hfoot.
    + apply step_locs_elem in Hl as (m & Hm & Hl). apply in_app_or in Hm as [Hm|[<-|[]]].
      * left. eapply footprint_elem; [exact Hfoot|]. right. right. right.
        apply step_locs_elem. eauto.
      * right. destruct Hl as [-> | ->]; assumption.
  - cbn [_addToHistory Refs.with_doc Refs.r_activeStepId
      Refs.r_selectedFieldId Refs.r_formName Refs.r_theme fields steps activeStepId
      selectedFieldId formName theme past future] in *.
    rewrite map_app, Esn, Efn, Hsel1, Hn1, Ht1. cbn [map]. rewrite Hval.
    rewrite <- Esn, length_map. reflexivity.
Qed.

Lemma clearForm_simulates : simulates Refs.clearForm clearForm.
Proof.
  intros s p Hwf Hrep. start_action Hwf Hrep.
  unfold Refs.clearForm, clearForm. rewrite Hadd. cbn [mbind option_bind].
  destruct (Refs.alloc (Refs.CArr []) (Refs.heap_of s1)) as [fl h1] eqn:Hal1.
  destruct (Refs.alloc (Refs.CArr []) h1) as [sl h2] eqn:Hal2.
  apply alloc_extends in Hal1 as (Hsub1 & Hfl1 & Hfl0).
  apply alloc_extends in Hal2 as (Hsub2 & Hsl2 & Hsl1).
  assert (Hsub12 : Refs.heap_of s1 ⊆ h2) by (etransitivity; eassumption).
  apply Forall2_nil_inv_r in Hfu1.
  eexists. split; [reflexivity|].
  eapply (simulates_install s s1 _ p _ [] []); try eassumption; try reflexivity.
  - apply extends_changes. exact Hsub12.
  - apply read_fields_Some. split; [|constructor].
    cbn [Refs.heap_of Refs.r_fields map]. eapply lookup_weaken; eassumption.
  - apply read_steps_Some. split; [exact Hsl2 | constructor].
  - constructor.
  - cbn [Refs.heap_of Refs.r_fields Refs.r_steps]. intros l.
    rewrite !elem_of_union, !elem_of_singleton. intros [[[-> | ->] | Hl] | Hl].
    + right. exact Hfl0.
    + right. eapply lookup_weaken_None; eassumption.
    + apply field_locs_elem in Hl as (n & [] & _).
    + apply step_locs_elem in Hl as (n & [] & _).
  - cbn [Refs.r_future]. symmetry. exact Hfu1.
  - cbn [_addToHistory Refs.r_activeStepId
      Refs.r_selectedFieldId Refs.r_formName Refs.r_theme fields steps activeStepId
      selectedFieldId formName theme past future map] in *.
    rewrite Ht1. reflexivity.
Qed.

Lemma removeField_simulates (i : string) :
  simulates (Refs.removeField i) (removeField i).
Proof.
  intros s p Hwf Hrep. start_action Hwf Hrep.
  unfold Refs.removeField, removeField. rewrite Hadd. cbn [mbind option_bind].
  rewrite Hf, Hs. cbn [mbind option_bind _addToHistory fields steps activeStepId
                         selectedFieldId].
  set (kept := List.filter (fun n => negb (opt_is (any_id (snd n)) i)) fn).
  destruct (Refs.alloc (Refs.CArr (map fst kept)) (Refs.heap_of s1)) as [fl h1] eqn:Hal1.
  destruct (Refs.alloc_steps _ h1) as [mapped h2] eqn:Has.
  set (updatedSteps :=
         List.filter (fun n => (0 <? length (fieldIds (Refs.sn_val n)))%nat) mapped).
  destruct (Refs.alloc (Refs.CArr (map Refs.sn_loc updatedSteps)) h2) as [sl h3] eqn:Hal2.
  pose proof Hf as [_ Hcells]%read_fields_Some.
  destruct (new_fields_array kept _ _ _ (Forall_filter_keep _ _ _ Hcells) Hal1)
    as (Hsub1 & Hfl & Hreadf).
  destruct (alloc_steps_spec _ _ _ _ Has) as (Hsub2 & Hvals & Hreads & Hfresh & Hnd2).
  destruct (new_steps_array updatedSteps _ _ _ (Forall_filter_keep _ _ _ Hreads) Hal2)
    as (Hsub3 & Hsl & Hreads3).
  assert (Hsub13 : h1 ⊆ h3) by (etransitivity; eassumption).
  assert (Hsub03 : Refs.heap_of s1 ⊆ h3) by (etransitivity; eassumption).
  eexists. split; [reflexivity|].
  eapply (simulates_install s s1 _ p _ kept updatedSteps); try eassumption; try reflexivity.
  - apply extends_changes. exact Hsub03.
  - cbn [Refs.with_doc Refs.heap_of Refs.r_fields].
    exact (read_fields_extends _ _ _ _ Hsub13 Hreadf).
  - apply NoDup_map_filter, NoDup_node_locs, Hnd2.
  - cbn [Refs.with_doc Refs.heap_of Refs.r_fields Refs.r_steps]. intros l.
    rewrite !elem_of_union, !elem_of_singleton. intros [[[-> | ->] | Hl] | Hl].
    + right. exact Hfl.
    + right. assert (Hsub02 : Refs.heap_of s1 ⊆ h2) by (transitivity h1; assumption).
      exact (lookup_weaken_None _ _ _ Hsl Hsub02).
    + left. eapply footprint_elem; [exact Hfoot|]. right. right. left.
      eapply field_locs_filter, Hl.
    + right. eapply lookup_weaken_None; [|exact Hsub1].
      apply Hfresh. eapply step_locs_filter, Hl.
  - cbn [_addToHistory Refs.with_doc Refs.r_activeStepId
      Refs.r_selectedFieldId Refs.r_formName Refs.r_theme fields steps activeStepId
      selectedFieldId formName theme past future] in *.
    unfold kept, updatedSteps.
    rewrite (map_filter_comm snd (fun a => negb (opt_is (any_id a) i))).
    rewrite (map_filter_comm Refs.sn_val (fun st => (0 <? length (fieldIds st))%nat)).
    rewrite Hvals, Esn, Efn, Ha1, Hsel1, Hn1, Ht1. reflexivity.
Qed.

(** ** The two writes into existing objects *)

Lemma find_map {A B} (f : A -> B) (P : B -> bool) (l : list A) :
  find P (map f l) = option_map f (find (fun x => P (f x)) l).
Proof.
  induction l as [|x l IH]; simpl; [reflexivity|].
  destruct (P (f x)); [reflexivity | exact IH].
Qed.

Lemma find_split {A} (P : A -> bool) (l : list A) (t : A) :
  find P l = Some t ->
  exists l1 l2, l = l1 ++ t :: l2 /\ Forall (fun x => P x = false) l1 /\ P t = true.
Proof.
  induction l as [|x l IH]; simpl; [discriminate|].
  destruct (P x) eqn:Hx.
  - intros [= ->]. exists [], l. repeat split; [constructor | exact Hx].
  - intros H. destruct (IH H) as (l1 & l2 & -> & Hl1 & Ht).
    exists (x :: l1), l2. repeat split; [constructor; assumption | exact Ht].
Qed.

Lemma update_first_split {A} (P : A -> bool) (g : A -> A) (l1 l2 : list A) (t : A) :
  Forall (fun x => P x = false) l1 -> P t = true ->
  update_first P g (l1 ++ t :: l2) = l1 ++ g t :: l2.
Proof.
  intros H Ht. induction H as [|x l1 Hx _ IH]; simpl.
  - rewrite Ht. reflexivity.
  - rewrite Hx, IH. reflexivity.
Qed.

Lemma find_none_existsb {A} (P : A -> bool) (l : list A) :
  find P l = None -> existsb P l = false.
Proof.
  induction l as [|x l IH]; simpl; [reflexivity|].
  destruct (P x); [discriminate | exact IH].
Qed.

Lemma find_some_existsb {A} (P : A -> bool) (l : list A) (t : A) :
  find P l = Some t -> existsb P l = true.
Proof.
  intros H. apply find_some in H as [Hin Ht]. apply existsb_exists. eauto.
Qed.

(** Writing a cell leaves every step node that lies elsewhere as it
    was. *)
Lemma read_step_insert (h : Refs.heap) (t : Refs.loc) (c : Refs.cell) (m : Refs.StepNode) :
  Refs.read_step h (Refs.sn_loc m) = Some m ->
  Refs.sn_loc m <> t -> Refs.sn_ids m <> t ->
  Refs.read_step (<[t := c]> h) (Refs.sn_loc m) = Some m.
Proof.
  intros Hm H1 H2. apply (read_step_agree h); [exact Hm| |];
    apply lookup_insert_ne; congruence.
Qed.

Lemma read_fields_insert (h : Refs.heap) (t : Refs.loc) (c : Refs.cell) (fl : Refs.loc)
    (fn : list (Refs.loc * AnyFormField)) :
  Refs.read_fields h fl = Some fn ->
  t ∉ {[fl]} ∪ field_locs fn ->
  Refs.read_fields (<[t := c]> h) fl = Some fn.
Proof.
  intros Hf Ht. apply (read_fields_agree h); [exact Hf|].
  intros l Hl. apply lookup_insert_ne. intros ->. exact (Ht Hl).
Qed.

Lemma step_cell_not_field (h : Refs.heap) (fl : Refs.loc)
    (fn : list (Refs.loc * AnyFormField)) (t : Refs.loc) (i name : string) (r : Refs.loc) :
  Refs.read_fields h fl = Some fn -> h !! t = Some (Refs.CStep i name r) ->
  t ∉ {[fl]} ∪ field_locs fn.
Proof.
  intros [Ha Hcells]%read_fields_Some Ht. rewrite elem_of_union, elem_of_singleton.
  intros [->|(n & Hn & ->)%field_locs_elem]; [congruence|].
  rewrite List.Forall_forall in Hcells. specialize (Hcells n Hn). congruence.
Qed.

Lemma unallocated_not_field (h : Refs.heap) (fl : Refs.loc)
    (fn : list (Refs.loc * AnyFormField)) (t : Refs.loc) :
  Refs.read_fields h fl = Some fn -> h !! t = None ->
  t ∉ {[fl]} ∪ field_locs fn.
Proof.
  intros [Ha Hcells]%read_fields_Some Ht. rewrite elem_of_union, elem_of_singleton.
  intros [->|(n & Hn & ->)%field_locs_elem]; [congruence|].
  rewrite List.Forall_forall in Hcells. specialize (Hcells n Hn). congruence.
Qed.

(** [targetStep.fieldIds = [...]]: afterwards the step object refers to
    a new array; every other cell is as before. *)
Lemma assign_fieldIds_spec (t : Refs.StepNode) (more : list string) (h : Refs.heap) :
  Refs.read_step h (Refs.sn_loc t) = Some t ->
  exists r,
    h !! r = None
    /\ Refs.read_step (Refs.assign_fieldIds t more h) (Refs.sn_loc t)
       = Some {| Refs.sn_loc := Refs.sn_loc t; Refs.sn_ids := r;
                 Refs.sn_val := append_fieldIds more (Refs.sn_val t) |}
    /\ (forall l, l <> Refs.sn_loc t -> is_Some (h !! l) ->
                  Refs.assign_fieldIds t more h !! l = h !! l).
Proof.
  intros (_ & Hc & _)%read_step_Some. unfold Refs.assign_fieldIds.
  destruct (Refs.alloc _ h) as [r h1] eqn:Hal.
  apply alloc_fresh in Hal as [Hr ->]. exists r. split; [exact Hr|]. split.
  - apply read_step_Some. simpl. split; [reflexivity|].
    split; [apply lookup_insert_eq|].
    rewrite lookup_insert_ne by congruence. apply lookup_insert_eq.
  - intros l Hl [c Hlc]. rewrite lookup_insert_ne by congruence.
    rewrite lookup_insert_ne by congruence. reflexivity.
Qed.

Lemma removeStep_simulates (stepId : string) :
  simulates (Refs.removeStep stepId) (removeStep stepId).
Proof.
  intros s p Hwf Hrep. start_action Hwf Hrep.
  unfold Refs.removeStep, removeStep. rewrite Hadd. cbn [mbind option_bind].
  rewrite Hs. cbn [mbind option_bind]. cbn [_addToHistory steps] in *.
  rewrite <- Esn, find_map.
  destruct (find (fun n => String.eqb (s_id (Refs.sn_val n)) stepId) sn)
    as [removedStep|] eqn:Hfind; cbn [option_map].
  2: { (* the step does not exist: [return state] *)
    exists s1. split; [reflexivity|]. split; [exact Hwf1|]. split; [exact Hrep1|].
    apply extends_changes, Hsub. }
  rewrite <- (map_filter_comm Refs.sn_val (fun st => negb (String.eqb (s_id st) stepId))).
  set (updatedSteps := List.filter _ sn).
  assert (Hupd : forall m, In m updatedSteps -> In m sn)
    by (intros m Hm; apply filter_In in Hm as [Hm _]; exact Hm).
  assert (Hnd' : NoDup (map Refs.sn_loc updatedSteps)) by (apply NoDup_map_filter, Hnd).
  pose proof Hs as [Harr Hreads]%read_steps_Some.
  assert (Hreads' : Forall (fun n => Refs.read_step (Refs.heap_of s1) (Refs.sn_loc n) = Some n)
                      updatedSteps) by (apply Forall_filter_keep, Hreads).
  destruct (Refs.alloc (Refs.CArr (map Refs.sn_loc updatedSteps)) (Refs.heap_of s1))
    as [sl h1] eqn:Hal.
  destruct (new_steps_array _ _ _ _ Hreads' Hal) as (Hsub1 & Hsl & Hread1).
  pose proof (read_fields_extends _ _ _ _ Hsub1 Hf) as Hf1.
  set (fieldsToReassign := fieldIds (Refs.sn_val removedStep)).
  (* the cells that make up the new document, for an unchanged list of nodes *)
  assert (Hlocs : forall l, l ∈ {[Refs.r_fields s1]} ∪ {[sl]} ∪ field_locs fn
                               ∪ step_locs updatedSteps ->
             l ∈ Refs.footprint (Refs.heap_of s1) (Refs.r_fields s1) (Refs.r_steps s1)
             \/ Refs.heap_of s1 !! l = None).
  { intros l. rewrite !elem_of_union, !elem_of_singleton. intros [[[-> | ->] | Hl] | Hl].
    - old_cell Hfoot.
    - right. exact Hsl.
    - old_cell Hfoot.
    - left. eapply footprint_elem; [exact Hfoot|]. right. right. right.
      apply step_locs_elem in Hl as (m & Hm & Hl). apply step_locs_elem. eauto. }
  destruct updatedSteps as [|first rest] eqn:Eupd.
  - (* no step remains *)
    eexists. split; [reflexivity|].
    eapply (simulates_install s s1 _ p _ fn []); try eassumption; try reflexivity.
    + apply extends_changes. exact Hsub1.
    + cbn [_addToHistory Refs.with_doc Refs.r_activeStepId
        Refs.r_selectedFieldId Refs.r_formName Refs.r_theme fields steps activeStepId
        selectedFieldId formName theme past future map] in *.
      rewrite Efn, Hsel1, Hn1, Ht1. reflexivity.
  - cbn [map find]. rewrite String.eqb_refl.
    destruct (0 <? length fieldsToReassign)%nat eqn:Hnonempty.
    + (* the fields of the removed step go to the first remaining step *)
      assert (Hfirst : Refs.read_step h1 (Refs.sn_loc first) = Some first).
      { apply Forall_cons in Hreads' as [H1 _]. eapply read_step_extends; eassumption. }
      destruct (assign_fieldIds_spec first fieldsToReassign h1 Hfirst)
        as (r & Hr & Hread & Hframe).
      set (h2 := Refs.assign_fieldIds first fieldsToReassign h1) in *.
      pose proof Hfirst as (_ & Hcell & Hids)%read_step_Some.
      set (first' := {| Refs.sn_loc := Refs.sn_loc first; Refs.sn_ids := r;
                        Refs.sn_val := append_fieldIds fieldsToReassign (Refs.sn_val first) |}).
      assert (Hallocated : forall l, is_Some (Refs.heap_of s1 !! l) -> is_Some (h1 !! l)).
      { intros l [c Hc]. exists c. eapply lookup_weaken; eassumption. }
      apply NoDup_cons in Hnd' as [Hnotin Hndrest].
      eexists. split; [reflexivity|].
      eapply (simulates_install s s1 _ p _ fn (first' :: rest)); try eassumption;
        try reflexivity.
      * intros l Hl Hout. cbn [Refs.with_doc Refs.heap_of]. fold h2.
        rewrite Hframe; [destruct Hl as [c Hc]; rewrite Hc;
                          eapply lookup_weaken; eassumption | | apply Hallocated, Hl].
        intros ->. apply Hout. eapply footprint_elem; [exact Hfoot|]. right. right. right.
        apply step_locs_elem. exists first. split; [apply Hupd; left; reflexivity | auto].
      * cbn [Refs.with_doc Refs.heap_of Refs.r_fields]. fold h2.
        apply (read_fields_agree h1); [exact Hf1|].
        intros l Hl. apply Hframe.
        -- intros ->. eapply (step_cell_not_field h1); eassumption.
        -- pose proof Hf1 as [Ha Hcells]%read_fields_Some.
           rewrite elem_of_union, elem_of_singleton in Hl.
           destruct Hl as [->|(n & Hn & ->)%field_locs_elem]; [eauto|].
           rewrite List.Forall_forall in Hcells. eauto.
      * cbn [Refs.with_doc Refs.heap_of Refs.r_steps]. fold h2.
        apply read_steps_Some. split.
        -- pose proof Hread1 as [Harr1 _]%read_steps_Some.
           rewrite Hframe; [exact Harr1 | | eauto].
           intros E. rewrite E in Harr1. congruence.
        -- constructor; [exact Hread|].
           apply Forall_cons in Hreads' as [_ Hrest].
           rewrite List.Forall_forall in *. intros m Hm.
           pose proof (Hrest m Hm) as Hm0.
           pose proof (read_step_extends _ _ _ _ Hsub1 Hm0) as Hm1.
           pose proof Hm1 as (_ & Hmc & Hmi)%read_step_Some.
           apply (read_step_agree h1); [exact Hm1| |]; apply Hframe; eauto.
           ++ intros E. apply Hnotin. rewrite <- E. apply list_elem_of_In, in_map, Hm.
           ++ intros E. congruence.
      * cbn [map Refs.sn_loc first']. apply NoDup_cons. split; assumption.
      * cbn [Refs.with_doc Refs.heap_of Refs.r_fields Refs.r_steps]. intros l.
        rewrite !elem_of_union, !elem_of_singleton. intros [[[-> | ->] | Hl] | Hl].
        -- old_cell Hfoot.
        -- right. exact Hsl.
        -- old_cell Hfoot.
        -- apply step_locs_elem in Hl as (m & [<-|Hm] & Hl).
           ++ destruct Hl as [-> | ->]; cbn [first' Refs.sn_loc Refs.sn_ids].
              ** apply Hlocs. apply elem_of_union_r, step_locs_elem. exists first.
                 split; [left; reflexivity | auto].
              ** right. eapply lookup_weaken_None; eassumption.
           ++ apply Hlocs. apply elem_of_union_r, step_locs_elem. exists m.
              split; [right; exact Hm | exact Hl].
      * cbn [_addToHistory Refs.with_doc Refs.r_activeStepId
          Refs.r_selectedFieldId Refs.r_formName Refs.r_theme fields steps activeStepId
          selectedFieldId formName theme past future map first' Refs.sn_val] in *.
        cbn [update_first].
        rewrite String.eqb_refl, Efn, Hsel1, Hn1, Ht1. reflexivity.
    + (* nothing to reassign *)
      eexists. split; [reflexivity|].
      eapply (simulates_install s s1 _ p _ fn (first :: rest)); try eassumption;
        try reflexivity.
      * apply extends_changes. exact Hsub1.
      * cbn [_addToHistory Refs.with_doc Refs.r_activeStepId
          Refs.r_selectedFieldId Refs.r_formName Refs.r_theme fields steps activeStepId
          selectedFieldId formName theme past future map] in *.
        rewrite Efn, Hsel1, Hn1, Ht1. reflexivity.
Qed.

Lemma NoDup_target (l1 l2 : list Refs.StepNode) (t : Refs.StepNode) :
  NoDup (flat_map Refs.node_locs (l1 ++ t :: l2)) ->
  Refs.sn_loc t <> Refs.sn_ids t
  /\ forall m, In m (l1 ++ l2) ->
       Refs.sn_loc m <> Refs.sn_ids t /\ Refs.sn_ids m <> Refs.sn_ids t.
Proof.
  rewrite flat_map_app. cbn [flat_map Refs.node_locs app].
  intros (H1 & Hdisj & H2)%NoDup_app.
  apply NoDup_cons in H2 as [Ht1 H2]. apply NoDup_cons in H2 as [Ht2 H2].
  split.
  - intros E. apply Ht1. rewrite E. apply elem_of_cons. left. reflexivity.
  - intros m Hm.
    assert (Hloc : forall x, In x (Refs.node_locs m) -> x <> Refs.sn_ids t).
    { intros x Hx ->. apply in_app_or in Hm as [Hm|Hm].
      - apply (Hdisj (Refs.sn_ids t)).
        + apply list_elem_of_In, in_flat_map. eauto.
        + apply elem_of_cons. right. apply elem_of_cons. left. reflexivity.
      - apply Ht2. apply list_elem_of_In, in_flat_map. eauto. }
    split; apply Hloc; simpl; auto.
Qed.

(** The step [addField] pushes the new id to: the active step if there
    is one, the first step otherwise. *)
Lemma target_split (active : option string) (i : string) (cnodes : list Refs.StepNode) :
  cnodes <> [] ->
  exists t l1 l2,
    match find (fun n => opt_is active (s_id (Refs.sn_val n))) cnodes with
    | Some t => Some t
    | None => head cnodes
    end = Some t
    /\ cnodes = l1 ++ t :: l2
    /\ (if existsb (fun st => opt_is active (s_id st)) (map Refs.sn_val cnodes)
        then update_first (fun st => opt_is active (s_id st)) (push_fieldId i)
               (map Refs.sn_val cnodes)
        else update_first (fun _ => true) (push_fieldId i) (map Refs.sn_val cnodes))
       = map Refs.sn_val l1 ++ push_fieldId i (Refs.sn_val t) :: map Refs.sn_val l2.
Proof.
  intros Hne.
  destruct (find (fun n => opt_is active (s_id (Refs.sn_val n))) cnodes) as [t|] eqn:Hfind.
  - destruct (find_split _ _ _ Hfind) as (l1 & l2 & -> & Hl1 & Ht).
    exists t, l1, l2. split; [reflexivity|]. split; [reflexivity|].
    assert (Hex : existsb (fun st => opt_is active (s_id st))
                    (map Refs.sn_val (l1 ++ t :: l2)) = true).
    { apply existsb_exists. exists (Refs.sn_val t). split; [|exact Ht].
      apply in_map, in_or_app. right. left. reflexivity. }
    rewrite Hex, map_app. cbn [map]. apply update_first_split; [|exact Ht].
    clear -Hl1. induction Hl1; simpl; constructor; assumption.
  - destruct cnodes as [|t l2]; [congruence|].
    exists t, [], l2. split; [reflexivity|]. split; [reflexivity|].
    assert (Hex : existsb (fun st => opt_is active (s_id st))
                    (map Refs.sn_val (t :: l2)) = false).
    { apply find_none_existsb. rewrite find_map, Hfind. reflexivity. }
    rewrite Hex. reflexivity.
Qed.

Lemma addField_simulates (uuid1 uuid2 : string) (type : FieldType) :
  simulates (Refs.addField uuid1 uuid2 type) (addField uuid1 uuid2 type).
Proof.
  intros s p Hwf Hrep. start_action Hwf Hrep.
  unfold Refs.addField, addField. rewrite Hadd. cbn [mbind option_bind].
  rewrite Hf, Hs. cbn [mbind option_bind]. cbn [_addToHistory fields steps activeStepId] in *.
  assert (Elen : length fn = length (fields p)) by (rewrite <- Efn, length_map; reflexivity).
  rewrite <- Elen. set (nf := newField uuid1 type (Z.of_nat (length fn))).
  destruct (Refs.alloc (Refs.CField (Field nf)) (Refs.heap_of s1)) as [nl h1] eqn:Hal1.
  destruct (Refs.alloc (Refs.CArr (map fst fn ++ [nl])) h1) as [fl h2] eqn:Hal2.
  apply alloc_extends in Hal1 as (Hsub1 & Hnl1 & Hnl0).
  set (fn' := fn ++ [(nl, Field nf)]).
  pose proof Hf as [_ Hcells]%read_fields_Some.
  assert (Hcells' : Forall (fun n => h1 !! fst n = Some (Refs.CField (snd n))) fn').
  { apply Forall_app. split; [|constructor; [exact Hnl1 | constructor]].
    eapply Forall_impl; [exact Hcells|]. intros n Hn. simpl in *.
    eapply lookup_weaken; eassumption. }
  replace (map fst fn ++ [nl]) with (map fst fn') in Hal2
    by (unfold fn'; rewrite map_app; reflexivity).
  destruct (new_fields_array _ _ _ _ Hcells' Hal2) as (Hsub2 & Hfl & Hreadf).
  assert (Hsub02 : Refs.heap_of s1 ⊆ h2) by (etransitivity; eassumption).
  assert (Hfl0 : Refs.heap_of s1 !! fl = None) by exact (lookup_weaken_None _ _ _ Hfl Hsub1).
  assert (Hflocs : forall l, l ∈ {[fl]} ∪ field_locs fn' ->
             l ∈ Refs.footprint (Refs.heap_of s1) (Refs.r_fields s1) (Refs.r_steps s1)
             \/ Refs.heap_of s1 !! l = None).
  { intros l. rewrite elem_of_union, elem_of_singleton. intros [->|Hl]; [right; exact Hfl0|].
    apply field_locs_elem in Hl as (n & Hn & ->). apply in_app_or in Hn as [Hn|[<-|[]]].
    - left. eapply footprint_elem; [exact Hfoot|]. right. right. left.
      apply field_locs_elem. eauto.
    - right. exact Hnl0. }
  assert (Efields : map snd fn' = fields p ++ [Field nf])
    by (unfold fn'; rewrite map_app, Efn; reflexivity).
  rewrite <- Esn. destruct sn as [|n0 sn0] eqn:Esn0; cbn [map].
  - (* no step yet: a default step is created *)
    destruct (Refs.alloc_step _ h2) as [n h3] eqn:Has.
    destruct (Refs.alloc (Refs.CArr [Refs.sn_loc n]) h3) as [sl h4] eqn:Hal3.
    destruct (alloc_step_spec _ _ _ _ Has) as (Hsub3 & Hval & Hread & Hl0 & Hr0 & Hne).
    destruct (new_steps_array [n] _ _ _ ltac:(constructor; [exact Hread | constructor]) Hal3)
      as (Hsub4 & Hsl & Hreads4).
    assert (Hsub24 : h2 ⊆ h4) by (etransitivity; eassumption).
    assert (Hsub04 : Refs.heap_of s1 ⊆ h4) by (etransitivity; eassumption).
    eexists. split; [reflexivity|].
    eapply (simulates_install s s1 _ p _ fn' [n]); try eassumption; try reflexivity.
    + apply extends_changes. exact Hsub04.
    + cbn [Refs.with_doc Refs.heap_of Refs.r_fields].
      exact (read_fields_extends _ _ _ _ Hsub24 Hreadf).
    + repeat constructor. set_solver.
    + cbn [Refs.with_doc Refs.heap_of Refs.r_fields Refs.r_steps]. intros l.
      rewrite !elem_of_union, !elem_of_singleton. intros [[[-> | ->] | Hl] | Hl].
      * apply Hflocs. set_solver.
      * right. assert (Hsub03 : Refs.heap_of s1 ⊆ h3) by (transitivity h2; assumption).
        exact (lookup_weaken_None _ _ _ Hsl Hsub03).
      * apply Hflocs. set_solver.
      * right. apply step_locs_elem in Hl as (m & [<-|[]] & Hl).
        destruct Hl as [-> | ->]; eapply lookup_weaken_None; eassumption.
    + cbn [_addToHistory Refs.with_doc Refs.r_activeStepId
        Refs.r_selectedFieldId Refs.r_formName Refs.r_theme fields steps activeStepId
        selectedFieldId formName theme past future map] in *.
      rewrite Efields, Hval, Hsel1, Hn1, Ht1. reflexivity.
  - (* the steps are cloned and the id is pushed to the target step *)
    change (Refs.sn_val n0 :: map Refs.sn_val sn0) with (map Refs.sn_val (n0 :: sn0)).
    destruct (Refs.alloc_steps (map Refs.sn_val (n0 :: sn0)) h2) as [cnodes h3] eqn:Has.
    destruct (Refs.alloc (Refs.CArr (map Refs.sn_loc cnodes)) h3) as [sl h4] eqn:Hal3.
    destruct (alloc_steps_nodes _ _ _ _ _ _ Has Hal3)
      as (Hsub24 & Hvals & Hread4 & Hnd4 & Hslnot & Hnew).
    assert (Hsub04 : Refs.heap_of s1 ⊆ h4) by (etransitivity; eassumption).
    assert (Hcne : cnodes <> []) by (intros ->; discriminate Hvals).
    rewrite <- Hvals, Ha1.
    destruct (target_split (activeStepId p) (f_id nf) cnodes Hcne)
      as (t & l1 & l2 & -> & Ecn & ->).
    pose proof Hread4 as [Harr4 Hsteps4]%read_steps_Some.
    assert (Ht4 : Refs.read_step h4 (Refs.sn_loc t) = Some t).
    { rewrite List.Forall_forall in Hsteps4. apply Hsteps4. rewrite Ecn.
      apply in_or_app. right. left. reflexivity. }
    apply read_step_Some in Ht4 as (_ & Htl & Hti).
    unfold Refs.push_id, Refs.read_ids. rewrite Hti. cbn [mbind option_bind].
    rewrite Ecn in Hnd4. destruct (NoDup_target _ _ _ Hnd4) as [Htne Hothers].
    set (t' := {| Refs.sn_loc := Refs.sn_loc t; Refs.sn_ids := Refs.sn_ids t;
                  Refs.sn_val := push_fieldId (f_id nf) (Refs.sn_val t) |}).
    set (h5 := <[Refs.sn_ids t := Refs.CIds (fieldIds (Refs.sn_val t) ++ [f_id nf])]> h4).
    assert (Ht2 : h2 !! Refs.sn_ids t = None).
    { apply Hnew. apply elem_of_union. right. apply step_locs_elem. exists t.
      split; [rewrite Ecn; apply in_or_app; right; left; reflexivity | right; reflexivity]. }
    assert (Ht0 : Refs.heap_of s1 !! Refs.sn_ids t = None)
      by exact (lookup_weaken_None _ _ _ Ht2 Hsub02).
    assert (Elocs : map Refs.sn_loc (l1 ++ t' :: l2) = map Refs.sn_loc cnodes)
      by (rewrite Ecn, !map_app; reflexivity).
    assert (Eslocs : forall l, l ∈ step_locs (l1 ++ t' :: l2) -> l ∈ step_locs cnodes).
    { intros l (m & Hm & Hl)%step_locs_elem. apply step_locs_elem. rewrite Ecn.
      apply in_app_or in Hm as [Hm|[<-|Hm]].
      - exists m. split; [apply in_or_app; left; exact Hm | exact Hl].
      - exists t. split; [apply in_or_app; right; left; reflexivity | exact Hl].
      - exists m. split; [apply in_or_app; right; right; exact Hm | exact Hl]. }
    eexists. split; [reflexivity|].
    eapply (simulates_install s s1 _ p _ fn' (l1 ++ t' :: l2)); try eassumption;
      try reflexivity.
    + intros l Hl Hout. cbn [Refs.with_doc Refs.heap_of]. unfold h5.
      rewrite lookup_insert_ne by (intros <-; destruct Hl as [c Hc]; congruence).
      destruct Hl as [c Hc]. rewrite Hc. exact (lookup_weaken _ _ _ _ Hc Hsub04).
    + cbn [Refs.with_doc Refs.heap_of Refs.r_fields].
      apply read_fields_insert.
      * exact (read_fields_extends _ _ _ _ Hsub24 Hreadf).
      * exact (unallocated_not_field _ _ _ _ Hreadf Ht2).
    + cbn [Refs.with_doc Refs.heap_of Refs.r_steps].
      apply read_steps_Some. split.
      * unfold h5. rewrite lookup_insert_ne, Elocs; [exact Harr4|].
        intros <-. apply Hslnot. apply step_locs_elem. exists t.
        split; [rewrite Ecn; apply in_or_app; right; left; reflexivity | right; reflexivity].
      * rewrite Ecn in Hsteps4. apply List.Forall_forall. intros m Hm.
        rewrite List.Forall_forall in Hsteps4.
        apply in_app_or in Hm as [Hm|[<-|Hm]].
        -- destruct (Hothers m ltac:(apply in_or_app; left; exact Hm)) as [Hm1 Hm2].
           apply read_step_insert; [apply Hsteps4, in_or_app; left; exact Hm|exact Hm1|exact Hm2].
        -- apply read_step_Some. cbn [Refs.sn_loc Refs.sn_ids Refs.sn_val t' push_fieldId
             s_id s_name fieldIds]. unfold h5. split; [reflexivity|]. split.
           ++ rewrite lookup_insert_ne by congruence. exact Htl.
           ++ apply lookup_insert_eq.
        -- destruct (Hothers m ltac:(apply in_or_app; right; exact Hm)) as [Hm1 Hm2].
           apply read_step_insert;
             [apply Hsteps4, in_or_app; right; right; exact Hm|exact Hm1|exact Hm2].
    + rewrite Elocs. apply NoDup_node_locs. rewrite Ecn. exact Hnd4.
    + cbn [Refs.with_doc Refs.heap_of Refs.r_fields Refs.r_steps]. intros l.
      rewrite !elem_of_union, !elem_of_singleton. intros [[[-> | ->] | Hl] | Hl].
      * apply Hflocs. set_solver.
      * right. refine (lookup_weaken_None _ h2 _ _ Hsub02). apply Hnew. set_solver.
      * apply Hflocs. set_solver.
      * right. refine (lookup_weaken_None _ h2 _ _ Hsub02). apply Hnew.
        apply elem_of_union. right. apply Eslocs. exact Hl.
    + cbn [_addToHistory Refs.with_doc Refs.r_activeStepId
        Refs.r_selectedFieldId Refs.r_formName Refs.r_theme fields steps activeStepId
        selectedFieldId formName theme past future] in *.
      rewrite Efields, map_app, Hsel1, Hn1, Ht1. reflexivity.
Qed.

(** ** Every action, and every sequence of actions *)

Lemma run_simulates (a : Action) : simulates (Refs.run a) (run a).
Proof.
  destruct a; cbn [Refs.run run].
  - apply addField_simulates.
  - apply updateField_simulates.
  - apply removeField_simulates.
  - apply reorderFields_simulates.
  - apply setSelectedField_simulates.
  - apply setFormName_simulates.
  - apply toggleTheme_simulates.
  - apply addStep_simulates.
  - apply updateStepName_simulates.
  - apply removeStep_simulates.
  - apply moveFieldToStep_simulates.
  - apply setActiveStep_simulates.
  - intros s p. apply undo_spec.
  - intros s p. apply redo_spec.
  - apply clearForm_simulates.
Qed.

Lemma initialStore_spec :
  Refs.well_formed Refs.initialStore
  /\ represents Refs.initialStore initialFormBuilderState.
Proof.
  unfold Refs.initialStore.
  destruct (Refs.alloc (Refs.CArr []) ∅) as [fl h1] eqn:H1.
  destruct (Refs.alloc (Refs.CArr []) h1) as [sl h2] eqn:H2.
  destruct (new_fields_array [] _ _ _ ltac:(constructor) H1) as (_ & _ & Hf).
  destruct (new_steps_array [] _ _ _ ltac:(constructor) H2) as (Hsub & _ & Hs).
  pose proof (read_fields_extends _ _ _ _ Hsub Hf) as Hf2.
  split.
  - split; [|split].
    + exists [], []. cbn [Refs.heap_of Refs.r_fields Refs.r_steps].
      split; [exact Hf2|]. split; [exact Hs|]. constructor.
    + constructor.
    + unfold Refs.isolated. cbn [Refs.r_past Refs.r_future app map Refs.separate].
      split; [|exact I]. set_solver.
  - unfold represents, Refs.doc_at.
    cbn [Refs.heap_of Refs.r_fields Refs.r_steps Refs.r_activeStepId Refs.r_selectedFieldId
         Refs.r_formName Refs.r_theme Refs.r_past Refs.r_future].
    rewrite Hf2, Hs. repeat split; constructor.
Qed.

Lemma run_all_simulates (l : list Action) (s : Refs.Store) (p : FormBuilderState) :
  Refs.well_formed s -> represents s p ->
  exists s', Refs.run_all l s = Some s' /\ Refs.well_formed s'
             /\ represents s' (run_all l p).
Proof.
  revert s p. induction l as [|a l IH]; intros s p Hwf Hrep.
  - exists s. split; [reflexivity|]. split; assumption.
  - destruct (run_simulates a s p Hwf Hrep) as (s1 & Hrun & Hwf1 & Hrep1 & _).
    destruct (IH s1 (run a p) Hwf1 Hrep1) as (s' & Hall & Hwf' & Hrep').
    exists s'. split; [|split; assumption].
    unfold Refs.run_all in *. cbn [fold_left mbind option_bind]. rewrite Hrun. exact Hall.
Qed.

Lemma run_all_initial (l : list Action) :
  exists s, Refs.run_all l Refs.initialStore = Some s /\ Refs.well_formed s
            /\ represents s (run_all l initialFormBuilderState).
Proof.
  destruct initialStore_spec as [Hwf Hrep]. apply run_all_simulates; assumption.
Qed.

(** Every store that the actions reach is well formed and represents a
    state of the value model. *)
Lemma reachable_represented (s : Refs.Store) :
  Refs.reachable s -> Refs.well_formed s /\ exists p, represents s p.
Proof.
  induction 1 as [|a s s' Hr [Hwf [p Hrep]] Hrun].
  - destruct initialStore_spec as [Hwf Hrep]. split; [exact Hwf|]. eauto.
  - destruct (run_simulates a s p Hwf Hrep) as (s1 & Hrun1 & Hwf1 & Hrep1 & _).
    rewrite Hrun in Hrun1. injection Hrun1 as ->. split; [exact Hwf1|]. eauto.
Qed.

(** A well-formed store represents a state: its document and each of
    its history entries can be read. *)
Lemma entries_readable (h : Refs.heap) (l : list Refs.HistoryRef) :
  Forall (fun e => Refs.wf_doc h (Refs.rh_fields e) (Refs.rh_steps e)) l ->
  exists vs, Forall2 (fun e v => Refs.entry_at h e = Some v) l vs.
Proof.
  induction 1 as [|e l (fn & sn & Hf & Hs & _) _ [vs IH]].
  - exists []. constructor.
  - eexists (_ :: vs). constructor; [|exact IH].
    unfold Refs.entry_at, Refs.doc_at. rewrite Hf, Hs. reflexivity.
Qed.

Lemma well_formed_represents (s : Refs.Store) :
  Refs.well_formed s -> exists p, represents s p.
Proof.
  intros ((fn & sn & Hf & Hs & _) & Hent & _).
  apply Forall_app in Hent as [Hp Hfu].
  destruct (entries_readable _ _ Hp) as [vp Hvp].
  destruct (entries_readable _ _ Hfu) as [vf Hvf].
  exists {| fields := map snd fn; steps := map Refs.sn_val sn;
            activeStepId := Refs.r_activeStepId s;
            selectedFieldId := Refs.r_selectedFieldId s;
            formName := Refs.r_formName s; theme := Refs.r_theme s;
            past := vp; future := vf |}.
  unfold represents, Refs.doc_at. rewrite Hf, Hs. cbn. auto 10.
Qed.

(** ** Undo after a mutating action (heap model) *)

(** C1. For every state [p] and every mutating action [a], [a] followed
    by [undo] gives a state whose fields, steps, active step, form name
    and theme are those of [p], with no field selected.  This is so with
    object identity as well: on every well-formed store that holds [p]
    (every store the actions reach is well formed) the two calls succeed
    and leave a store that holds that state, the in-place writes of
    [addField] and [removeStep] having gone to cells the recorded
    snapshot does not share. *)
Theorem undo_after_mutation (a : Action) (p : FormBuilderState) :
  mutating a = true ->
  let p' := undo (run a p) in
  (fields p' = fields p /\ steps p' = steps p /\ activeStepId p' = activeStepId p
   /\ formName p' = formName p /\ theme p' = theme p /\ selectedFieldId p' = None)
  /\ forall s, Refs.well_formed s -> represents s p ->
       exists s1 s2,
         Refs.run a s = Some s1 /\ Refs.undo s1 = Some s2 /\ represents s2 p'
         /\ Refs.doc_at (Refs.heap_of s2) (Refs.r_fields s2) (Refs.r_steps s2)
            = Refs.doc_at (Refs.heap_of s) (Refs.r_fields s) (Refs.r_steps s).
Proof.
  intros Hm p'. subst p'.
  pose proof (undo_restores_document a p Hm) as Hvalue. cbv zeta in Hvalue.
  split; [exact Hvalue|]. intros s Hwf Hrep.
  destruct (run_simulates a s p Hwf Hrep) as (s1 & Hrun & Hwf1 & Hrep1 & _).
  destruct (undo_spec s1 (run a p) Hwf1 Hrep1) as (s2 & Hundo & _ & Hrep2 & _).
  exists s1, s2. split; [exact Hrun|]. split; [exact Hundo|]. split; [exact Hrep2|].
  destruct Hvalue as (Ef & Es & _).
  destruct Hrep as (Hd & _). destruct Hrep2 as (Hd2 & _).
  rewrite Hd, Hd2, Ef, Es. reflexivity.
Qed.

Lemma undo_after_mutation_witness :
  let a := AddField "f1" "s1" text in
  let p' := undo (run a initialFormBuilderState) in
  (fields p' = [] /\ steps p' = [] /\ activeStepId p' = None
   /\ formName p' = "My New Form" /\ theme p' = light /\ selectedFieldId p' = None)
  /\ exists s1 s2,
       Refs.run a Refs.initialStore = Some s1 /\ Refs.undo s1 = Some s2
       /\ represents s2 p'
       /\ Refs.doc_at (Refs.heap_of s2) (Refs.r_fields s2) (Refs.r_steps s2)
          = Refs.doc_at (Refs.heap_of Refs.initialStore) (Refs.r_fields Refs.initialStore)
              (Refs.r_steps Refs.initialStore).
Proof.
  destruct (undo_after_mutation (AddField "f1" "s1" text) initialFormBuilderState
              eq_refl) as [Hvalue Hstore].
  split; [exact Hvalue|].
  apply Hstore; apply initialStore_spec.
Defined.

(** ** Snapshot isolation *)

(** C3. After any sequence [l] of actions and for any further action
    [a]: both run on the store; the store represents the state of the
    value model, so that every history entry reads as the snapshot value
    recorded when it was taken; the document and the history entries
    occupy pairwise disjoint sets of cells (nothing is shared between a
    snapshot and the document, or between two snapshots); and every
    entry stored before [a] reads, after [a], the fields, steps,
    [fieldIds], active step, form name and theme it read before. *)
Theorem snapshot_isolation (l : list Action) (a : Action) :
  exists s s',
    Refs.run_all l Refs.initialStore = Some s
    /\ Refs.run a s = Some s'
    /\ represents s (run_all l initialFormBuilderState)
    /\ represents s' (run a (run_all l initialFormBuilderState))
    /\ Refs.isolated s /\ Refs.isolated s'
    /\ Forall2 (fun e v => Refs.entry_at (Refs.heap_of s) e = Some v
                           /\ Refs.entry_at (Refs.heap_of s') e = Some v)
         (Refs.r_past s ++ Refs.r_future s)
         (past (run_all l initialFormBuilderState)
          ++ future (run_all l initialFormBuilderState)).
Proof.
  destruct (run_all_initial l) as (s & Hall & Hwf & Hrep).
  destruct (run_simulates a s _ Hwf Hrep) as (s' & Hrun & Hwf' & Hrep' & Hch).
  exists s, s'. split; [exact Hall|]. split; [exact Hrun|].
  split; [exact Hrep|]. split; [exact Hrep'|].
  split; [apply Hwf|]. split; [apply Hwf'|].
  destruct Hrep as (_ & _ & _ & _ & _ & Hp & Hfu).
  pose proof (Forall2_app Hp Hfu) as Hall2.
  apply (Forall2_impl_In _ _ _ _ Hall2).
  intros e v He Hv. split; [exact Hv|].
  destruct (entries_frame s (Refs.heap_of s') e Hwf Hch He) as (E & _). congruence.
Qed.

(** The model tells a shared step object from a cloned one: on a store
    whose history entry shares its step objects with the document, the
    in-place assignment of [removeStep] shows in the entry. *)
Example shared_step_is_altered :
  first_entry_steps shallow_copy_store
  = Some [ {| s_id := "a"; s_name := "A"; fieldIds := [] |};
           {| s_id := "b"; s_name := "B"; fieldIds := ["f"] |} ]
  /\ (Refs.removeStep "b" shallow_copy_store ≫= first_entry_steps)
     = Some [ {| s_id := "a"; s_name := "A"; fieldIds := ["f"] |};
              {| s_id := "b"; s_name := "B"; fieldIds := ["f"] |} ].
Proof. split; vm_compute; reflexivity. Qed.

(** A run of both models side by side. *)
Example snapshots_after_actions :
  let prog := [AddField "f1" "s1" text; AddField "f2" "s1" checkbox; AddStep "s2";
               MoveFieldToStep "f2" "s2"; RemoveStep "s2"] in
  (Refs.run_all prog Refs.initialStore ≫= Refs.abs)
  = Some (run_all prog initialFormBuilderState).
Proof. vm_compute. reflexivity. Qed.

(** * Further properties of the store and of the components *)

(** ** Undo and redo as inverses *)

Lemma last_nonempty {A} (l : list A) : l <> [] -> exists l0 x, l = l0 ++ [x].
Proof.
  intros H. destruct (exists_last H) as (l0 & x & ->). eauto.
Qed.

(** [redo] after [undo]: with a non-empty [past], the whole state comes
    back -- document, [past] and [future] -- and only the selection is
    lost. *)
Theorem redo_after_undo (s : FormBuilderState) :
  past s <> [] -> redo (undo s) = setSelectedField None s.
Proof.
  intros H. destruct (last_nonempty _ H) as (l0 & e & Hp).
  rewrite (undo_snoc s l0 e Hp). unfold redo, setSelectedField, snapshot. simpl.
  rewrite Hp. destruct e. reflexivity.
Qed.

Lemma redo_after_undo_witness :
  let s := run_all [AddField "a" "s1" text; SetFormName "Survey"] initialFormBuilderState in
  redo (undo s) = setSelectedField None s.
Proof.
  apply redo_after_undo. vm_compute. discriminate.
Defined.

(** [undo] after [redo]: with a non-empty [future], the whole state
    comes back, the selection apart. *)
Theorem undo_after_redo (s : FormBuilderState) :
  future s <> [] -> undo (redo s) = setSelectedField None s.
Proof.
  intros H. unfold redo. destruct (future s) as [|e fu] eqn:Hf; [congruence|].
  unfold undo. cbn [past]. rewrite last_snoc_some, drop_last_snoc.
  unfold setSelectedField, snapshot. simpl. rewrite Hf. destruct e. reflexivity.
Qed.

Lemma undo_after_redo_witness :
  let s := undo (run_all [AddField "a" "s1" text; SetFormName "Survey"]
                   initialFormBuilderState) in
  undo (redo s) = setSelectedField None s.
Proof.
  apply undo_after_redo. vm_compute. discriminate.
Defined.

(** Every mutating action empties [future]: [redo] does nothing after
    it, whatever had been undone before. *)
Theorem mutation_discards_redo (a : Action) (s : FormBuilderState) :
  mutating a = true -> redo (run a s) = run a s.
Proof.
  intros Hm. unfold redo. rewrite (future_after_mutation a s Hm). reflexivity.
Qed.

Lemma mutation_discards_redo_witness :
  let s := undo (run_all [AddField "a" "s1" text; AddField "b" "s2" date]
                   initialFormBuilderState) in
  future s <> [] /\ redo (run (SetFormName "Survey") s) = run (SetFormName "Survey") s.
Proof.
  split; [vm_compute; discriminate|].
  apply mutation_discards_redo. reflexivity.
Defined.

(** ** The size of the history *)

Lemma history_size_step (a : Action) (s : FormBuilderState) :
  (length (past s) + length (future s) <= 10)%nat ->
  (length (past (run a s)) + length (future (run a s)) <= 10)%nat.
Proof.
  intros H. destruct (mutating a) eqn:Hm.
  - rewrite (past_length_after_mutation a s Hm), (future_after_mutation a s Hm).
    simpl. lia.
  - destruct a; try discriminate; simpl; try exact H.
    + unfold undo. destruct (last (past s)) as [e|] eqn:Hl; [|exact H].
      simpl. unfold drop_last. rewrite length_firstn.
      destruct (past s); [discriminate|]. simpl in *. lia.
    + unfold redo. destruct (future s) as [|e fu] eqn:Hf; [rewrite Hf; exact H|].
      simpl in *. rewrite length_app. simpl. lia.
Qed.

(** Whatever actions are run from the initial state, [past] and [future]
    together never hold more than ten snapshots ([redo] pushes onto
    [past] without truncating it, but only what [undo] took off). *)
Theorem history_size_bound (l : list Action) :
  let s := run_all l initialFormBuilderState in
  (length (past s) + length (future s) <= 10)%nat.
Proof.
  simpl. assert (H0 : (length (past initialFormBuilderState)
                       + length (future initialFormBuilderState) <= 10)%nat)
    by (simpl; lia).
  revert H0. generalize initialFormBuilderState. unfold run_all.
  induction l as [|a l IH]; intros s H; [exact H|].
  simpl. apply IH, history_size_step, H.
Qed.

(** ** Undo and the changes of the view *)

Lemma view_only_history (a : Action) (s : FormBuilderState) :
  view_only a = true ->
  past (run a s) = past s /\ future (run a s) = future s
  /\ fields (run a s) = fields s /\ steps (run a s) = steps s
  /\ formName (run a s) = formName s.
Proof.
  destruct a; try discriminate; intros _; simpl; auto.
Qed.

Lemma view_only_run_all (l : list Action) (s : FormBuilderState) :
  Forall (fun a => view_only a = true) l ->
  past (run_all l s) = past s /\ future (run_all l s) = future s
  /\ fields (run_all l s) = fields s /\ steps (run_all l s) = steps s
  /\ formName (run_all l s) = formName s.
Proof.
  intros H. revert s. induction H as [|a l Ha _ IH]; intros s; [simpl; auto|].
  change (run_all (a :: l) s) with (run_all l (run a s)).
  destruct (IH (run a s)) as (E1 & E2 & E3 & E4 & E5).
  destruct (view_only_history a s Ha) as (F1 & F2 & F3 & F4 & F5).
  repeat split; congruence.
Qed.

(** [toggleTheme], [setActiveStep] and [setSelectedField] record no
    history entry, yet [undo] takes them back: after a mutating action
    [a] and any number of such view changes, [undo] restores the theme
    and the active step that were current before [a], together with the
    document. *)
Theorem undo_reverts_view_changes (a : Action) (l : list Action) (s : FormBuilderState) :
  mutating a = true -> Forall (fun b => view_only b = true) l ->
  let s' := undo (run_all (a :: l) s) in
  fields s' = fields s /\ steps s' = steps s /\ formName s' = formName s
  /\ theme s' = theme s /\ activeStepId s' = activeStepId s
  /\ selectedFieldId s' = None.
Proof.
  intros Hm Hl s'. subst s'.
  change (run_all (a :: l) s) with (run_all l (run a s)).
  destruct (view_only_run_all l (run a s) Hl) as (Hp & _).
  rewrite (past_after_mutation a s Hm) in Hp.
  rewrite (undo_snoc _ _ _ Hp). simpl. auto 10.
Qed.

Lemma undo_reverts_view_changes_witness :
  let s := run_all [AddField "a" "s1" text; AddStep "s2"] initialFormBuilderState in
  let s' := undo (run_all [SetFormName "Survey"; ToggleTheme; SetActiveStep "s1"] s) in
  theme (run_all [SetFormName "Survey"; ToggleTheme; SetActiveStep "s1"] s) = dark
  /\ theme s' = light /\ activeStepId s' = Some "s2".
Proof.
  pose proof (undo_reverts_view_changes (SetFormName "Survey")
                [ToggleTheme; SetActiveStep "s1"]
                (run_all [AddField "a" "s1" text; AddStep "s2"] initialFormBuilderState)
                eq_refl ltac:(repeat constructor)) as H.
  cbv zeta in H. destruct H as (_ & _ & _ & Ht & Ha & _).
  split; [reflexivity|]. split; [exact Ht | exact Ha].
Defined.

(** ** [removeField] *)

Lemma filter_nonempty_without (i : string) (l : list FormStep) :
  List.filter (fun st => (0 <? length (fieldIds st))%nat) (map (without_field i) l)
  = map (without_field i)
      (List.filter (fun st => existsb (fun x => negb (String.eqb x i)) (fieldIds st)) l).
Proof.
  induction l as [|st l IH]; [reflexivity|]. cbn [map List.filter].
  assert (E : (0 <? length (fieldIds (without_field i st)))%nat
              = existsb (fun x => negb (String.eqb x i)) (fieldIds st)).
  { unfold without_field. cbn [fieldIds].
    induction (fieldIds st) as [|x xs IHx]; [reflexivity|].
    cbn [List.filter existsb]. destruct (negb (String.eqb x i)); [reflexivity|exact IHx]. }
  rewrite E. destruct (existsb _ (fieldIds st)); cbn [map]; rewrite IH; reflexivity.
Qed.

(** [removeField(id)] takes the id out of every step and deletes every
    step that is left without a field, the steps that were empty before
    the call included: the steps that remain are those that list some
    other id.  No remaining field has the id, and the selection is
    cleared when it was the removed field. *)
Theorem removeField_steps (i : string) (s : FormBuilderState) :
  let s' := removeField i s in
  steps s' = map (without_field i)
               (List.filter (fun st => existsb (fun x => negb (String.eqb x i)) (fieldIds st))
                  (steps s))
  /\ (forall st, In st (steps s') -> ~ In i (fieldIds st) /\ fieldIds st <> [])
  /\ (forall a, In a (fields s') -> In a (fields s) /\ any_id a <> Some i)
  /\ selectedFieldId s' = (if opt_is (selectedFieldId s) i then None else selectedFieldId s).
Proof.
  cbv zeta. unfold removeField. cbn [_addToHistory fields steps selectedFieldId].
  split; [apply filter_nonempty_without|]. split; [|split; [|reflexivity]].
  - intros st Hst. apply List.filter_In in Hst as [Hst Hne].
    apply in_map_iff in Hst as (st0 & <- & _). split.
    + unfold without_field. cbn [fieldIds]. intros Hin.
      apply List.filter_In in Hin as [_ Hneq]. rewrite String.eqb_refl in Hneq. discriminate.
    + intros E. rewrite E in Hne. discriminate.
  - intros a Ha. apply List.filter_In in Ha as [Ha Hneq]. split; [exact Ha|].
    intros E. rewrite E in Hneq. simpl in Hneq. rewrite String.eqb_refl in Hneq. discriminate.
Qed.

(** After [removeField] the active step is [null] exactly when no step
    remains, and otherwise names one of the remaining steps, also when
    it named none before; an active step that remains stays active. *)
Theorem removeField_active_step (i : string) (s : FormBuilderState) :
  let s' := removeField i s in
  match activeStepId s' with
  | None => steps s' = []
  | Some x => exists st, In st (steps s') /\ s_id st = x
  end
  /\ (forall st, In st (steps s') -> activeStepId s = Some (s_id st) -> s_id st <> "" ->
        activeStepId s' = activeStepId s).
Proof.
  cbv zeta. unfold removeField. cbn [_addToHistory fields steps activeStepId].
  set (us := List.filter _ (map (without_field i) (steps s))).
  unfold next_active. destruct us as [|first rest] eqn:Eus.
  - split; [reflexivity|]. intros st [].
  - destruct (negb (truthy (activeStepId s))
              || negb (existsb (fun st => opt_eqb (Some (s_id st)) (activeStepId s))
                         (first :: rest))) eqn:Ec.
    + split; [exists first; split; [left|]; reflexivity|].
      intros st Hst Ha Hne. exfalso.
      apply orb_true_iff in Ec as [Ec|Ec]; apply negb_true_iff in Ec.
      * rewrite Ha in Ec. simpl in Ec. apply negb_false_iff in Ec.
        apply String.eqb_eq in Ec. contradiction.
      * assert (Hex : existsb (fun st0 => opt_eqb (Some (s_id st0)) (activeStepId s))
                        (first :: rest) = true).
        { apply existsb_exists. exists st. split; [exact Hst|].
          rewrite Ha. simpl. apply String.eqb_refl. }
        congruence.
    + apply orb_false_iff in Ec as [_ Ec]. apply negb_false_iff in Ec.
      apply existsb_exists in Ec as (st & Hst & E).
      destruct (activeStepId s) as [x|] eqn:Ea; [|discriminate E].
      simpl in E. apply String.eqb_eq in E. split; [exists st; auto|]. reflexivity.
Qed.

(** ** [addField] and the steps *)

Lemma update_first_true {A} (f : A -> A) (x : A) (l : list A) :
  update_first (fun _ => true) f (x :: l) = f x :: l.
Proof. reflexivity. Qed.

(** Where [addField] puts the new field.  Without a step, a step named
    [Step 1] is created for it and becomes the active step.  Otherwise
    the id is appended to one step and no other step changes: to the
    first step whose id is [activeStepId], or to the first step of the
    document when no step has that id -- in which case [activeStepId] is
    left as it was, naming no step. *)
Theorem addField_placement (uuid1 uuid2 : string) (type : FieldType) (s : FormBuilderState) :
  let s' := addField uuid1 uuid2 type s in
  match steps s with
  | [] =>
      steps s' = [ {| s_id := uuid2; s_name := "Step 1"; fieldIds := [uuid1] |} ]
      /\ activeStepId s' = Some uuid2
  | _ :: _ =>
      activeStepId s' = activeStepId s
      /\ exists l1 t l2,
           steps s = l1 ++ t :: l2
           /\ steps s' = l1 ++ push_fieldId uuid1 t :: l2
           /\ (forall st, In st l1 -> activeStepId s <> Some (s_id st))
           /\ (activeStepId s = Some (s_id t)
               \/ (l1 = [] /\ forall st, In st (steps s) -> activeStepId s <> Some (s_id st)))
  end.
Proof.
  cbv zeta. unfold addField. cbn [_addToHistory fields steps activeStepId].
  destruct (steps s) as [|first rest] eqn:Es; cbn [steps activeStepId newField f_id].
  - split; reflexivity.
  - split; [reflexivity|].
    set (is_active := fun st : FormStep => opt_is (activeStepId s) (s_id st)).
    assert (Hact : forall st, is_active st = true <-> activeStepId s = Some (s_id st)).
    { intros st. unfold is_active, opt_is. destruct (activeStepId s) as [x|].
      - rewrite String.eqb_eq. split; [intros ->; reflexivity | intros [= ->]; reflexivity].
      - split; discriminate. }
    destruct (find is_active (first :: rest)) as [t|] eqn:Hfind.
    + destruct (find_split _ _ _ Hfind) as (l1 & l2 & El & Hl1 & Ht).
      rewrite (find_some_existsb _ _ _ Hfind).
      exists l1, t, l2. split; [exact El|]. split.
      * rewrite El. apply update_first_split; [|exact Ht].
        exact Hl1.
      * split; [|left; apply Hact, Ht].
        intros st Hst E. apply Hact in E.
        rewrite List.Forall_forall in Hl1. rewrite (Hl1 st Hst) in E. discriminate.
    + rewrite (find_none_existsb _ _ Hfind).
      exists [], first, rest. split; [reflexivity|]. split; [reflexivity|].
      split; [intros st []|]. right. split; [reflexivity|].
      intros st Hst E. apply Hact in E.
      pose proof (find_none _ _ Hfind st Hst) as Hn. congruence.
Qed.

(** ** [reorderFields] *)

Lemma splice_start_nat (len i : nat) : splice_start len (Z.of_nat i) = Nat.min i len.
Proof.
  unfold splice_start. destruct (Z.of_nat i <? 0) eqn:E; [lia|].
  destruct (Nat.min_spec i len) as [[H ->]|[H ->]]; lia.
Qed.

Lemma mapi_from_map {A B C} (g : A -> B) (f : B -> Z -> C) (k : nat) (l : list A) :
  mapi_from k f (map g l) = mapi_from k (fun a => f (g a)) l.
Proof.
  revert k. induction l as [|x l IH]; intros k; [reflexivity|].
  simpl. rewrite IH. reflexivity.
Qed.

Lemma mapi_from_length {A B} (f : A -> Z -> B) (k : nat) (l : list A) :
  length (mapi_from k f l) = length l.
Proof.
  revert k. induction l as [|x l IH]; intros k; [reflexivity|].
  simpl. rewrite IH. reflexivity.
Qed.

Lemma any_order_with_order (o : option AnyFormField) (index : Z) :
  any_order (with_order o index) = index.
Proof. destruct o as [[f|z]|]; reflexivity. Qed.

Lemma orders_mapi_from (k : nat) (l : list (option AnyFormField)) :
  map any_order (mapi_from k with_order l) = map Z.of_nat (seq k (length l)).
Proof.
  revert k. induction l as [|o l IH]; intros k; [reflexivity|].
  simpl. rewrite any_order_with_order, IH. reflexivity.
Qed.

Lemma sort_by_order_length (l : list AnyFormField) :
  length (sort_by_order l) = length l.
Proof. apply Permutation_length, sort_by_order_Permutation. Qed.

Lemma firstn_1_skipn {A} (l : list A) (i : nat) (x : A) :
  nth_error l i = Some x -> firstn 1 (skipn i l) = [x].
Proof.
  intros H. apply nth_error_split in H as (l1 & l2 & -> & <-).
  rewrite skipn_app, Nat.sub_diag, skipn_all. reflexivity.
Qed.

Lemma reorderFields_in_range (i j : nat) (s : FormBuilderState) :
  (i < length (fields s))%nat -> (j < length (fields s))%nat ->
  let s' := reorderFields (Z.of_nat i) (Z.of_nat j) s in
  fields s' = mapi (fun a => with_order (Some a)) (move_item i j (sort_by_order (fields s)))
  /\ steps s' = steps s /\ activeStepId s' = activeStepId s.
Proof.
  intros Hi Hj. cbv zeta. unfold reorderFields. cbn [_addToHistory fields steps activeStepId].
  unfold splice_remove1. rewrite splice_start_nat, sort_by_order_length.
  rewrite Nat.min_l by lia. set (sorted := sort_by_order (fields s)).
  assert (Hlen : length sorted = length (fields s)) by apply sort_by_order_length.
  destruct (nth_error sorted i) as [x|] eqn:Hx;
    [|apply nth_error_None in Hx; lia].
  cbn [fields steps activeStepId].
  set (rest := firstn i sorted ++ skipn (S i) sorted).
  assert (Hrest : length rest = (length (fields s) - 1)%nat).
  { unfold rest. rewrite length_app, length_firstn, length_skipn. lia. }
  assert (E : splice_insert (map Some rest) (Z.of_nat j) (Some x)
              = map Some (move_item i j sorted)).
  { unfold splice_insert, move_item. rewrite splice_start_nat, length_map, Hrest.
    rewrite Nat.min_l by lia. fold rest. rewrite (firstn_1_skipn _ _ _ Hx).
    rewrite !map_app, firstn_map, skipn_map. reflexivity. }
  rewrite E. unfold mapi. split; [apply mapi_from_map|]. split; reflexivity.
Qed.

Lemma move_item_length {A} (i j : nat) (l : list A) :
  (i < length l)%nat -> (j < length l)%nat -> length (move_item i j l) = length l.
Proof.
  intros Hi Hj. unfold move_item.
  assert (H1 : length (firstn 1 (skipn i l)) = 1%nat).
  { rewrite length_firstn, length_skipn. lia. }
  rewrite !length_app, H1, length_firstn, length_skipn, !length_app, length_firstn,
    length_skipn. lia.
Qed.

(** What [reorderFields] computes with its two indices in range: the
    fields are sorted by [order] (stably), the one at position
    [startIndex] of that sorted list is moved to position [endIndex], and
    every field gets its new position as [order], all other properties
    kept.  The indices are positions among all the fields of the
    document, whatever steps they are in. *)
Theorem reorderFields_moves (i j : nat) (s : FormBuilderState) :
  (i < length (fields s))%nat -> (j < length (fields s))%nat ->
  let s' := reorderFields (Z.of_nat i) (Z.of_nat j) s in
  fields s' = mapi (fun a => with_order (Some a)) (move_item i j (sort_by_order (fields s)))
  /\ map any_order (fields s') = map Z.of_nat (seq 0 (length (fields s)))
  /\ steps s' = steps s /\ activeStepId s' = activeStepId s.
Proof.
  intros Hi Hj. cbv zeta.
  destruct (reorderFields_in_range i j s Hi Hj) as (Ef & Es & Ea).
  split; [exact Ef|]. split; [|split; assumption].
  rewrite Ef. unfold mapi.
  rewrite <- (mapi_from_map Some with_order), orders_mapi_from, length_map.
  rewrite move_item_length; rewrite ?sort_by_order_length; [reflexivity | lia | lia].
Qed.

Lemma reorderFields_moves_witness :
  let s := run_all [AddField "a" "s1" text; AddField "b" "s2" date; AddField "c" "s3" checkbox]
             initialFormBuilderState in
  map any_id (fields (reorderFields 2 0 s)) = [Some "c"; Some "a"; Some "b"].
Proof.
  pose proof (reorderFields_moves 2 0
                (run_all [AddField "a" "s1" text; AddField "b" "s2" date;
                          AddField "c" "s3" checkbox] initialFormBuilderState)
                ltac:(vm_compute; lia) ltac:(vm_compute; lia)) as H.
  cbv zeta in H. destruct H as (H & _).
  change (Z.of_nat 2) with 2 in H. change (Z.of_nat 0) with 0 in H.
  cbv zeta. rewrite H. vm_compute. reflexivity.
Defined.

(** [reorderFields] with a start index past the last field removes
    nothing and still inserts: the document gains an object whose only
    property is [order], placed at the (clamped) end index. *)
Theorem reorderFields_start_out_of_range (startIndex endIndex : Z) (s : FormBuilderState) :
  Z.of_nat (length (fields s)) <= startIndex ->
  let s' := reorderFields startIndex endIndex s in
  let k := splice_start (length (fields s)) endIndex in
  length (fields s') = S (length (fields s))
  /\ nth_error (fields s') k = Some (OrderOnly (Z.of_nat k))
  /\ field_ids (fields s') = field_ids (sort_by_order (fields s)).
Proof.
  intros Hs. cbv zeta. unfold reorderFields. cbn [_addToHistory fields].
  unfold splice_remove1. rewrite sort_by_order_length.
  set (sorted := sort_by_order (fields s)).
  assert (Hlen : length sorted = length (fields s)) by apply sort_by_order_length.
  assert (Hk : splice_start (length (fields s)) startIndex = length (fields s)).
  { unfold splice_start. destruct (startIndex <? 0) eqn:E; lia. }
  rewrite Hk. rewrite (proj2 (nth_error_None sorted _)) by lia.
  rewrite firstn_all2 by lia. rewrite skipn_all2 by lia. rewrite app_nil_r.
  cbn [fields]. unfold mapi, splice_insert. rewrite length_map, Hlen.
  set (k := splice_start (length (fields s)) endIndex).
  assert (Hkle : (k <= length (fields s))%nat).
  { unfold k, splice_start. destruct (endIndex <? 0) eqn:E; lia. }
  split; [|split].
  - rewrite mapi_from_length, length_app, length_firstn. simpl.
    rewrite length_skipn, length_map. lia.
  - assert (Hgen : forall (l1 l2 : list (option AnyFormField)) n,
               nth_error (mapi_from n with_order (l1 ++ None :: l2)) (length l1)
               = Some (OrderOnly (Z.of_nat (n + length l1)))).
    { induction l1 as [|o l1 IH]; intros l2 n; simpl.
      - rewrite Nat.add_0_r. reflexivity.
      - rewrite IH. do 3 f_equal. lia. }
    specialize (Hgen (firstn k (map Some sorted)) (skipn k (map Some sorted)) 0%nat).
    rewrite length_firstn, length_map, Hlen, Nat.min_l in Hgen by exact Hkle.
    exact Hgen.
  - rewrite field_ids_mapi_from.
    change (None :: skipn k (map Some sorted)) with ([None] ++ skipn k (map Some sorted)).
    rewrite !slot_ids_app. change (slot_ids [None]) with (@nil string). simpl.
    rewrite <- slot_ids_app, firstn_skipn. apply slot_ids_Some.
Qed.

Lemma reorderFields_start_out_of_range_witness :
  let s := run_all [AddField "a" "s1" text; AddField "b" "s2" date] initialFormBuilderState in
  length (fields (reorderFields 2 0 s)) = 3%nat
  /\ nth_error (fields (reorderFields 2 0 s)) 0 = Some (OrderOnly 0).
Proof.
  pose proof (reorderFields_start_out_of_range 2 0
                (run_all [AddField "a" "s1" text; AddField "b" "s2" date]
                   initialFormBuilderState) ltac:(vm_compute; discriminate)) as H.
  cbv zeta in H. destruct H as (H1 & H2 & _). split; [exact H1 | exact H2].
Defined.

(** ** Step ids that match no step *)

Lemma find_none_id (stepId : string) (l : list FormStep) :
  (forall st, In st l -> s_id st <> stepId) ->
  find (fun st => String.eqb (s_id st) stepId) l = None.
Proof.
  intros H. destruct (find _ l) as [st|] eqn:E; [|reflexivity].
  apply find_some in E as [Hin Heq]. apply String.eqb_eq in Heq.
  exfalso. exact (H st Hin Heq).
Qed.

(** [removeStep] and [updateStepName] with an id that no step has leave
    the document, the active step and the selection as they are, but
    still record a history entry (and empty [future]): the state they
    leave is the one [_addToHistory] alone leaves. *)
Theorem unknown_step_id (stepId newName : string) (s : FormBuilderState) :
  (forall st, In st (steps s) -> s_id st <> stepId) ->
  removeStep stepId s = _addToHistory s
  /\ updateStepName stepId newName s = _addToHistory s.
Proof.
  intros H. split.
  - unfold removeStep. cbn [_addToHistory steps]. rewrite (find_none_id _ _ H). reflexivity.
  - assert (E : map (renamed (fun st => String.eqb (s_id st) stepId) newName) (steps s)
                = steps s).
    { transitivity (map (fun st => st) (steps s)); [|apply map_id].
      apply map_ext_in. intros st Hst. unfold renamed.
      destruct (String.eqb (s_id st) stepId) eqn:E; [|reflexivity].
      apply String.eqb_eq in E. exfalso. exact (H st Hst E). }
    unfold updateStepName. cbn [_addToHistory fields steps activeStepId selectedFieldId
                                 formName theme past future].
    rewrite E. reflexivity.
Qed.

Lemma unknown_step_id_witness :
  let s := run_all [AddField "a" "s1" text] initialFormBuilderState in
  removeStep "s9" s = _addToHistory s /\ updateStepName "s9" "Details" s = _addToHistory s.
Proof.
  apply unknown_step_id. intros st [<-|[]]. vm_compute. discriminate.
Defined.

(** [moveFieldToStep] with a target id that no step has takes the field
    out of every step and puts it nowhere: the field stays in [fields]
    but no step lists it any more. *)
Theorem moveFieldToStep_unknown_target (fieldId targetStepId : string) (s : FormBuilderState) :
  (forall st, In st (steps s) -> s_id st <> targetStepId) ->
  let s' := moveFieldToStep fieldId targetStepId s in
  fields s' = fields s
  /\ steps s' = map (without_field fieldId) (steps s)
  /\ (forall st, In st (steps s') -> ~ In fieldId (fieldIds st)).
Proof.
  intros H. cbv zeta. unfold moveFieldToStep. cbn [_addToHistory fields steps].
  assert (E : map (move_in_step fieldId targetStepId) (steps s)
              = map (without_field fieldId) (steps s)).
  { apply map_ext_in. intros st Hst. unfold move_in_step, without_field.
    destruct (String.eqb (s_id st) targetStepId) eqn:Et; [|reflexivity].
    apply String.eqb_eq in Et. exfalso. exact (H st Hst Et). }
  split; [reflexivity|]. split; [exact E|]. rewrite E.
  intros st Hst. apply in_map_iff in Hst as (st0 & <- & _).
  unfold without_field. cbn [fieldIds]. intros Hin.
  apply List.filter_In in Hin as [_ Hneq]. rewrite String.eqb_refl in Hneq. discriminate.
Qed.

Lemma moveFieldToStep_unknown_target_witness :
  let s := run_all [AddField "a" "s1" text] initialFormBuilderState in
  let s' := moveFieldToStep "a" "" s in
  fields s' = fields s /\ map fieldIds (steps s') = [[]].
Proof.
  pose proof (moveFieldToStep_unknown_target "a" ""
                (run_all [AddField "a" "s1" text] initialFormBuilderState)) as H.
  cbv zeta in H.
  destruct H as (H1 & H2 & _); [intros st [<-|[]]; vm_compute; discriminate|].
  split; [exact H1|]. cbv zeta. rewrite H2. vm_compute. reflexivity.
Defined.

(** [removeStep] on the only step of a document leaves no step: the
    fields stay in [fields] and belong to no step, and no step is
    active. *)
Theorem removeStep_only_step (st : FormStep) (s : FormBuilderState) :
  steps s = [st] ->
  let s' := removeStep (s_id st) s in
  steps s' = [] /\ fields s' = fields s /\ activeStepId s' = None
  /\ past s' = slice_last9 (past s) ++ [snapshot s].
Proof.
  intros H. cbv zeta. unfold removeStep. cbn [_addToHistory steps]. rewrite H.
  cbn [find List.filter]. rewrite String.eqb_refl. cbn [negb].
  cbn [steps fields activeStepId past]. auto.
Qed.

Lemma removeStep_only_step_witness :
  let s := run_all [AddField "a" "s1" text; AddField "b" "s2" date] initialFormBuilderState in
  let s' := removeStep "s1" s in
  steps s' = [] /\ length (fields s') = 2%nat /\ activeStepId s' = None.
Proof.
  pose proof (removeStep_only_step
                {| s_id := "s1"; s_name := "Step 1"; fieldIds := ["a"; "b"] |}
                (run_all [AddField "a" "s1" text; AddField "b" "s2" date]
                   initialFormBuilderState) eq_refl) as H.
  cbv zeta in H. cbn [s_id] in H. destruct H as (H1 & H2 & H3 & _).
  cbv zeta. rewrite H2. split; [exact H1|]. split; [reflexivity | exact H3].
Defined.

(** ** The form name and the history *)

Lemma skipn_In {A} (n : nat) (l : list A) (x : A) : In x (skipn n l) -> In x l.
Proof. intros H. rewrite <- (firstn_skipn n l). apply in_or_app. right. exact H. Qed.

Lemma slice_last9_app_good {A} (P : A -> Prop) (l1 l2 : list A) (x : A) (k : nat) :
  Forall P l2 -> P x -> (Nat.min k 10 <= length l2)%nat -> (length (l1 ++ l2) <= 10)%nat ->
  exists l1' l2',
    slice_last9 (l1 ++ l2) ++ [x] = l1' ++ l2' /\ Forall P l2'
    /\ (Nat.min (S k) 10 <= length l2')%nat /\ (length (l1' ++ l2') <= 10)%nat.
Proof.
  intros H2 Hx Hk Hlen. unfold slice_last9. rewrite skipn_app.
  set (m := (length (l1 ++ l2) - 9)%nat).
  exists (skipn m l1), (skipn (m - length l1) l2 ++ [x]).
  split; [rewrite app_assoc; reflexivity|]. split; [|split].
  - apply Forall_app. split; [|constructor; [exact Hx | constructor]].
    apply List.Forall_forall. intros y Hy. rewrite List.Forall_forall in H2.
    apply H2. eapply skipn_In, Hy.
  - rewrite length_app, length_skipn. simpl. unfold m. rewrite length_app in *. lia.
  - rewrite !length_app, !length_skipn. simpl. unfold m. rewrite length_app in *. lia.
Qed.

Lemma setFormName_run (names : list string) (s : FormBuilderState)
    (P : HistoryState -> Prop) (l1 l2 : list HistoryState) (k : nat) :
  (forall n, P {| h_fields := fields s; h_steps := steps s;
                  h_activeStepId := activeStepId s; h_formName := n;
                  h_theme := theme s |}) ->
  past s = l1 ++ l2 -> Forall P l2 -> (Nat.min k 10 <= length l2)%nat ->
  (length (l1 ++ l2) <= 10)%nat ->
  let s' := run_all (map SetFormName names) s in
  fields s' = fields s /\ steps s' = steps s /\ activeStepId s' = activeStepId s
  /\ theme s' = theme s
  /\ exists l1' l2',
       past s' = l1' ++ l2' /\ Forall P l2'
       /\ (Nat.min (k + length names) 10 <= length l2')%nat
       /\ (length (l1' ++ l2') <= 10)%nat.
Proof.
  revert s l1 l2 k. induction names as [|n names IH]; intros s l1 l2 k HP Hp H2 Hk Hlen.
  - cbv zeta. simpl. repeat split; try reflexivity.
    exists l1, l2. rewrite Nat.add_0_r. auto.
  - cbv zeta. change (run_all (map SetFormName (n :: names)) s)
      with (run_all (map SetFormName names) (setFormName n s)).
    destruct (slice_last9_app_good P l1 l2 (snapshot s) k H2 (HP (formName s)) Hk Hlen)
      as (l1' & l2' & E & H2' & Hk' & Hlen').
    assert (Hp' : past (setFormName n s) = l1' ++ l2').
    { unfold setFormName. cbn [_addToHistory past]. rewrite Hp. exact E. }
    specialize (IH (setFormName n s) l1' l2' (S k)).
    cbv zeta in IH. cbn [setFormName _addToHistory fields steps activeStepId theme] in IH.
    destruct (IH HP Hp' H2' Hk' Hlen') as (E1 & E2 & E3 & E4 & l1'' & l2'' & E5 & H6 & H7 & H8).
    repeat split; try assumption.
    exists l1'', l2''. repeat split; try assumption.
    simpl. replace (k + S (length names))%nat with (S k + length names)%nat by lia.
    exact H7.
Qed.

(** The header calls [setFormName] at every keystroke in the name box,
    and every call records a history entry.  After ten calls or more the
    ten entries of [past] all hold the current fields, steps, active
    step and theme: whatever was done to the document before is out of
    the reach of [undo], which can only take back the name. *)
Theorem setFormName_evicts_history (names : list string) (s : FormBuilderState) :
  (10 <= length names)%nat ->
  let s' := run_all (map SetFormName names) s in
  fields s' = fields s /\ steps s' = steps s
  /\ length (past s') = 10%nat
  /\ Forall (fun e => h_fields e = fields s /\ h_steps e = steps s
                      /\ h_activeStepId e = activeStepId s /\ h_theme e = theme s)
       (past s').
Proof.
  intros Hn.
  destruct names as [|n names]; [simpl in Hn; lia|].
  cbv zeta. change (run_all (map SetFormName (n :: names)) s)
    with (run_all (map SetFormName names) (setFormName n s)).
  pose proof (setFormName_run names (setFormName n s)
                (fun e => h_fields e = fields s /\ h_steps e = steps s
                          /\ h_activeStepId e = activeStepId s /\ h_theme e = theme s)
                (slice_last9 (past s)) [snapshot s] 1) as H'.
  cbv zeta in H'. cbn [setFormName _addToHistory fields steps activeStepId theme past] in H'.
  destruct H' as (E1 & E2 & _ & _ & l1 & l2 & Ep & HP & Hk & Hlen).
  - intros m. simpl. auto.
  - reflexivity.
  - constructor; [simpl; auto | constructor].
  - simpl. lia.
  - rewrite length_app, slice_last9_length. simpl. lia.
  - simpl in Hn. rewrite length_app in Hlen.
    assert (Hl1 : l1 = []) by (destruct l1; [reflexivity | simpl in *; lia]).
    subst l1. simpl in Ep, Hlen.
    split; [exact E1|]. split; [exact E2|]. rewrite Ep. split; [lia | exact HP].
Qed.

Lemma setFormName_evicts_history_witness :
  let s := run_all [AddField "a" "s1" text; AddField "b" "s2" date] initialFormBuilderState in
  let s' := run_all (map SetFormName ["S"; "Su"; "Sur"; "Surv"; "Surve"; "Survey";
                                      "Survey "; "Survey 2"; "Survey 20"; "Survey 202"]) s in
  length (past s') = 10%nat
  /\ Forall (fun e => h_fields e = fields s /\ h_steps e = steps s
                      /\ h_activeStepId e = activeStepId s /\ h_theme e = theme s)
       (past s').
Proof.
  pose proof (setFormName_evicts_history
                ["S"; "Su"; "Sur"; "Surv"; "Surve"; "Survey";
                 "Survey "; "Survey 2"; "Survey 20"; "Survey 202"]
                (run_all [AddField "a" "s1" text; AddField "b" "s2" date]
                   initialFormBuilderState) ltac:(simpl; lia)) as H.
  cbv zeta in H. destruct H as (_ & _ & H1 & H2). split; [exact H1 | exact H2].
Defined.

(** ** Dragging a field on the builder page *)

Lemma filter_all {A} (f : A -> bool) (l : list A) :
  Forall (fun x => f x = true) l -> List.filter f l = l.
Proof.
  induction 1 as [|x l Hx _ IH]; [reflexivity|]. simpl. rewrite Hx, IH. reflexivity.
Qed.

Lemma firstn_In {A} (n : nat) (l : list A) (x : A) : In x (firstn n l) -> In x l.
Proof. intros H. rewrite <- (firstn_skipn n l). apply in_or_app. left. exact H. Qed.

Lemma move_item_In {A} (i j : nat) (l : list A) (x : A) :
  In x (move_item i j l) -> In x l.
Proof.
  unfold move_item. intros H.
  assert (Hrest : forall y, In y (firstn i l ++ skipn (S i) l) -> In y l).
  { intros y Hy. apply in_app_or in Hy as [Hy|Hy].
    - eapply firstn_In, Hy.
    - eapply skipn_In, Hy. }
  apply in_app_or in H as [H|H]; [apply Hrest; eapply firstn_In, H|].
  apply in_app_or in H as [H|H].
  - eapply skipn_In. eapply firstn_In, H.
  - apply Hrest. eapply skipn_In, H.
Qed.

Lemma map_move_item {A B} (f : A -> B) (i j : nat) (l : list A) :
  map f (move_item i j l) = move_item i j (map f l).
Proof.
  unfold move_item.
  rewrite !firstn_map, !skipn_map, <- !map_app, !firstn_map, !skipn_map, <- !map_app.
  reflexivity.
Qed.

Lemma any_id_renumbered (k : nat) (l : list AnyFormField) :
  map any_id (mapi_from k (fun a => with_order (Some a)) l) = map any_id l.
Proof.
  revert k. induction l as [|a l IH]; intros k; [reflexivity|].
  simpl. rewrite IH. destruct a; reflexivity.
Qed.

Lemma sort_renumbered (k : nat) (l : list AnyFormField) :
  sort_by_order (mapi_from k (fun a => with_order (Some a)) l)
  = mapi_from k (fun a => with_order (Some a)) l.
Proof.
  revert k. induction l as [|a l IH]; intros k; [reflexivity|].
  cbn [mapi_from sort_by_order]. rewrite IH.
  destruct l as [|b l]; [reflexivity|]. cbn [mapi_from insert_by_order].
  rewrite !any_order_with_order.
  rewrite (proj2 (Z.leb_le (Z.of_nat k) (Z.of_nat (S k)))) by lia. reflexivity.
Qed.

Lemma in_step_renumbered (activeStep : FormStep) (k : nat) (l : list AnyFormField) :
  Forall (fun field => Builder.in_step activeStep field = true) l ->
  Forall (fun field => Builder.in_step activeStep field = true)
    (mapi_from k (fun a => with_order (Some a)) l).
Proof.
  intros H. revert k. induction H as [|a l Ha _ IH]; intros k; [constructor|].
  simpl. constructor; [|apply IH].
  unfold Builder.in_step in *. destruct a; exact Ha.
Qed.

(** Dragging on the builder page, in a document whose fields all belong
    to the active step: dropping the field shown at position [i] on
    position [j] makes the page show the fields with that one moved from
    [i] to [j].  ([onDragEnd] passes the positions in the list the page
    shows to [reorderFields], which counts positions among all fields of
    the document; the two agree when the page shows them all.) *)
Theorem drag_within_single_step (i j : nat) (s : FormBuilderState) (activeStep : FormStep) :
  find (fun step => opt_is (activeStepId s) (s_id step)) (steps s) = Some activeStep ->
  Forall (fun field => Builder.in_step activeStep field = true) (fields s) ->
  (i < length (fields s))%nat -> (j < length (fields s))%nat ->
  let result :=
    {| Builder.source := {| Builder.droppableId := "form-preview";
                            Builder.index := Z.of_nat i |};
       Builder.destination := Some {| Builder.droppableId := "form-preview";
                                      Builder.index := Z.of_nat j |} |} in
  length (Builder.fieldsInActiveStep s) = length (fields s)
  /\ map any_id (Builder.fieldsInActiveStep (Builder.onDragEnd result s))
     = move_item i j (map any_id (Builder.fieldsInActiveStep s)).
Proof.
  intros Hfind Hall Hi Hj. cbv zeta.
  assert (Hshown : Builder.fieldsInActiveStep s = sort_by_order (fields s)).
  { unfold Builder.fieldsInActiveStep. rewrite Hfind, (filter_all _ _ Hall). reflexivity. }
  split; [rewrite Hshown; apply sort_by_order_length|].
  change (Builder.onDragEnd _ s) with (reorderFields (Z.of_nat i) (Z.of_nat j) s).
  destruct (reorderFields_in_range i j s Hi Hj) as (Ef & Es & Ea).
  unfold Builder.fieldsInActiveStep at 1. rewrite Es, Ea, Hfind, Ef. unfold mapi.
  assert (Hmoved : Forall (fun field => Builder.in_step activeStep field = true)
                     (move_item i j (sort_by_order (fields s)))).
  { apply List.Forall_forall. intros x Hx. apply move_item_In in Hx.
    rewrite List.Forall_forall in Hall. apply Hall.
    eapply Permutation_in; [apply sort_by_order_Permutation | exact Hx]. }
  rewrite (filter_all _ _ (in_step_renumbered activeStep 0 _ Hmoved)).
  rewrite sort_renumbered, any_id_renumbered, map_move_item, Hshown. reflexivity.
Qed.

Lemma drag_within_single_step_witness :
  let s := run_all [AddField "a" "s1" text; AddField "b" "s2" date; AddField "c" "s3" checkbox]
             initialFormBuilderState in
  let result :=
    {| Builder.source := {| Builder.droppableId := "form-preview"; Builder.index := 0 |};
       Builder.destination := Some {| Builder.droppableId := "form-preview";
                                      Builder.index := 2 |} |} in
  map any_id (Builder.fieldsInActiveStep (Builder.onDragEnd result s))
  = [Some "b"; Some "c"; Some "a"].
Proof.
  pose proof (drag_within_single_step 0 2
                (run_all [AddField "a" "s1" text; AddField "b" "s2" date;
                          AddField "c" "s3" checkbox] initialFormBuilderState)
                {| s_id := "s1"; s_name := "Step 1"; fieldIds := ["a"; "b"; "c"] |}
                eq_refl ltac:(repeat constructor)
                ltac:(vm_compute; lia) ltac:(vm_compute; lia)) as H.
  cbv zeta in H. destruct H as [_ H].
  cbv zeta. change (Z.of_nat 0) with 0 in H. change (Z.of_nat 2) with 2 in H.
  rewrite H. vm_compute. reflexivity.
Defined.

(** ** When [validateField] accepts *)

Lemma message_nonempty (a b : string) : (0 < String.length b)%nat -> a +:+ b <> "".
Proof.
  intros H E. apply (f_equal String.length) in E. rewrite append_length in E.
  simpl in E. lia.
Qed.

Lemma message_nonempty_l (a b : string) : (0 < String.length a)%nat -> a +:+ b <> "".
Proof.
  intros H E. apply (f_equal String.length) in E. rewrite append_length in E.
  simpl in E. lia.
Qed.

Lemma required_error_nonempty (label : string) : required_error label <> "".
Proof. apply message_nonempty. simpl. lia. Qed.

Lemma too_short_error_nonempty (label : string) (n : Z) : too_short_error label n <> "".
Proof.
  unfold too_short_error. apply message_nonempty. rewrite !append_length. simpl. lia.
Qed.

Lemma too_long_error_nonempty (label : string) (n : Z) : too_long_error label n <> "".
Proof.
  unfold too_long_error. apply message_nonempty. rewrite !append_length. simpl. lia.
Qed.

Lemma format_error_nonempty (label : string) : format_error label <> "".
Proof. apply message_nonempty. simpl. lia. Qed.

Lemma pattern_error_nonempty (label : string) : pattern_error label <> "".
Proof. apply message_nonempty_l. simpl. lia. Qed.

Create HintDb messages.
#[local] Hint Resolve required_error_nonempty too_short_error_nonempty
  too_long_error_nonempty format_error_nonempty pattern_error_nonempty : messages.

Ltac atom b :=
  lazymatch b with
  | f_required _ => idtac
  | truthy_num _ => idtac
  | truthy _ => idtac
  | Z.ltb _ _ => idtac
  | String.eqb _ _ => idtac
  | ?f _ => is_var f
  end.

(** Case analysis on the conditions of the checks. *)
Ltac split_checks :=
  repeat match goal with
         | |- context [if ?b then _ else _] => atom b; destruct b eqn:?; cbn [andb orb negb]
         | |- context [andb ?b _] => atom b; destruct b eqn:?; cbn [andb orb negb]
         | |- context [orb ?b _] => atom b; destruct b eqn:?; cbn [andb orb negb]
         | |- context [negb ?b] => atom b; destruct b eqn:?; cbn [andb orb negb]
         | |- context [match ?R ?p with Some _ => _ | None => _ end] =>
             is_var R; destruct (R p) eqn:?; cbn [andb orb negb]
         | |- context [match ?x with Some _ => _ | None => _ end] =>
             is_var x; destruct x eqn:?; cbn [andb orb negb]
         end.

Lemma currentError_nonempty (RegExp : string -> option (string -> bool))
    (field : FormField) (selectedFile : option string) (currentValue m : string) :
  currentError RegExp field selectedFile currentValue = Some m -> m <> "".
Proof.
  unfold currentError.
  destruct (f_type field); cbn [is_text is_textarea is_checkbox is_fileUpload orb andb];
    split_checks; intros H; try discriminate H;
    injection H as <-; auto with messages.
Qed.

Lemma currentError_fires (RegExp : string -> option (string -> bool))
    (field : FormField) (selectedFile : option string) (currentValue : string) :
  let t := f_type field in
  let v := f_validation field in
  let textual := is_text t || is_textarea t in
  negb (throws (currentError RegExp field selectedFile currentValue))
  = (f_required field
     && (if is_fileUpload t then throws selectedFile else String.eqb currentValue ""))
    || (textual && truthy_num (minLength v)
        && (str_len currentValue <? num_or_zero (minLength v)))
    || (textual && truthy_num (maxLength v)
        && (num_or_zero (maxLength v) <? str_len currentValue))
    || (is_text t && truthy (pattern v)
        && match RegExp (or_empty (pattern v)) with
           | Some regex_test =>
               negb (String.eqb currentValue "") && negb (regex_test currentValue)
           | None => true
           end)
    || (is_checkbox t && f_required field && negb (String.eqb currentValue "true")).
Proof.
  cbv zeta. unfold currentError, throws.
  destruct (f_type field); cbn [is_text is_textarea is_checkbox is_fileUpload orb andb];
    split_checks; reflexivity.
Qed.

(** [validateField] returns [true] exactly when none of its five checks
    fires: a check only ever sets the error, none clears the error an
    earlier check has set.  The checks are, in the order of the source:
    required and empty (for a [fileUpload] field: no file selected); on
    [text] and [textarea] fields shorter than a non-zero [minLength], or
    longer than a non-zero [maxLength]; on [text] fields with a
    non-empty pattern, a pattern that is no regular expression or a
    non-empty value that does not match; on a required checkbox, a value
    other than ['true']. *)
Theorem validateField_accepts (RegExp : string -> option (string -> bool))
    (field : FormField) (selectedFile : option string) (currentValue : string) :
  let t := f_type field in
  let v := f_validation field in
  let textual := is_text t || is_textarea t in
  snd (validateField RegExp field selectedFile currentValue)
  = negb (f_required field
          && (if is_fileUpload t then throws selectedFile else String.eqb currentValue ""))
    && negb (textual && truthy_num (minLength v)
             && (str_len currentValue <? num_or_zero (minLength v)))
    && negb (textual && truthy_num (maxLength v)
             && (num_or_zero (maxLength v) <? str_len currentValue))
    && negb (is_text t && truthy (pattern v)
             && match RegExp (or_empty (pattern v)) with
                | Some regex_test =>
                    negb (String.eqb currentValue "") && negb (regex_test currentValue)
                | None => true
                end)
    && negb (is_checkbox t && f_required field && negb (String.eqb currentValue "true")).
Proof.
  cbv zeta. rewrite <- !negb_orb, <- currentError_fires, negb_involutive.
  unfold validateField. cbn [snd].
  destruct (currentError RegExp field selectedFile currentValue) as [m|] eqn:He;
    [|reflexivity].
  pose proof (currentError_nonempty _ _ _ _ _ He) as Hm.
  destruct (truthy_Some m Hm) as [-> _]. reflexivity.
Qed.

(** ** The filler's check of one field *)

(** The check the filler makes on one field, in terms of the preview's
    [validateField]: a required field with an empty value gets the
    required message, and nothing overwrites it; in every other case the
    error is the one the preview computes for the same field taken as
    not required.  (So the filler has no rule of its own for checkboxes
    and file uploads.) *)
Theorem filler_field_error (RegExp : string -> option (string -> bool))
    (f : FormField) (selectedFile : option string) (value : string) :
  Filler.field_error RegExp (Field f) value
  = if f_required f && String.eqb value "" then Some (required_error (f_label f))
    else currentError RegExp (not_required f) selectedFile value.
Proof.
  unfold Filler.field_error, currentError. cbn [not_required f_required f_type f_label
    f_validation andb].
  destruct (f_required f && String.eqb value ""); [reflexivity|].
  destruct (f_type f); reflexivity.
Qed.

(** The filler and the preview report the same error for a field that
    is not required, and for a required field other than a checkbox or
    a file upload whose value is not empty. *)
Theorem filler_agrees_with_preview (RegExp : string -> option (string -> bool))
    (f : FormField) (selectedFile : option string) (value : string) :
  f_required f = false \/
  (value <> "" /\ is_checkbox (f_type f) = false /\ is_fileUpload (f_type f) = false) ->
  Filler.field_error RegExp (Field f) value = currentError RegExp f selectedFile value.
Proof.
  intros [H|(Hv & Hc & Hf)]; unfold Filler.field_error, currentError.
  - rewrite H. cbn [andb]. destruct (f_type f); reflexivity.
  - apply String.eqb_neq in Hv. rewrite Hv, andb_false_r.
    destruct (f_type f); try discriminate; destruct (f_required f); reflexivity.
Qed.

Lemma filler_agrees_with_preview_witness :
  let email := merge (newField "f1" text 0)
                 (mkUpdates None None (Some "Email") None (Some true) None None
                    (Some (mkValidation (Some 5) None (Some "@"))) None None None) in
  Filler.field_error literalRegExp (Field email) "a@b"
  = currentError literalRegExp email None "a@b".
Proof.
  apply filler_agrees_with_preview. right. repeat split. discriminate.
Defined.

(** A required checkbox that was ticked and unticked again has the
    value ['false']: the filler accepts it, the preview's
    [validateField] rejects it. *)
Theorem unticked_required_checkbox (RegExp : string -> option (string -> bool))
    (f : FormField) (selectedFile : option string) :
  f_type f = checkbox -> f_required f = true ->
  Filler.field_error RegExp (Field f) "false" = None
  /\ Filler.field_error RegExp (Field f) "" = Some (required_error (f_label f))
  /\ currentError RegExp f selectedFile "false" = Some (required_error (f_label f)).
Proof.
  intros Ht Hr. unfold Filler.field_error, currentError. rewrite Ht, Hr. auto.
Qed.

Lemma unticked_required_checkbox_witness :
  let terms := merge (newField "f1" checkbox 0)
                 (mkUpdates None None (Some "Terms") None (Some true) None None
                    None None None None) in
  Filler.field_error literalRegExp (Field terms) "false" = None
  /\ Filler.field_error literalRegExp (Field terms) "" = Some (required_error "Terms")
  /\ currentError literalRegExp terms None "false" = Some (required_error "Terms").
Proof.
  apply (unticked_required_checkbox literalRegExp
           (merge (newField "f1" checkbox 0)
              (mkUpdates None None (Some "Terms") None (Some true) None None
                 None None None None)) None); reflexivity.
Defined.

(** ** [validateStep] *)




(** ** Moving between the steps of the filler *)

Lemma effectiveSteps_nonempty (formData : FormData) :
  (0 < length (Filler.effectiveSteps formData))%nat.
Proof.
  unfold Filler.effectiveSteps. destruct (fd_steps formData); simpl; lia.
Qed.

(** The step index of the filler stays inside the effective steps, of
    which there is always at least one: it starts at [0], [Next] moves
    it one step forward and only when the current step validates,
    [Previous] one step back, a successful submission puts it back to
    [0], and no handler takes it out of range.  So [activeStep] is never
    [undefined]. *)
Theorem filler_step_index (RegExp : string -> option (string -> bool))
    (formId now submittedAt : string) (formData : FormData)
    (st : Filler.State) (ls : LocalStorage) :
  let n := length (Filler.effectiveSteps formData) in
  let i := Filler.currentStepIndex st in
  let valid := snd (Filler.validateStep RegExp (Filler.fieldsInActiveStep formData i)
                      (Filler.formValues st)) in
  (i < n)%nat ->
  (Filler.currentStepIndex Filler.initialState < n)%nat
  /\ Filler.currentStepIndex (Filler.handleNextStep RegExp formData st)
     = (if valid && (S i <? n)%nat then S i else i)
  /\ (Filler.currentStepIndex (Filler.handleNextStep RegExp formData st) < n)%nat
  /\ (Filler.currentStepIndex (Filler.handlePreviousStep st) < n)%nat
  /\ (Filler.currentStepIndex (Filler.handlePreviousStep st) = i - 1)%nat
  /\ (Filler.currentStepIndex
        (fst (fst (Filler.handleSubmit RegExp formId formData now submittedAt st ls)))
      < n)%nat
  /\ nth_error (Filler.effectiveSteps formData) i <> None.
Proof.
  cbv zeta. pose proof (effectiveSteps_nonempty formData) as Hn. intros Hi.
  split; [exact Hn|].
  unfold Filler.handleNextStep, Filler.handlePreviousStep, Filler.handleSubmit.
  destruct (Filler.validateStep RegExp
              (Filler.fieldsInActiveStep formData (Filler.currentStepIndex st))
              (Filler.formValues st)) as [newErrors isValid].
  cbn [snd Filler.currentStepIndex].
  assert (E : (Z.of_nat (Filler.currentStepIndex st)
               <? Z.of_nat (length (Filler.effectiveSteps formData)) - 1)
              = (S (Filler.currentStepIndex st)
                 <? length (Filler.effectiveSteps formData))%nat).
  { destruct (Nat.ltb_spec (S (Filler.currentStepIndex st))
                (length (Filler.effectiveSteps formData))); lia. }
  rewrite E. split; [reflexivity|]. split; [|split; [|split; [|split]]].
  - destruct isValid; cbn [andb]; [|exact Hi].
    destruct (Nat.ltb_spec (S (Filler.currentStepIndex st))
                (length (Filler.effectiveSteps formData))); lia.
  - destruct (0 <? Filler.currentStepIndex st)%nat; lia.
  - destruct (Nat.ltb_spec 0 (Filler.currentStepIndex st)); lia.
  - destruct isValid; cbn [fst Filler.currentStepIndex Filler.initialState]; lia.
  - apply nth_error_Some. exact Hi.
Qed.

Lemma filler_step_index_witness :
  let formData :=
    {| fd_formName := "Survey"; fd_fields := [];
       fd_steps := [ {| s_id := "s1"; s_name := "Step 1"; fieldIds := [] |};
                     {| s_id := "s2"; s_name := "Step 2"; fieldIds := [] |} ] |} in
  Filler.currentStepIndex (Filler.handleNextStep literalRegExp formData Filler.initialState)
  = 1%nat
  /\ nth_error (Filler.effectiveSteps formData) 0 <> None.
Proof.
  pose proof (filler_step_index literalRegExp "form_1" "1" "2025-01-01"
                {| fd_formName := "Survey"; fd_fields := [];
                   fd_steps := [ {| s_id := "s1"; s_name := "Step 1"; fieldIds := [] |};
                                 {| s_id := "s2"; s_name := "Step 2"; fieldIds := [] |} ] |}
                Filler.initialState
                {| savedForms := Absent; submissions := Absent |}
                ltac:(simpl; lia)) as H.
  cbv zeta in H. destruct H as (_ & H1 & _ & _ & _ & _ & H2).
  split; [rewrite H1; reflexivity | exact H2].
Defined.

(** ** Ticking a checkbox in the filler *)





(** ** Shared forms in [localStorage] *)


Lemma object_set_found {A} (k : string) (e : Entry A) (own : gmap string (Entry A)) :
  object_set k e own !! k
  = match own !! k with
    | Some _ => Some e
    | None => if String.eqb k "__proto__" then None else Some e
    end.
Proof.
  unfold object_set. destruct (own !! k) eqn:E; [apply lookup_insert_eq|].
  destruct (String.eqb k "__proto__"); [exact E | apply lookup_insert_eq].
Qed.



(** ** From the builder to the filler *)

Lemma steps_or_empty (l : list FormStep) : match l with [] => [] | _ :: _ => l end = l.
Proof. destruct l; reflexivity. Qed.

(** An id that [generateFormId] makes starts with [form_]: it is neither
    [__proto__] nor an array index. *)
Lemma generated_id_plain (now random : string) :
  String.eqb (generateFormId now random) "__proto__" = false
  /\ array_index (generateFormId now random) = None.
Proof. split; reflexivity. Qed.

Lemma save_generated (window now random createdAt updatedAt : string)
    (formData : FormData) (ls ls' : LocalStorage) :
  is_array (savedForms ls) = false ->
  saveFormToLocalStorage (Some window) (generateFormId now random) createdAt updatedAt
    formData ls = Some ls' ->
  submissions ls' = submissions ls
  /\ exists own,
       savedForms ls' = Parsed (JObject own)
       /\ own !! generateFormId now random
          = Some (Written {| sf_formName := fd_formName formData;
                             sf_fields := fd_fields formData;
                             sf_steps := fd_steps formData;
                             sf_id := generateFormId now random;
                             sf_createdAt := createdAt; sf_updatedAt := updatedAt |}).
Proof.
  intros Harr. unfold saveFormToLocalStorage.
  destruct (savedForms ls) as [| |[own|elems|s| | |]]; try discriminate.
  - intros [= <-]. split; [reflexivity|]. eexists. split; [reflexivity|].
    rewrite object_set_found, lookup_empty. reflexivity.
  - intros [= <-]. split; [reflexivity|]. eexists. split; [reflexivity|].
    rewrite object_set_found. destruct (own !! _); reflexivity.
Qed.

Lemma share_then_load (inherits : Kind -> string -> bool) (trim : string -> string)
    (window now random createdAt updatedAt link : string)
    (s : FormBuilderState) (ls ls' : LocalStorage) (fallbackFormData : option FormData) :
  is_array (savedForms ls) = false ->
  Builder.handleShareForm trim (Some window) now random createdAt updatedAt s ls
  = (Builder.Shared link, ls') ->
  Filler.load inherits (generateFormId now random) fallbackFormData ls'
  = (Some {| fd_formName := trim (formName s); fd_fields := fields s;
             fd_steps := steps s |}, false).
Proof.
  intros Harr. unfold Builder.handleShareForm.
  destruct (String.eqb_spec (trim (formName s)) "") as [|Hname]; [discriminate|].
  destruct (length (fields s) =? 0)%nat; [discriminate|].
  rewrite steps_or_empty.
  destruct (saveFormToLocalStorage _ _ _ _ _ ls) as [ls1|] eqn:Hs; [|discriminate].
  intros [= <- <-].
  destruct (save_generated _ _ _ _ _ _ _ _ Harr Hs) as (_ & own & Hitem & Hown).
  unfold Filler.load. rewrite Hitem. cbn [property]. rewrite Hown.
  cbn [sf_formName sf_fields sf_steps fd_formName fd_fields fd_steps].
  apply String.eqb_neq in Hname. rewrite Hname. reflexivity.
Qed.

(** A form that [handleShareForm] has shared is the form the filler
    page shows under the same id, whatever fallback the loader found:
    its name is the trimmed form name, its fields and steps are those of
    the builder.  This needs the item under [formBuilder_savedForms] not
    to be the text of an array (on an array the form is assigned to a
    property that the JSON text leaves out).  Sharing succeeds only for
    a document that has a field and a name that is not blank, and the
    link leads to the id. *)
Theorem shared_form_is_found (inherits : Kind -> string -> bool) (trim : string -> string)
    (window now random createdAt updatedAt link : string)
    (s : FormBuilderState) (ls ls' : LocalStorage) (fallbackFormData : option FormData) :
  is_array (savedForms ls) = false ->
  Builder.handleShareForm trim (Some window) now random createdAt updatedAt s ls
  = (Builder.Shared link, ls') ->
  Filler.load inherits (generateFormId now random) fallbackFormData ls'
  = (Some {| fd_formName := trim (formName s); fd_fields := fields s;
             fd_steps := steps s |}, false)
  /\ link = window +:+ "/fill-form/" +:+ generateFormId now random
  /\ trim (formName s) <> "" /\ fields s <> []
  /\ submissions ls' = submissions ls.
Proof.
  intros Harr H. split; [exact (share_then_load _ _ _ _ _ _ _ _ _ _ _ _ Harr H)|].
  revert H. unfold Builder.handleShareForm.
  destruct (String.eqb_spec (trim (formName s)) "") as [|Hname]; [discriminate|].
  destruct (fields s) as [|f fs] eqn:Ef; [discriminate|]. cbn [length Nat.eqb].
  destruct (saveFormToLocalStorage _ _ _ _ _ ls) as [ls1|] eqn:Hs; [|discriminate].
  intros [= <- <-].
  destruct (save_generated _ _ _ _ _ _ _ _ Harr Hs) as (Hsub & _).
  split; [reflexivity|]. split; [exact Hname|]. split; [discriminate | exact Hsub].
Qed.

Lemma shared_form_is_found_witness :
  let s := run_all [AddField "a" "s1" text; SetFormName "Survey"] initialFormBuilderState in
  let ls := {| savedForms := Absent; submissions := Absent |} in
  let r := Builder.handleShareForm (fun x => x) (Some "https://forms.example") "1" "x7"
             "2025-01-01" "2025-01-01" s ls in
  fst r = Builder.Shared "https://forms.example/fill-form/form_1_x7"
  /\ Filler.load (fun _ _ => false) "form_1_x7" None (snd r)
     = (Some {| fd_formName := "Survey"; fd_fields := fields s; fd_steps := steps s |},
        false).
Proof.
  split; [reflexivity|].
  exact (proj1 (shared_form_is_found (fun _ _ => false) (fun x => x)
                  "https://forms.example" "1" "x7"
                  "2025-01-01" "2025-01-01" "https://forms.example/fill-form/form_1_x7"
                  (run_all [AddField "a" "s1" text; SetFormName "Survey"]
                     initialFormBuilderState)
                  {| savedForms := Absent; submissions := Absent |}
                  _ None eq_refl eq_refl)).
Defined.

(** ** Submitting the filled form *)


(** ** Documents built through the components *)

Lemma proper_field_ids (fs : list AnyFormField) (a : AnyFormField) :
  Forall proper fs -> In a fs -> exists f, a = Field f /\ In (f_id f) (field_ids fs).
Proof.
  intros H Ha. rewrite List.Forall_forall in H. specialize (H a Ha).
  destruct a as [f|o]; [|destruct H]. exists f. split; [reflexivity|].
  apply field_ids_In. exists (Field f). auto.
Qed.

Lemma field_ids_length (fs : list AnyFormField) :
  (length (field_ids fs) <= length fs)%nat.
Proof. induction fs as [|[f|o] fs IH]; simpl; lia. Qed.

Lemma NoDup_Permutation_ids (l l' : list string) :
  Permutation l' l -> List.NoDup l -> List.NoDup l'.
Proof. intros Hp Hnd. eapply Permutation_NoDup; [symmetry; exact Hp | exact Hnd]. Qed.

Lemma active_ok_same_ids (ss ss' : list FormStep) (active : option string) :
  map s_id ss' = map s_id ss -> active_ok ss active -> active_ok ss' active.
Proof.
  intros E. unfold active_ok. destruct active as [x|]; [rewrite E; auto|].
  intros ->. destruct ss'; [reflexivity | discriminate E].
Qed.

Lemma next_active_ok (active : option string) (us : list FormStep) :
  active_ok us (next_active active us).
Proof.
  unfold next_active, active_ok. destruct us as [|first rest]; [reflexivity|].
  destruct (negb (truthy active)
            || negb (existsb (fun st => opt_eqb (Some (s_id st)) active) (first :: rest)))
    eqn:Ec.
  - left. reflexivity.
  - apply orb_false_iff in Ec as [_ Ec]. apply negb_false_iff in Ec.
    apply existsb_exists in Ec as (st & Hst & E).
    destruct active as [x|]; [|discriminate E].
    simpl in E. apply String.eqb_eq in E. subst x. apply in_map, Hst.
Qed.

Lemma renamed_sids (cond : FormStep -> bool) (name : string) (ss : list FormStep) :
  step_field_ids (map (renamed cond name) ss) = step_field_ids ss
  /\ map s_id (map (renamed cond name) ss) = map s_id ss.
Proof.
  split.
  - unfold step_field_ids. rewrite map_map. f_equal. apply map_ext.
    intros st. unfold renamed. destruct (cond st); reflexivity.
  - rewrite map_map. apply map_ext.
    intros st. unfold renamed. destruct (cond st); reflexivity.
Qed.

Lemma update_one_proper (i : string) (u : FieldUpdates) (fs : list AnyFormField) :
  Forall proper fs -> Forall proper (map (update_one i u) fs).
Proof.
  intros H. apply Forall_map. eapply Forall_impl; [exact H|].
  intros [f|o] Hp; [|destruct Hp]. simpl. destruct (String.eqb (f_id f) i); exact I.
Qed.

Lemma field_ids_update_same (i : string) (u : FieldUpdates) (fs : list AnyFormField) :
  u_id u = None -> field_ids (map (update_one i u) fs) = field_ids fs.
Proof.
  intros Hu. rewrite field_ids_update, Hu. transitivity (map (fun x => x) (field_ids fs));
    [|apply map_id].
  apply map_ext. intros x. destruct (String.eqb x i); reflexivity.
Qed.

Lemma renumbered_proper (k : nat) (l : list AnyFormField) :
  Forall proper l -> Forall proper (mapi_from k (fun a => with_order (Some a)) l).
Proof.
  intros H. revert k. induction H as [|a l Ha _ IH]; intros k; [constructor|].
  simpl. constructor; [|apply IH]. destruct a; [exact I | destruct Ha].
Qed.

Lemma shown_length (s : FormBuilderState) :
  (length (Builder.fieldsInActiveStep s) <= length (fields s))%nat.
Proof.
  unfold Builder.fieldsInActiveStep. destruct (find _ (steps s)); [|simpl; lia].
  rewrite sort_by_order_length. apply filter_length_le.
Qed.

Lemma shown_In (s : FormBuilderState) (field : AnyFormField) :
  In field (Builder.fieldsInActiveStep s) -> In field (fields s).
Proof.
  unfold Builder.fieldsInActiveStep. destruct (find _ (steps s)); [|intros []].
  intros H. eapply Permutation_in in H; [|apply sort_by_order_Permutation].
  apply List.filter_In in H. apply H.
Qed.

Lemma selectedField_In (s : FormBuilderState) (field : AnyFormField) (i : string) :
  UI.selectedField s = Some field -> any_id field = Some i ->
  In i (field_ids (fields s)) /\ selectedFieldId s = Some i.
Proof.
  unfold UI.selectedField. destruct (truthy (selectedFieldId s)); [|discriminate].
  intros Hf Hi. apply find_some in Hf as [Hin Heq]. split.
  - apply field_ids_In. exists field. auto.
  - rewrite Hi in Heq. destruct (selectedFieldId s) as [x|]; [|discriminate Heq].
    simpl in Heq. apply String.eqb_eq in Heq. congruence.
Qed.

Lemma consistent_empty : consistent [] [] None.
Proof.
  split; [apply doc_ok_empty|]. split; [constructor|]. split; [constructor|].
  split; [intros x []|reflexivity].
Qed.

(** The document after a call that a component makes. *)
Lemma consistent_call (s : FormBuilderState) (a : Action) :
  consistent (fields s) (steps s) (activeStepId s) -> UI.offers s a ->
  mutating a = true ->
  consistent (fields (run a s)) (steps (run a s)) (activeStepId (run a s)).
Proof.
  intros (Hdoc & Hprop & Hnd & Hcov & Hact) Ho Hm.
  destruct Ho as [uuid1 uuid2 type Hfresh|uuid Hfresh
                 |field i u Hsel Hi Hu _ _|field i step Hsel Hi Hlen Hstep|field i Hsel Hi
                 |field i _ _|i j Hi Hj
                 |step _ _|step name _ _|step Hlen Hstep
                 |name| | | |]; try discriminate Hm; cbn [run].
  - (* addField *)
    split; [apply doc_ok_addField; assumption|].
    unfold addField. cbn [_addToHistory fields steps activeStepId].
    assert (Hids : field_ids (fields s ++ [Field (newField uuid1 type
                      (Z.of_nat (length (fields s))))]) = field_ids (fields s) ++ [uuid1])
      by (rewrite field_ids_app; reflexivity).
    assert (Hp' : Forall proper (fields s ++ [Field (newField uuid1 type
                      (Z.of_nat (length (fields s))))]))
      by (apply Forall_app; split; [exact Hprop | repeat constructor]).
    assert (Hnd' : List.NoDup (field_ids (fields s) ++ [uuid1])).
    { apply List.NoDup_app; [exact Hnd | repeat constructor; intros [] |].
      intros x Hx [<-|[]]. exact (Hfresh Hx). }
    destruct (steps s) as [|first rest] eqn:Es; cbn [fields steps activeStepId].
    + split; [exact Hp'|]. split; [rewrite Hids; exact Hnd'|]. split.
      * rewrite Hids. intros x Hx. apply in_app_or in Hx as [Hx|[<-|[]]].
        -- destruct (Hcov x Hx).
        -- left. reflexivity.
      * left. reflexivity.
    + split; [exact Hp'|]. split; [rewrite Hids; exact Hnd'|].
      set (P := if existsb (fun st => opt_is (activeStepId s) (s_id st)) (first :: rest)
                then (fun st => opt_is (activeStepId s) (s_id st))
                else (fun _ : FormStep => true)).
      assert (Esteps :
        (if existsb (fun st => opt_is (activeStepId s) (s_id st)) (first :: rest)
         then update_first (fun st => opt_is (activeStepId s) (s_id st))
                (push_fieldId uuid1) (first :: rest)
         else update_first (fun _ => true) (push_fieldId uuid1) (first :: rest))
        = update_first P (append_fieldIds [uuid1]) (first :: rest)).
      { unfold P. destruct (existsb _ (first :: rest)); reflexivity. }
      assert (HP : existsb P (first :: rest) = true).
      { unfold P. destruct (existsb _ (first :: rest)) eqn:E; [exact E | reflexivity]. }
      cbn [newField f_id]. rewrite Esteps. split.
      * rewrite Hids. intros x Hx. apply occ_In. rewrite update_first_occ, HP.
        apply in_app_or in Hx as [Hx|[<-|[]]].
        -- apply Hcov, occ_In in Hx. lia.
        -- rewrite occ_cons, String.eqb_refl. lia.
      * eapply active_ok_same_ids; [apply update_first_ids | exact Hact].
  - (* addStep *)
    split; [apply doc_ok_addStep; assumption|].
    unfold addStep. cbn [_addToHistory fields steps activeStepId s_id].
    split; [exact Hprop|]. split; [exact Hnd|]. split.
    + intros x Hx. rewrite sids_app. apply in_or_app. left. apply Hcov, Hx.
    + unfold active_ok. rewrite map_app. apply in_or_app. right. left. reflexivity.
  - (* updateField *)
    split; [apply doc_ok_updateField; assumption|].
    unfold updateField. cbn [_addToHistory fields steps activeStepId].
    split; [apply update_one_proper, Hprop|].
    rewrite (field_ids_update_same _ _ _ Hu). auto.
  - (* moveFieldToStep *)
    destruct (selectedField_In s field i Hsel Hi) as [Hin _].
    split; [apply doc_ok_moveFieldToStep; assumption|].
    unfold moveFieldToStep. cbn [_addToHistory fields steps activeStepId].
    split; [exact Hprop|]. split; [exact Hnd|]. split.
    + intros x Hx. apply occ_In. rewrite move_steps_occ_eq.
      destruct (String.eqb x i).
      * assert (Hf : In step (List.filter (fun st => String.eqb (s_id st) (s_id step))
                                 (steps s)))
          by (apply List.filter_In; split; [exact Hstep | apply String.eqb_refl]).
        destruct (List.filter _ (steps s)); [destruct Hf | simpl; lia].
      * apply occ_In, Hcov, Hx.
    + eapply active_ok_same_ids; [apply move_steps_ids | exact Hact].
  - (* removeField *)
    split; [apply doc_ok_removeField; assumption|].
    unfold removeField. cbn [_addToHistory fields steps activeStepId].
    split; [|split; [|split]].
    + apply List.Forall_forall. intros a Ha. apply List.filter_In in Ha as [Ha _].
      rewrite List.Forall_forall in Hprop. apply Hprop, Ha.
    + rewrite field_ids_filter. apply List.NoDup_filter, Hnd.
    + rewrite field_ids_filter, nonempty_steps_sids, without_field_sids.
      intros x Hx. apply List.filter_In in Hx as [Hx Hne].
      apply List.filter_In. split; [apply Hcov, Hx | exact Hne].
    + apply next_active_ok.
  - (* reorderFields *)
    pose proof (shown_length s) as Hsl.
    split; [apply doc_ok_reorderFields; assumption|].
    destruct (reorderFields_in_range i j s ltac:(lia) ltac:(lia)) as (Ef & Es & Ea).
    pose proof (reorderFields_ids (Z.of_nat i) (Z.of_nat j) s) as Hperm.
    rewrite Es, Ea. split; [|split; [|split; [|exact Hact]]].
    + rewrite Ef. apply renumbered_proper.
      apply List.Forall_forall. intros x Hx. apply move_item_In in Hx.
      rewrite List.Forall_forall in Hprop. apply Hprop.
      eapply Permutation_in; [apply sort_by_order_Permutation | exact Hx].
    + eapply NoDup_Permutation_ids; [exact Hperm | exact Hnd].
    + intros x Hx. apply Hcov. eapply Permutation_in; [exact Hperm | exact Hx].
  - (* updateStepName *)
    split; [apply doc_ok_updateStepName; assumption|].
    unfold updateStepName. cbn [_addToHistory fields steps activeStepId].
    destruct (renamed_sids (fun st => String.eqb (s_id st) (s_id step)) name (steps s))
      as [E1 E2].
    split; [exact Hprop|]. split; [exact Hnd|]. split.
    + rewrite E1. exact Hcov.
    + eapply active_ok_same_ids; [exact E2 | exact Hact].
  - (* removeStep *)
    split; [apply doc_ok_removeStep; assumption|].
    destruct Hdoc as (_ & _ & Hsnd).
    unfold removeStep. cbn [_addToHistory fields steps activeStepId].
    rewrite (find_unique_step _ _ Hsnd Hstep).
    pose proof (remaining_steps_nonempty (steps s) (s_id step) Hsnd ltac:(lia)) as Hrem.
    set (p := fun st => negb (String.eqb (s_id st) (s_id step))) in *.
    destruct (List.filter p (steps s)) as [|first rest] eqn:Ef; [congruence|].
    cbn [fields steps activeStepId].
    split; [exact Hprop|]. split; [exact Hnd|].
    assert (Hfirst : existsb (fun st => String.eqb (s_id st) (s_id first)) (first :: rest)
                     = true) by (simpl; rewrite String.eqb_refl; reflexivity).
    assert (Hkept : forall x st, In st (steps s) -> In x (fieldIds st) ->
                    s_id st <> s_id step -> In x (step_field_ids (first :: rest))).
    { intros x st Hst Hx Hne. apply sids_In. exists st. split; [|exact Hx].
      rewrite <- Ef. apply List.filter_In. split; [exact Hst|].
      unfold p. apply negb_true_iff, String.eqb_neq, Hne. }
    assert (Hsame : forall st, In st (steps s) -> s_id st = s_id step -> st = step).
    { intros st Hst E. pose proof (find_unique_step _ _ Hsnd Hst) as H1.
      rewrite E, (find_unique_step _ _ Hsnd Hstep) in H1. congruence. }
    split.
    + intros x Hx. apply Hcov, sids_In in Hx as (st & Hst & Hxst).
      destruct (String.eqb_spec (s_id st) (s_id step)) as [E|Hne].
      * apply Hsame in E; [|exact Hst]. subst st.
        destruct (fieldIds step) as [|y ys] eqn:Eids; [destruct Hxst|].
        cbn [length Nat.ltb Nat.leb]. apply occ_In.
        rewrite update_first_occ, Hfirst. apply occ_In in Hxst. lia.
      * pose proof (Hkept x st Hst Hxst Hne) as Hk.
        destruct (0 <? length (fieldIds step))%nat; [|exact Hk].
        apply occ_In. rewrite update_first_occ. apply occ_In in Hk.
        destruct (existsb _ _); lia.
    + unfold active_ok.
      destruct (0 <? length (fieldIds step))%nat;
        [rewrite update_first_ids|]; left; reflexivity.
  - (* setFormName *)
    unfold setFormName. cbn [_addToHistory fields steps activeStepId].
    split; [exact Hdoc|]. split; [exact Hprop|]. split; [exact Hnd|].
    split; [exact Hcov | exact Hact].
  - (* clearForm *)
    apply consistent_empty.
Qed.

Lemma selection_kept (a : Action) (s : FormBuilderState) :
  mutating a = true -> admissible a s ->
  (forall x, selectedFieldId s = Some x -> In x (field_ids (fields s))) ->
  forall x, selectedFieldId (run a s) = Some x -> In x (field_ids (fields (run a s))).
Proof.
  intros Hm Ha Hsel. destruct a; try discriminate Hm; cbn [run].
  - unfold addField. cbn [_addToHistory fields steps selectedFieldId].
    destruct (steps s); cbn [fields selectedFieldId]; intros x Hx;
      rewrite field_ids_app; apply in_or_app; left; apply Hsel, Hx.
  - unfold updateField. cbn [_addToHistory fields selectedFieldId].
    simpl in Ha. rewrite (field_ids_update_same _ _ _ Ha). exact Hsel.
  - unfold removeField. cbn [_addToHistory fields selectedFieldId].
    intros x Hx. rewrite field_ids_filter. apply List.filter_In.
    destruct (opt_is (selectedFieldId s) i) eqn:E; [discriminate Hx|].
    split; [apply Hsel, Hx|]. rewrite Hx in E. simpl in E. rewrite E. reflexivity.
  - intros x Hx. eapply Permutation_in; [symmetry; apply reorderFields_ids|].
    apply Hsel. exact Hx.
  - exact Hsel.
  - exact Hsel.
  - exact Hsel.
  - unfold removeStep. cbn [_addToHistory steps].
    destruct (find _ (steps s)) as [removed|]; [|exact Hsel].
    destruct (List.filter _ (steps s)); cbn [fields selectedFieldId];
      destruct (includes _ _); try discriminate; exact Hsel.
  - exact Hsel.
  - discriminate.
Qed.

Lemma offers_admissible (s : FormBuilderState) (a : Action) :
  UI.offers s a -> admissible a s.
Proof.
  intros [uuid1 uuid2 type Hfresh|uuid Hfresh
         |field i u Hsel Hi Hu _ _|field i step Hsel Hi Hlen Hstep|field i Hsel Hi
         |field i _ _|i j Hi Hj|step _ _|step name _ _|step Hlen Hstep|name| | | |];
    simpl; auto.
  apply (selectedField_In s field i Hsel Hi).
Qed.

(** Every call a component makes keeps the state consistent. *)
Lemma consistent_state_call (s : FormBuilderState) (a : Action) :
  consistent_state s -> UI.offers s a -> consistent_state (run a s).
Proof.
  intros (Hdoc & Hpast & Hfut & Hsel) Ho.
  destruct (mutating a) eqn:Hm.
  - split; [apply consistent_call; assumption|].
    rewrite (past_after_mutation a s Hm), (future_after_mutation a s Hm).
    split; [|split; [constructor|]].
    + apply Forall_app. split; [apply slice_last9_Forall; exact Hpast|].
      constructor; [exact Hdoc | constructor].
    + apply selection_kept; [exact Hm | apply offers_admissible, Ho | exact Hsel].
  - destruct Ho as [uuid1 uuid2 type Hfresh|uuid Hfresh
                   |field i u Hs Hi Hu _ _|field i step Hs Hi Hlen Hstep|field i Hs Hi
                   |field i Hshown Hi|i j Hi Hj
                   |step Hlen Hstep|step name _ _|step Hlen Hstep
                   |name| | | |]; try discriminate Hm; cbn [run].
    + (* setSelectedField *)
      split; [exact Hdoc|]. split; [exact Hpast|]. split; [exact Hfut|].
      cbn [setSelectedField selectedFieldId fields]. intros x [= <-].
      apply field_ids_In. exists field. split; [apply shown_In, Hshown | exact Hi].
    + (* setActiveStep *)
      destruct Hdoc as (H1 & H2 & H3 & H4 & _).
      split; [|split; [exact Hpast|split; [exact Hfut|exact Hsel]]].
      cbn [setActiveStep fields steps activeStepId].
      split; [exact H1|]. split; [exact H2|]. split; [exact H3|]. split; [exact H4|].
      apply in_map, Hstep.
    + (* undo *)
      unfold undo. destruct (last (past s)) as [e|] eqn:El;
        [|split; [exact Hdoc | split; [exact Hpast | split; [exact Hfut | exact Hsel]]]].
      assert (He : consistent_entry e).
      { rewrite List.Forall_forall in Hpast. apply Hpast.
        apply last_Some in El as (l' & ->). apply in_or_app. right. left. reflexivity. }
      split; [exact He|]. cbn [past future selectedFieldId].
      split; [apply drop_last_Forall; exact Hpast|].
      split; [constructor; [exact Hdoc | exact Hfut]|]. discriminate.
    + (* redo *)
      unfold redo. destruct (future s) as [|e fut] eqn:Ef.
      * split; [exact Hdoc|]. split; [exact Hpast|]. split; [rewrite Ef; constructor|].
        exact Hsel.
      * inversion Hfut as [|? ? He Hfut']; subst.
        split; [exact He|]. cbn [past future selectedFieldId].
        split; [apply Forall_app; split; [exact Hpast|]; constructor;
                [exact Hdoc | constructor]|].
        split; [exact Hfut'|]. discriminate.
    + (* toggleTheme *)
      split; [exact Hdoc|]. split; [exact Hpast|]. split; [exact Hfut | exact Hsel].
Qed.

Lemma ui_reachable_consistent (s : FormBuilderState) :
  UI.reachable s -> consistent_state s.
Proof.
  induction 1 as [|s a _ IH Ho].
  - split; [apply consistent_empty|]. split; [constructor|]. split; [constructor|].
    discriminate.
  - apply consistent_state_call; assumption.
Qed.

(** In every state the builder is brought to through its components
    (with identifiers from [uuidv4] that are not in use), fields and
    steps fit together: every element of [fields] is a field object,
    field ids are pairwise different, every field is listed by exactly
    one step and every listed id is the id of a field; [activeStepId]
    names an existing step, and is [null] only when there is no step;
    and [selectedFieldId], when set, names an existing field.  The calls
    that break these properties -- a partial update with an [id], a move
    to or of something unknown, a start index out of range, the removal
    of the only step -- are calls no component makes. *)
Theorem builder_keeps_document_consistent (s : FormBuilderState) :
  UI.reachable s ->
  referential_integrity s
  /\ (forall a, In a (fields s) -> exists f, a = Field f)
  /\ List.NoDup (field_ids (fields s))
  /\ (forall f, In (Field f) (fields s) ->
        exists st, In st (steps s) /\ In (f_id f) (fieldIds st))
  /\ match activeStepId s with
     | None => steps s = []
     | Some x => exists st, In st (steps s) /\ s_id st = x
     end
  /\ (forall x, selectedFieldId s = Some x ->
        exists f, In (Field f) (fields s) /\ f_id f = x).
Proof.
  intros Hr. destruct (ui_reachable_consistent s Hr)
    as ((Hdoc & Hprop & Hnd & Hcov & Hact) & _ & _ & Hsel).
  split; [apply doc_ok_integrity, Hdoc|]. split; [|split; [exact Hnd|split; [|split]]].
  - intros a Ha. destruct (proper_field_ids _ _ Hprop Ha) as (f & -> & _). eauto.
  - intros f Hf. apply sids_In, Hcov, field_ids_In. exists (Field f). auto.
  - unfold active_ok in Hact. destruct (activeStepId s) as [x|]; [|exact Hact].
    apply in_map_iff in Hact as (st & E & Hst). eauto.
  - intros x Hx. apply Hsel, field_ids_In in Hx as (a & Ha & Hid).
    destruct a as [f|o]; [|discriminate Hid]. exists f. split; [exact Ha|].
    simpl in Hid. congruence.
Qed.

Lemma builder_keeps_document_consistent_witness :
  let s := run_all [AddField "a" "s1" text; AddStep "s2"; AddField "b" "s3" date;
                    RemoveStep "s2"] initialFormBuilderState in
  referential_integrity s
  /\ (forall f, In (Field f) (fields s) ->
        exists st, In st (steps s) /\ In (f_id f) (fieldIds st)).
Proof.
  assert (H : UI.reachable (run_all [AddField "a" "s1" text; AddStep "s2";
                                     AddField "b" "s3" date; RemoveStep "s2"]
                              initialFormBuilderState)).
  { unfold run_all. cbn [fold_left].
    apply (UI.reachable_call _ (RemoveStep "s2")).
    - apply (UI.reachable_call _ (AddField "b" "s3" date)).
      + apply (UI.reachable_call _ (AddStep "s2")).
        * apply (UI.reachable_call _ (AddField "a" "s1" text)); [apply UI.reachable_init|].
          apply UI.toolbox_addField. intros [].
        * apply UI.toolbox_addStep. vm_compute. intros [H|[]]. discriminate H.
      + apply UI.toolbox_addField. vm_compute. intros [H|[]]. discriminate H.
    - apply (UI.navigation_removeStep _
               {| s_id := "s2"; s_name := "Step 2"; fieldIds := ["b"] |}).
      + vm_compute. lia.
      + right. left. reflexivity. }
  destruct (builder_keeps_document_consistent _ H) as (H1 & _ & _ & H2 & _).
  split; [exact H1 | exact H2].
Defined.
(** ** What the filler shows of a shared form *)

Lemma includes_id_Some (ids : list string) (i : string) :
  Filler.includes_id (map Some ids) (Some i) = true <-> In i ids.
Proof.
  unfold Filler.includes_id. rewrite existsb_exists. split.
  - intros (x & Hx & E). apply in_map_iff in Hx as (y & <- & Hy).
    simpl in E. apply String.eqb_eq in E. subst y. exact Hy.
  - intros H. exists (Some i). split; [apply in_map, H | simpl; apply String.eqb_refl].
Qed.

Lemma filler_shows (formData : FormData) (n : nat) (f : FormField) :
  fd_steps formData <> [] ->
  In (Field f) (Filler.fieldsInActiveStep formData n)
  <-> In (Field f) (fd_fields formData)
      /\ exists st, nth_error (fd_steps formData) n = Some st /\ In (f_id f) (fieldIds st).
Proof.
  intros Hne. unfold Filler.fieldsInActiveStep, Filler.effectiveSteps.
  destruct (fd_steps formData) as [|st0 ss] eqn:Es; [congruence|]. rewrite <- Es.
  rewrite nth_error_map. destruct (nth_error (fd_steps formData) n) as [st|]; cbn [option_map].
  - split.
    + intros H. eapply Permutation_in in H; [|apply sort_by_order_Permutation].
      apply List.filter_In in H as [Hin Hinc]. split; [exact Hin|].
      exists st. split; [reflexivity|]. apply includes_id_Some. exact Hinc.
    + intros (Hin & st' & [= <-] & Hid).
      eapply Permutation_in; [symmetry; apply sort_by_order_Permutation|].
      apply List.filter_In. split; [exact Hin|]. apply includes_id_Some. exact Hid.
  - split; [intros [] | intros (_ & st & E & _); discriminate E].
Qed.

(** From the builder to the filler: of a form that was built through
    the components and shared, the filler page shows every field in
    exactly one of its steps, and shows nothing but these fields (the
    item under [formBuilder_savedForms] not being the text of an
    array). *)
Theorem shared_form_shows_every_field (inherits : Kind -> string -> bool)
    (trim : string -> string)
    (window now random createdAt updatedAt link : string)
    (s : FormBuilderState) (ls ls' : LocalStorage) (fallbackFormData : option FormData) :
  UI.reachable s ->
  is_array (savedForms ls) = false ->
  Builder.handleShareForm trim (Some window) now random createdAt updatedAt s ls
  = (Builder.Shared link, ls') ->
  exists formData,
    Filler.load inherits (generateFormId now random) fallbackFormData ls'
    = (Some formData, false)
    /\ (forall f, In (Field f) (fields s) ->
          exists n, In (Field f) (Filler.fieldsInActiveStep formData n)
                    /\ forall m, In (Field f) (Filler.fieldsInActiveStep formData m) -> m = n)
    /\ (forall n field, In field (Filler.fieldsInActiveStep formData n) ->
          In field (fields s)).
Proof.
  intros Hr Harr Hshare. eexists.
  split; [exact (share_then_load _ _ _ _ _ _ _ _ _ _ _ _ Harr Hshare)|].
  destruct (ui_reachable_consistent s Hr) as ((Hdoc & Hprop & Hnd & Hcov & Hact) & _).
  pose proof (doc_ok_integrity s Hdoc) as [_ Huniq].
  set (formData := {| fd_formName := trim (formName s); fd_fields := fields s;
                      fd_steps := steps s |}).
  split.
  - intros f Hf.
    assert (Hin : In (f_id f) (step_field_ids (steps s))).
    { apply Hcov, field_ids_In. exists (Field f). auto. }
    apply sids_In in Hin as (st & Hst & Hid).
    apply In_nth_error in Hst as [n Hn].
    assert (Hne : fd_steps formData <> []).
    { cbn [formData fd_steps]. intros E. rewrite E in Hn. destruct n; discriminate Hn. }
    exists n. split.
    + apply (filler_shows formData n f Hne). split; [exact Hf|]. exists st. auto.
    + intros m Hm. apply (filler_shows formData m f Hne) in Hm as (_ & st' & Hm & Hid').
      exact (Huniq m n st' st (f_id f) Hm Hn Hid' Hid).
  - intros n field. unfold Filler.fieldsInActiveStep.
    destruct (nth_error _ n); [|intros []].
    intros H. eapply Permutation_in in H; [|apply sort_by_order_Permutation].
    apply List.filter_In in H. apply H.
Qed.

Lemma shared_form_shows_every_field_witness :
  let s := run_all [AddField "a" "s1" text; SetFormName "Survey"] initialFormBuilderState in
  let ls := {| savedForms := Absent; submissions := Absent |} in
  let r := Builder.handleShareForm (fun x => x) (Some "https://forms.example") "1" "x7"
             "2025-01-01" "2025-01-01" s ls in
  exists formData,
    Filler.load (fun _ _ => false) "form_1_x7" None (snd r) = (Some formData, false)
    /\ (forall f, In (Field f) (fields s) ->
          exists n, In (Field f) (Filler.fieldsInActiveStep formData n)
                    /\ forall m, In (Field f) (Filler.fieldsInActiveStep formData m) -> m = n)
    /\ (forall n field, In field (Filler.fieldsInActiveStep formData n) ->
          In field (fields s)).
Proof.
  apply (shared_form_shows_every_field (fun _ _ => false) (fun x => x)
           "https://forms.example" "1" "x7"
           "2025-01-01" "2025-01-01" "https://forms.example/fill-form/form_1_x7"
           (run_all [AddField "a" "s1" text; SetFormName "Survey"] initialFormBuilderState)
           {| savedForms := Absent; submissions := Absent |}).
  - unfold run_all. cbn [fold_left].
    apply (UI.reachable_call _ (SetFormName "Survey")); [|apply UI.header_setFormName].
    apply (UI.reachable_call _ (AddField "a" "s1" text)); [apply UI.reachable_init|].
    apply UI.toolbox_addField. intros [].
  - reflexivity.
  - reflexivity.
Defined.
(** ** What the actions leave alone *)

(** The parts of the state that an action can change.  The theme is
    changed by [toggleTheme] only, the form name by [setFormName] and
    [clearForm] only, the fields by [addField], [updateField],
    [removeField], [reorderFields] and [clearForm] only, the steps by
    [addField], [removeField], [addStep], [updateStepName], [removeStep],
    [moveFieldToStep] and [clearForm] only -- and each of them by [undo]
    and [redo], which install a recorded snapshot.  The history is left
    alone by [setSelectedField], [toggleTheme] and [setActiveStep]. *)
Theorem action_frame (a : Action) (s : FormBuilderState) :
  match a with
  | ToggleTheme | Undo | Redo => True
  | _ => theme (run a s) = theme s
  end
  /\ match a with
     | SetFormName _ | ClearForm | Undo | Redo => True
     | _ => formName (run a s) = formName s
     end
  /\ match a with
     | AddField _ _ _ | UpdateField _ _ | RemoveField _ | ReorderFields _ _
     | ClearForm | Undo | Redo => True
     | _ => fields (run a s) = fields s
     end
  /\ match a with
     | AddField _ _ _ | RemoveField _ | AddStep _ | UpdateStepName _ _ | RemoveStep _
     | MoveFieldToStep _ _ | ClearForm | Undo | Redo => True
     | _ => steps (run a s) = steps s
     end
  /\ match a with
     | SetSelectedField _ | ToggleTheme | SetActiveStep _ =>
         past (run a s) = past s /\ future (run a s) = future s
     | _ => True
     end.
Proof.
  destruct a; cbn [run].
  all: repeat split.
  all: try reflexivity.
  all: try (unfold addField; cbn [_addToHistory steps]; destruct (steps s); reflexivity).
  all: try (unfold reorderFields; cbn [_addToHistory fields];
            destruct (splice_remove1 _ _); reflexivity).
  all: unfold removeStep; cbn [_addToHistory steps].
  all: destruct (find _ (steps s)); [|reflexivity].
  all: destruct (List.filter _ (steps s)); reflexivity.
Qed.
